(** * llama-kotlin-android: the native session wrapper

    A shallow embedding of [app/src/main/cpp/llama_context_wrapper.cpp]
    (class [llamaandroid::LlamaContextWrapper]) and the properties its
    specification states about it.

    Conventions of the embedding.
    - The llama.cpp engine is an external collaborator: it is a record
      [Engine] of functions over abstract model, context and sampler
      states.  Engine objects that the C++ code mutates in place through
      a pointer (the context by [llama_decode], the sampler chain by
      [llama_sampler_sample]) are passed and returned explicitly.
    - The preprocessor switch [LLAMA_AVAILABLE] selects between the real
      and the stub code of every operation; it is a boolean parameter.
    - C++ [int] quantities are carried in [Z] and their arithmetic is
      exact (signed overflow is undefined in C++ and is not part of the
      model); conversions to [uint32_t] are written out with
      [to_uint32], and the conversion of a [uint32_t] to [int] with
      [to_int32].
      [float] values are IEEE 754 values ([spec_float]); the code only
      compares them.
    - Every call into the engine, every callback invocation and every
      write of the [isGenerating_] flag is recorded, in order, in the
      ghost field [events] of the session.
    - Undefined behaviour of the C++ code (a write past the end of an
      array, a null handle handed to the engine) is the result
      [Undefined]. *)

From Stdlib Require Import ZArith String Ascii Bool SpecFloat Sorted Lia.
From stdpp Require Import base list strings.

Local Open Scope string_scope.
Local Open Scope list_scope.
Local Open Scope Z_scope.

(** ** Machine numbers *)

Abbreviation llama_token := Z (only parsing).

(** Conversion of an integer to [uint32_t]. *)
Definition to_uint32 (z : Z) : Z := z mod 2 ^ 32.

(** Conversion of an integer to [int] (32 bits, two's complement):
    a [uint32_t] of [2^31] or more becomes negative. *)
Definition to_int32 (z : Z) : Z := (z + 2 ^ 31) mod 2 ^ 32 - 2 ^ 31.

(** [float]: IEEE 754 values, compared with [SFeqb] and [SFltb]. *)
Definition float := spec_float.

(** The literals [1.0f] and [0.0f] in binary32 (24 bits of precision). *)
Definition float_one : float := S754_finite false 8388608 (-23).
Definition float_zero : float := S754_zero false.

(** C++ [a != b], [a < b] and [a > b] on floats. *)
Definition float_ne (a b : float) : bool := negb (SFeqb a b).
Definition float_lt (a b : float) : bool := SFltb a b.
Definition float_gt (a b : float) : bool := SFltb b a.

(** ** Outcomes: a result, or undefined behaviour *)

Inductive fault :=
| batch_out_of_bounds   (* a write past the capacity of a llama_batch array *)
| buffer_out_of_bounds  (* a write past the 256-byte piece buffer *)
| null_handle.          (* a null model, context or sampler given to the engine *)

Inductive outcome (T : Type) :=
| Ok (t : T)
| Undefined (f : fault).
Arguments Ok {T} t.
Arguments Undefined {T} f.

Definition bind {T U} (o : outcome T) (k : T -> outcome U) : outcome U :=
  match o with
  | Ok t => k t
  | Undefined f => Undefined f
  end.

Notation "'do' x <- o ; k" := (bind o (fun x => k))
  (at level 10, x pattern, o at level 99, k at level 200).

(** ** Configuration *)

(** Modelled from the spec: the struct [LlamaConfig] is declared in the
    header [llama_context_wrapper.h], which is missing; the fields are
    those the spec lists and the source reads. *)
Record LlamaConfig := {
  contextSize : Z;
  batchSize : Z;
  threads : Z;
  threadsBatch : Z;
  gpuLayers : Z;
  useMmap : bool;
  useMlock : bool;
  maxTokens : Z;
  temperature : float;
  topK : Z;
  topP : float;
  repeatPenalty : float;
  seed : Z
}.

(** ** The engine interface *)

(** The fields of [llama_model_params] and [llama_context_params] that
    the wrapper sets; the others keep the engine's defaults. *)
Record llama_model_params := {
  n_gpu_layers : Z;
  use_mmap : bool;
  use_mlock : bool
}.

Record llama_context_params := {
  n_ctx : Z;
  n_batch : Z;
  n_threads : Z;
  n_threads_batch : Z
}.

(** A sampler stage as the wrapper creates it: one constructor per
    [llama_sampler_init_*] call, with the arguments of the call. *)
Inductive sampler_stage :=
| llama_sampler_init_penalties (penalty_last_n : Z) (penalty_repeat penalty_freq penalty_present : float)
| llama_sampler_init_top_k (k : Z)
| llama_sampler_init_top_p (p : float) (min_keep : Z)
| llama_sampler_init_temp (t : float)
| llama_sampler_init_dist (seed : Z).

(** [llama_batch]: the arrays of a token batch ([embd] is not
    allocated by this wrapper). *)
Record llama_batch := {
  n_tokens : Z;
  token : list llama_token;
  pos : list Z;
  n_seq_id : list Z;
  seq_id : list (list Z);
  logits : list bool
}.

(** llama.cpp's [llama_batch_init(n_tokens_alloc, 0, n_seq_max)]:
    arrays that hold at most [n_tokens_alloc] entries, each [seq_id]
    row [n_seq_max] sequence ids.  The allocated cells are
    uninitialised; they are read only after being written. *)
Definition llama_batch_init (n_tokens_alloc embd n_seq_max : Z) : llama_batch :=
  let cap := Z.to_nat n_tokens_alloc in
  {| n_tokens := 0;
     token := replicate cap 0;
     pos := replicate cap 0;
     n_seq_id := replicate cap 0;
     seq_id := replicate cap (replicate (Z.to_nat n_seq_max) 0);
     logits := replicate cap false |}.

Record Engine := {
  llama_model : Type;
  llama_context : Type;
  llama_vocab : Type;
  llama_sampler : Type;
  llama_model_load_from_file : string -> llama_model_params -> option llama_model;
  llama_init_from_model : llama_model -> llama_context_params -> option llama_context;
  llama_model_get_vocab : llama_model -> llama_vocab;
  llama_n_ctx : llama_context -> Z;
  (* text, buffer (data and size), add_special, parse_special:
     return code and the buffer as the engine leaves it *)
  llama_tokenize : llama_vocab -> string -> list llama_token -> bool -> bool -> Z * list llama_token;
  (* token, buffer length, lstrip, special: return code and bytes written *)
  llama_token_to_piece : llama_vocab -> llama_token -> Z -> Z -> bool -> Z * string;
  llama_vocab_is_eog : llama_vocab -> llama_token -> bool;
  llama_decode : llama_context -> llama_batch -> Z * llama_context;
  llama_sampler_chain_init : llama_sampler;
  llama_sampler_chain_add : llama_sampler -> sampler_stage -> llama_sampler;
  (* sampler, context, index: the token and the sampler after the draw *)
  llama_sampler_sample : llama_sampler -> llama_context -> Z -> llama_token * llama_sampler
}.

(** What the rest of the process contributes to one call: the wall
    clock read by [std::time], and the cancellation requests of other
    threads ([cancel_requested k]: [cancelGeneration] was called by
    another thread before check number [k] of the loop condition). *)
Record Env := {
  time_now : Z;
  cancel_requested : nat -> bool
}.

Section Wrapper.

(** The macro [LLAMA_AVAILABLE] is set by the build: true with the
    llama.cpp backend compiled in, false for the stub. *)
Variable LLAMA_AVAILABLE : bool.

Variable E : Engine.

(** ** Events *)

Inductive event :=
| ev_backend_init
| ev_backend_free
| ev_model_load_from_file (path : string) (p : llama_model_params) (r : option (llama_model E))
| ev_model_free (m : llama_model E)
| ev_init_from_model (m : llama_model E) (p : llama_context_params) (r : option (llama_context E))
| ev_free (c : llama_context E)
| ev_sampler_chain_init
| ev_sampler_chain_add (st : sampler_stage)
| ev_sampler_free (smp : llama_sampler E)
| ev_tokenize (text : string) (n_tokens_max : Z) (ret : Z)
| ev_token_to_piece (tok : llama_token) (ret : Z)
| ev_batch_init (n_tokens_alloc embd n_seq_max : Z)
| ev_batch_free
| ev_decode (b : llama_batch) (ret : Z)
| ev_sampler_sample (tok : llama_token)
| ev_callback (piece : string)
| ev_isGenerating (b : bool).

(** ** The session object *)

Record LlamaContextWrapper := {
  model_ : option (llama_model E);
  context_ : option (llama_context E);
  sampler_ : option (llama_sampler E);
  currentConfig_ : LlamaConfig;
  isGenerating_ : bool;
  shouldCancel_ : bool;
  lastError_ : string;
  events : list event   (* ghost: the history of the session *)
}.

Definition set_model_ (v : option (llama_model E)) (s : LlamaContextWrapper) :=
  {| model_ := v; context_ := context_ s; sampler_ := sampler_ s;
     currentConfig_ := currentConfig_ s; isGenerating_ := isGenerating_ s;
     shouldCancel_ := shouldCancel_ s; lastError_ := lastError_ s;
     events := events s |}.

Definition set_context_ (v : option (llama_context E)) (s : LlamaContextWrapper) :=
  {| model_ := model_ s; context_ := v; sampler_ := sampler_ s;
     currentConfig_ := currentConfig_ s; isGenerating_ := isGenerating_ s;
     shouldCancel_ := shouldCancel_ s; lastError_ := lastError_ s;
     events := events s |}.

Definition set_sampler_ (v : option (llama_sampler E)) (s : LlamaContextWrapper) :=
  {| model_ := model_ s; context_ := context_ s; sampler_ := v;
     currentConfig_ := currentConfig_ s; isGenerating_ := isGenerating_ s;
     shouldCancel_ := shouldCancel_ s; lastError_ := lastError_ s;
     events := events s |}.

Definition set_currentConfig_ (v : LlamaConfig) (s : LlamaContextWrapper) :=
  {| model_ := model_ s; context_ := context_ s; sampler_ := sampler_ s;
     currentConfig_ := v; isGenerating_ := isGenerating_ s;
     shouldCancel_ := shouldCancel_ s; lastError_ := lastError_ s;
     events := events s |}.

Definition set_shouldCancel_ (v : bool) (s : LlamaContextWrapper) :=
  {| model_ := model_ s; context_ := context_ s; sampler_ := sampler_ s;
     currentConfig_ := currentConfig_ s; isGenerating_ := isGenerating_ s;
     shouldCancel_ := v; lastError_ := lastError_ s;
     events := events s |}.

Definition set_lastError_ (v : string) (s : LlamaContextWrapper) :=
  {| model_ := model_ s; context_ := context_ s; sampler_ := sampler_ s;
     currentConfig_ := currentConfig_ s; isGenerating_ := isGenerating_ s;
     shouldCancel_ := shouldCancel_ s; lastError_ := v;
     events := events s |}.

(** Record an event at the end of the history. *)
Definition emit (ev : event) (s : LlamaContextWrapper) :=
  {| model_ := model_ s; context_ := context_ s; sampler_ := sampler_ s;
     currentConfig_ := currentConfig_ s; isGenerating_ := isGenerating_ s;
     shouldCancel_ := shouldCancel_ s; lastError_ := lastError_ s;
     events := events s ++ [ev] |}.

Definition add_events (evs : list event) (s : LlamaContextWrapper) :=
  {| model_ := model_ s; context_ := context_ s; sampler_ := sampler_ s;
     currentConfig_ := currentConfig_ s; isGenerating_ := isGenerating_ s;
     shouldCancel_ := shouldCancel_ s; lastError_ := lastError_ s;
     events := events s ++ evs |}.

(** [isGenerating_ = v]; the write is visible to other threads. *)
Definition set_isGenerating_ (v : bool) (s : LlamaContextWrapper) :=
  {| model_ := model_ s; context_ := context_ s; sampler_ := sampler_ s;
     currentConfig_ := currentConfig_ s; isGenerating_ := v;
     shouldCancel_ := shouldCancel_ s; lastError_ := lastError_ s;
     events := events s ++ [ev_isGenerating v] |}.

(** The object after its constructor: null handles, clear flags, no
    error, the backend initialised.  The default member initialisers
    are in the missing header; the default configuration is a
    parameter. *)
Definition LlamaContextWrapper_new (defaults : LlamaConfig) : LlamaContextWrapper :=
  {| model_ := None; context_ := None; sampler_ := None;
     currentConfig_ := defaults; isGenerating_ := false;
     shouldCancel_ := false; lastError_ := "";
     events := if LLAMA_AVAILABLE then [ev_backend_init] else [] |}.

(** ** Error slot *)

Definition setError (error : string) (s : LlamaContextWrapper) : LlamaContextWrapper :=
  set_lastError_ error s.

Definition clearError (s : LlamaContextWrapper) : LlamaContextWrapper :=
  set_lastError_ "" s.

Definition getLastError (s : LlamaContextWrapper) : string := lastError_ s.

(** ** Lifecycle *)

Definition unloadModel (s : LlamaContextWrapper) : LlamaContextWrapper :=
  if LLAMA_AVAILABLE then
    let s := match sampler_ s with
             | Some smp => set_sampler_ None (emit (ev_sampler_free smp) s)
             | None => s
             end in
    let s := match context_ s with
             | Some c => set_context_ None (emit (ev_free c) s)
             | None => s
             end in
    let s := match model_ s with
             | Some m => set_model_ None (emit (ev_model_free m) s)
             | None => s
             end in
    s
  else s.

Definition isModelLoaded (s : LlamaContextWrapper) : bool :=
  if LLAMA_AVAILABLE then
    match model_ s, context_ s with
    | Some _, Some _ => true
    | _, _ => false
    end
  else true.

(** [llama_sampler_chain_add(sampler_, stage)] on the member [sampler_]. *)
Definition chain_add (st : sampler_stage) (s : LlamaContextWrapper) : LlamaContextWrapper :=
  match sampler_ s with
  | Some smp => set_sampler_ (Some (llama_sampler_chain_add E smp st)) (emit (ev_sampler_chain_add st) s)
  | None => s
  end.

Definition setupSampler (now : Z) (config : LlamaConfig) (s : LlamaContextWrapper) : LlamaContextWrapper :=
  let s := match sampler_ s with
           | Some smp => emit (ev_sampler_free smp) s
           | None => s
           end in
  let s := set_sampler_ (Some (llama_sampler_chain_init E)) (emit ev_sampler_chain_init s) in
  let s := if float_ne (repeatPenalty config) float_one
           then chain_add (llama_sampler_init_penalties 64 (repeatPenalty config) float_zero float_zero) s
           else s in
  let s := if 0 <? topK config
           then chain_add (llama_sampler_init_top_k (topK config)) s
           else s in
  let s := if float_lt (topP config) float_one
           then chain_add (llama_sampler_init_top_p (topP config) 1) s
           else s in
  let s := if float_gt (temperature config) float_zero
           then chain_add (llama_sampler_init_temp (temperature config)) s
           else s in
  let seed := if 0 <=? seed config then to_uint32 (seed config) else to_uint32 now in
  chain_add (llama_sampler_init_dist seed) s.

Definition loadModel (env : Env) (modelPath : string) (config : LlamaConfig)
    (s : LlamaContextWrapper) : bool * LlamaContextWrapper :=
  let s := clearError s in
  if LLAMA_AVAILABLE then
    let s := match model_ s with
             | Some _ => unloadModel s
             | None => s
             end in
    let modelParams := {| n_gpu_layers := gpuLayers config;
                          use_mmap := useMmap config;
                          use_mlock := useMlock config |} in
    let r := llama_model_load_from_file E modelPath modelParams in
    let s := set_model_ r (emit (ev_model_load_from_file modelPath modelParams r) s) in
    match r with
    | None => (false, setError ("Failed to load model from: " +:+ modelPath) s)
    | Some m =>
      let ctxParams := {| n_ctx := to_uint32 (contextSize config);
                          n_batch := to_uint32 (batchSize config);
                          n_threads := threads config;
                          n_threads_batch := threadsBatch config |} in
      let r := llama_init_from_model E m ctxParams in
      let s := set_context_ r (emit (ev_init_from_model m ctxParams r) s) in
      match r with
      | None =>
        let s := setError "Failed to create llama context" s in
        let s := emit (ev_model_free m) s in
        let s := set_model_ None s in
        (false, s)
      | Some _ =>
        let s := setupSampler (time_now env) config s in
        let s := set_currentConfig_ config s in
        (true, s)
      end
    end
  else
    (true, set_currentConfig_ config s).

(** The destructor: unload, then release the backend. *)
Definition LlamaContextWrapper_delete (s : LlamaContextWrapper) : LlamaContextWrapper :=
  let s := unloadModel s in
  if LLAMA_AVAILABLE then emit ev_backend_free s else s.

(** ** Status *)

Definition cancelGeneration (s : LlamaContextWrapper) : LlamaContextWrapper :=
  set_shouldCancel_ true s.

Definition isGenerating (s : LlamaContextWrapper) : bool := isGenerating_ s.

Definition LIBRARY_VERSION : string := "0.1.0".

Definition getVersion : string :=
  if LLAMA_AVAILABLE then LIBRARY_VERSION +:+ " (llama.cpp)"
  else LIBRARY_VERSION +:+ " (stub)".

(** ** Tokenizer adapter

    [tokenize] and [detokenize] read the member [model_] and change
    nothing in the object: they take the model and return their result
    with the engine calls they made. *)

(** One [llama_tokenize] call on the vector [tokens]: the engine writes
    into the vector's storage, the vector keeps its size. *)
Definition call_tokenize (vocab : llama_vocab E) (text : string) (tokens : list llama_token)
    (addBos : bool) : Z * list llama_token * event :=
  let r := llama_tokenize E vocab text tokens addBos true in
  (fst r, resize (length tokens) 0 (snd r),
   ev_tokenize text (Z.of_nat (length tokens)) (fst r)).

Definition tokenize (model_ : llama_model E) (text : string) (addBos : bool)
    : list llama_token * list event :=
  let vocab := llama_model_get_vocab E model_ in
  let n_tokens_estimate := Z.of_nat (String.length text) / 4 + 16 in
  let tokens := replicate (Z.to_nat n_tokens_estimate) 0 in
  let '(n_tokens, tokens, call1) := call_tokenize vocab text tokens addBos in
  let '(n_tokens, tokens, calls) :=
    if n_tokens <? 0 then
      let tokens := resize (Z.to_nat (- n_tokens)) 0 tokens in
      let '(n_tokens, tokens, call2) := call_tokenize vocab text tokens addBos in
      (n_tokens, tokens, [call1; call2])
    else (n_tokens, tokens, [call1]) in
  if n_tokens <? 0 then ([], calls)
  else (resize (Z.to_nat n_tokens) 0 tokens, calls).

(** The C string held by a buffer: the bytes before the first NUL. *)
Fixpoint c_str (buf : string) : string :=
  match buf with
  | EmptyString => EmptyString
  | String c rest => if Ascii.eqb c Ascii.zero then EmptyString else String c (c_str rest)
  end.

Fixpoint detokenize_loop (vocab : llama_vocab E) (tokens : list llama_token) (result : string)
    (calls : list event) : outcome (string * list event) :=
  match tokens with
  | [] => Ok (result, calls)
  | token :: rest =>
    (* char buf[256]; n = llama_token_to_piece(vocab, token, buf, sizeof(buf) - 1, 0, true) *)
    let r := llama_token_to_piece E vocab token 255 0 true in
    let n := fst r in
    let calls := calls ++ [ev_token_to_piece token n] in
    if n <? 0 then detokenize_loop vocab rest result calls
    else if 256 <=? n then Undefined buffer_out_of_bounds   (* buf[n] = 0 *)
    else detokenize_loop vocab rest (result +:+ c_str (substring 0 (Z.to_nat n) (snd r))) calls
  end.

Definition detokenize (model_ : llama_model E) (tokens : list llama_token)
    : outcome (string * list event) :=
  let vocab := llama_model_get_vocab E model_ in
  detokenize_loop vocab tokens "" [].

(** ** Batches *)

(** [a[i] = v] on an array of a batch. *)
Definition store {T} (a : list T) (i : Z) (v : T) : outcome (list T) :=
  if (0 <=? i) && (i <? Z.of_nat (length a)) then Ok (<[Z.to_nat i := v]> a)
  else Undefined batch_out_of_bounds.

(** [a[i][0] = v] on the [seq_id] rows. *)
Definition store_row0 (a : list (list Z)) (i : Z) (v : Z) : outcome (list (list Z)) :=
  if (0 <=? i) && (i <? Z.of_nat (length a)) then
    match a !! Z.to_nat i with
    | Some row => do row <- store row 0 v; Ok (<[Z.to_nat i := row]> a)
    | None => Undefined batch_out_of_bounds
    end
  else Undefined batch_out_of_bounds.

(** The five assignments that fill entry [i] of a batch:
    [token[i] = tok; pos[i] = p; n_seq_id[i] = 1; seq_id[i][0] = 0;
    logits[i] = lg]. *)
Definition fill_entry (batch : llama_batch) (i : Z) (tok : llama_token) (p : Z) (lg : bool)
    : outcome llama_batch :=
  do token' <- store (token batch) i tok;
  do pos' <- store (pos batch) i p;
  do n_seq_id' <- store (n_seq_id batch) i 1;
  do seq_id' <- store_row0 (seq_id batch) i 0;
  do logits' <- store (logits batch) i lg;
  Ok {| n_tokens := n_tokens batch; token := token'; pos := pos';
        n_seq_id := n_seq_id'; seq_id := seq_id'; logits := logits' |}.

Definition set_n_tokens (n : Z) (batch : llama_batch) : llama_batch :=
  {| n_tokens := n; token := token batch; pos := pos batch;
     n_seq_id := n_seq_id batch; seq_id := seq_id batch; logits := logits batch |}.

(** [for (size_t i = 0; i < promptTokens.size(); i++)]: the tokens
    still to add, and the index [i] of the first of them. *)
Fixpoint add_prompt_tokens (promptTokens : list llama_token) (i : Z) (batch : llama_batch)
    : outcome llama_batch :=
  match promptTokens with
  | [] => Ok batch
  | tok :: rest =>
    do batch <- fill_entry batch (n_tokens batch) tok i false;
    add_prompt_tokens rest (i + 1) (set_n_tokens (n_tokens batch + 1) batch)
  end.

(** The prompt batch: all prompt tokens, logits for the last one only. *)
Definition prompt_batch (capacity : Z) (promptTokens : list llama_token) : outcome llama_batch :=
  let batch := llama_batch_init capacity 0 1 in
  do batch <- add_prompt_tokens promptTokens 0 (set_n_tokens 0 batch);
  if 0 <? n_tokens batch then
    do logits' <- store (logits batch) (n_tokens batch - 1) true;
    Ok {| n_tokens := n_tokens batch; token := token batch; pos := pos batch;
          n_seq_id := n_seq_id batch; seq_id := seq_id batch; logits := logits' |}
  else Ok batch.

(** The batch of one generated token, written over entry 0. *)
Definition next_token_batch (batch : llama_batch) (newToken : llama_token) (n_cur : Z)
    : outcome llama_batch :=
  do batch <- fill_entry (set_n_tokens 0 batch) 0 newToken n_cur true;
  Ok (set_n_tokens 1 batch).

(** ** Engine calls on the members *)

(** [llama_decode(context_, batch)]. *)
Definition decode (batch : llama_batch) (s : LlamaContextWrapper) : outcome (Z * LlamaContextWrapper) :=
  match context_ s with
  | Some c =>
    let r := llama_decode E c batch in
    Ok (fst r, set_context_ (Some (snd r)) (emit (ev_decode batch (fst r)) s))
  | None => Undefined null_handle
  end.

(** [llama_sampler_sample(sampler_, context_, -1)]. *)
Definition sampler_sample (s : LlamaContextWrapper) : outcome (llama_token * LlamaContextWrapper) :=
  match sampler_ s, context_ s with
  | Some smp, Some c =>
    let r := llama_sampler_sample E smp c (-1) in
    Ok (fst r, set_sampler_ (Some (snd r)) (emit (ev_sampler_sample (fst r)) s))
  | _, _ => Undefined null_handle
  end.

(** [const int n_ctx = llama_n_ctx(context_)]: the engine returns a
    [uint32_t], which the declaration converts to [int]. *)
Definition get_n_ctx (s : LlamaContextWrapper) : outcome Z :=
  match context_ s with
  | Some c => Ok (to_int32 (llama_n_ctx E c))
  | None => Undefined null_handle
  end.

(** ** Generation *)

(** Another thread may have called [cancelGeneration] before the
    loop condition is evaluated for the [k]-th time. *)
Definition poll_cancel (env : Env) (k : nat) (s : LlamaContextWrapper) : LlamaContextWrapper :=
  if cancel_requested env k then cancelGeneration s else s.

(** How one pass through the body of the token loop ends: at a
    [break], or at the end of the body with the batch of the next
    decode. *)
Inductive body_end (A : Type) :=
| Break (s : LlamaContextWrapper) (a : A)
| Continue (batch : llama_batch) (s : LlamaContextWrapper) (a : A).
Arguments Break {A} s a.
Arguments Continue {A} batch s a.

(** The body of the token loop; [m] is the member [model_], which the
    loop does not change. *)
Definition generation_step {A} (callback : string -> A -> A) (m : llama_model E)
    (batch : llama_batch) (n_cur : Z) (s : LlamaContextWrapper) (a : A) : outcome (body_end A) :=
  do (newToken, s) <- sampler_sample s;
  if llama_vocab_is_eog E (llama_model_get_vocab E m) newToken then Ok (Break s a)
  else
    do (tokenStr, calls) <- detokenize m [newToken];
    let s := add_events calls s in
    let a := callback tokenStr a in
    let s := emit (ev_callback tokenStr) s in
    do batch <- next_token_batch batch newToken n_cur;
    do (ret, s) <- decode batch s;
    if negb (ret =? 0) then Ok (Break (setError "Failed to decode token" s) a)
    else Ok (Continue batch s a).

(** [while (n_generated < cfg.maxTokens && !shouldCancel_)], with
    [remaining = cfg.maxTokens - n_generated]. *)
Fixpoint generation_loop {A} (env : Env) (callback : string -> A -> A) (m : llama_model E)
    (remaining : nat) (batch : llama_batch) (n_cur : Z) (n_generated : nat)
    (s : LlamaContextWrapper) (a : A) : outcome (LlamaContextWrapper * A) :=
  match remaining with
  | O => Ok (s, a)
  | S remaining' =>
    let s := poll_cancel env n_generated s in
    if shouldCancel_ s then Ok (s, a)
    else
      do r <- generation_step callback m batch n_cur s a;
      match r with
      | Break s a => Ok (s, a)
      | Continue batch s a =>
        generation_loop env callback m remaining' batch (n_cur + 1) (S n_generated) s a
      end
  end.

(** C [isspace] in the default locale. *)
Definition isspace (c : ascii) : bool :=
  let n := nat_of_ascii c in
  (Nat.eqb n 32 || (Nat.leb 9 n && Nat.leb n 13))%bool.

(** The words that successive [iss >> word] extractions read from a
    stream over [text]; [cur] is the word being read. *)
Fixpoint words_from (cur : string) (text : string) : list string :=
  match text with
  | EmptyString => if String.eqb cur "" then [] else [cur]
  | String c rest =>
    if isspace c then
      if String.eqb cur "" then words_from "" rest else cur :: words_from "" rest
    else words_from (cur +:+ String c EmptyString) rest
  end.

Definition words (text : string) : list string := words_from "" text.

(** [while (iss >> word && !shouldCancel_) callback(word + " ")]. *)
Fixpoint stub_loop {A} (env : Env) (callback : string -> A -> A) (ws : list string) (k : nat)
    (s : LlamaContextWrapper) (a : A) : LlamaContextWrapper * A :=
  match ws with
  | [] => (s, a)
  | word :: rest =>
    let s := poll_cancel env k s in
    if shouldCancel_ s then (s, a)
    else stub_loop env callback rest (S k) (emit (ev_callback (word +:+ " ")) s) (callback (word +:+ " ") a)
  end.

Definition stubResponse (prompt : string) : string :=
  ("Hello! This is a test response from llama-kotlin-android. "
   +:+ "The library is working but llama.cpp is not compiled in. ")
  +:+ ("Your prompt was: " +:+ substring 0 50 prompt +:+ "...").

(** The second half of [generateStream]: the prompt batch, its
    decode, the token loop and the release of the batch. *)
Definition decode_prompt_and_generate {A} (env : Env) (callback : string -> A -> A)
    (cfg : LlamaConfig) (m : llama_model E) (promptTokens : list llama_token)
    (s : LlamaContextWrapper) (a : A) : outcome (LlamaContextWrapper * A) :=
  let s := emit (ev_batch_init (batchSize cfg) 0 1) s in
  do batch <- prompt_batch (batchSize cfg) promptTokens;
  do (ret, s) <- decode batch s;
  if negb (ret =? 0) then
    Ok (set_isGenerating_ false (emit ev_batch_free (setError "Failed to process prompt" s)), a)
  else
    let n_cur := n_tokens batch in
    do (s, a) <- generation_loop env callback m (Z.to_nat (maxTokens cfg)) batch n_cur 0 s a;
    let s := emit ev_batch_free s in
    Ok (set_isGenerating_ false s, a).

Definition generateStream {A} (env : Env) (prompt : string) (callback : string -> A -> A)
    (config : option LlamaConfig) (s : LlamaContextWrapper) (a : A)
    : outcome (LlamaContextWrapper * A) :=
  let s := clearError s in
  if negb (isModelLoaded s) then Ok (setError "Model not loaded" s, a)
  else
    let cfg := match config with Some c => c | None => currentConfig_ s end in
    let s := set_isGenerating_ true s in
    let s := set_shouldCancel_ false s in
    if LLAMA_AVAILABLE then
      let s := match config with
               | Some c => setupSampler (time_now env) c s
               | None => s
               end in
      match model_ s with
      | None => Undefined null_handle
      | Some m =>
        let '(promptTokens, calls) := tokenize m prompt true in
        let s := add_events calls s in
        match promptTokens with
        | [] => Ok (set_isGenerating_ false (setError "Failed to tokenize prompt" s), a)
        | _ :: _ =>
          do n_ctx <- get_n_ctx s;
          if n_ctx - 4 <? Z.of_nat (length promptTokens) then
            Ok (set_isGenerating_ false (setError "Prompt too long for context size" s), a)
          else decode_prompt_and_generate env callback cfg m promptTokens s a
        end
      end
    else
      let '(s, a) := stub_loop env callback (words (stubResponse prompt)) 0 s a in
      Ok (set_isGenerating_ false s, a).

Definition generate (env : Env) (prompt : string) (config : option LlamaConfig)
    (s : LlamaContextWrapper) : outcome (string * LlamaContextWrapper) :=
  do (s, result) <- generateStream env prompt (fun token result => result +:+ token) config s "";
  Ok (result, s).

End Wrapper.

Arguments ev_backend_init {E}.
Arguments ev_backend_free {E}.
Arguments ev_model_load_from_file {E} path p r.
Arguments ev_model_free {E} m.
Arguments ev_init_from_model {E} m p r.
Arguments ev_free {E} c.
Arguments ev_sampler_chain_init {E}.
Arguments ev_sampler_chain_add {E} st.
Arguments ev_sampler_free {E} smp.
Arguments ev_tokenize {E} text n_tokens_max ret.
Arguments ev_token_to_piece {E} tok ret.
Arguments ev_batch_init {E} n_tokens_alloc embd n_seq_max.
Arguments ev_batch_free {E}.
Arguments ev_decode {E} b ret.
Arguments ev_sampler_sample {E} tok.
Arguments ev_callback {E} piece.
Arguments ev_isGenerating {E} b.
Arguments model_ {E} _.
Arguments context_ {E} _.
Arguments sampler_ {E} _.
Arguments currentConfig_ {E} _.
Arguments isGenerating_ {E} _.
Arguments shouldCancel_ {E} _.
Arguments lastError_ {E} _.
Arguments events {E} _.
Arguments set_model_ {E} v s.
Arguments set_context_ {E} v s.
Arguments set_sampler_ {E} v s.
Arguments set_currentConfig_ {E} v s.
Arguments set_shouldCancel_ {E} v s.
Arguments set_lastError_ {E} v s.
Arguments set_isGenerating_ {E} v s.
Arguments emit {E} ev s.
Arguments add_events {E} evs s.
Arguments setError {E} error s.
Arguments clearError {E} s.
Arguments getLastError {E} s.
Arguments unloadModel LLAMA_AVAILABLE {E} s.
Arguments isModelLoaded LLAMA_AVAILABLE {E} s.
Arguments chain_add {E} st s.
Arguments setupSampler {E} now config s.
Arguments loadModel LLAMA_AVAILABLE {E} env modelPath config s.
Arguments LlamaContextWrapper_delete LLAMA_AVAILABLE {E} s.
Arguments cancelGeneration {E} s.
Arguments isGenerating {E} s.
Arguments call_tokenize {E} vocab text tokens addBos.
Arguments tokenize {E} model_ text addBos.
Arguments detokenize_loop {E} vocab tokens result calls.
Arguments detokenize {E} model_ tokens.
Arguments decode {E} batch s.
Arguments sampler_sample {E} s.
Arguments get_n_ctx {E} s.
Arguments poll_cancel {E} env k s.
Arguments Break {E A} s a.
Arguments Continue {E A} batch s a.
Arguments generation_step {E A} callback m batch n_cur s a.
Arguments generation_loop {E A} env callback m remaining batch n_cur n_generated s a.
Arguments stub_loop {E A} env callback ws k s a.
Arguments decode_prompt_and_generate {E A} env callback cfg m promptTokens s a.
Arguments generateStream LLAMA_AVAILABLE {E A} env prompt callback config s a.
Arguments generate LLAMA_AVAILABLE {E} env prompt config s.
Arguments words : simpl never.
Arguments stubResponse : simpl never.

(** ** A small engine, for concrete runs

    Models are named by their path; a context is its window size and
    the tokens decoded so far; the tokenizer yields one token per
    character, after a leading marker (token 1) if the caller asks for
    it and the vocabulary has one (that of ["plain.gguf"] has none);
    token 2 ends generation; the sampler is a counter seeded by the
    distribution stage, and a draw depends on the counter and on the
    number of tokens in the context. *)

Definition toy_tokens (has_marker : bool) (text : string) (addBos : bool) : list llama_token :=
  (if addBos && has_marker then [1] else []) ++
  map (fun c => Z.of_nat (nat_of_ascii c)) (list_ascii_of_string text).

Definition toy_tokenize (has_marker : bool) (text : string) (buf : list llama_token)
    (addBos _ : bool) : Z * list llama_token :=
  let toks := toy_tokens has_marker text addBos in
  if Nat.leb (length toks) (length buf)
  then (Z.of_nat (length toks), toks ++ drop (length toks) buf)
  else (- Z.of_nat (length toks), buf).

Definition toy_token_to_piece (_ : bool) (tok : llama_token) (len _ : Z) (_ : bool) : Z * string :=
  if (0 <=? tok) && (tok <? 256) && (1 <=? len)
  then (1, String (ascii_of_nat (Z.to_nat tok)) EmptyString)
  else (-1, "").

Definition toy_decode (c : Z * list llama_token) (b : llama_batch) : Z * (Z * list llama_token) :=
  let added := take (Z.to_nat (n_tokens b)) (token b) in
  if Z.of_nat (length (snd c) + length added) <=? fst c
  then (0, (fst c, snd c ++ added))
  else (1, c).

Definition toy_chain_add (smp : Z) (st : sampler_stage) : Z :=
  match st with
  | llama_sampler_init_dist seed => seed
  | _ => smp
  end.

Definition toy_sample (smp : Z) (c : Z * list llama_token) (_ : Z) : llama_token * Z :=
  (97 + (smp + Z.of_nat (length (snd c))) mod 26, smp + 7).

Definition toy : Engine :=
  {| llama_model := string;
     llama_context := Z * list llama_token;
     llama_vocab := bool;
     llama_sampler := Z;
     llama_model_load_from_file := fun path _ => if String.eqb path "" then None else Some path;
     llama_init_from_model := fun _ p => if n_ctx p <=? 4096 then Some (n_ctx p, []) else None;
     llama_model_get_vocab := fun m => negb (String.eqb m "plain.gguf");
     llama_n_ctx := fst;
     llama_tokenize := toy_tokenize;
     llama_token_to_piece := toy_token_to_piece;
     llama_vocab_is_eog := fun _ tok => tok =? 2;
     llama_decode := toy_decode;
     llama_sampler_chain_init := 0;
     llama_sampler_chain_add := toy_chain_add;
     llama_sampler_sample := toy_sample |}.

Definition toy_config : LlamaConfig :=
  {| contextSize := 64; batchSize := 32; threads := 4; threadsBatch := 4;
     gpuLayers := 0; useMmap := true; useMlock := false; maxTokens := 5;
     temperature := float_one; topK := 40; topP := float_one;
     repeatPenalty := float_one; seed := 42 |}.

(** [toy_config] with another context window and batch size. *)
Definition toy_config_sized (window batch : Z) : LlamaConfig :=
  {| contextSize := window; batchSize := batch; threads := 4; threadsBatch := 4;
     gpuLayers := 0; useMmap := true; useMlock := false; maxTokens := 5;
     temperature := float_one; topK := 40; topP := float_one;
     repeatPenalty := float_one; seed := 42 |}.

Definition toy_env : Env := {| time_now := 1700000000; cancel_requested := fun _ => false |}.

(** Another thread asks for cancellation before the third evaluation
    of the loop condition. *)
Definition toy_env_cancel : Env :=
  {| time_now := 1700000000; cancel_requested := fun k => Nat.leb 2 k |}.

Definition toy_env_later : Env := {| time_now := 1700003600; cancel_requested := fun _ => false |}.

(** A fresh session of the build with the backend, and of the stub
    build. *)
Definition toy_new : LlamaContextWrapper toy := LlamaContextWrapper_new true toy toy_config.

Definition toy_new_stub : LlamaContextWrapper toy := LlamaContextWrapper_new false toy toy_config.

(** Sessions after a successful [loadModel]: the default one, one with
    a window of 8 tokens, and one on the vocabulary without a leading
    marker with a window of 2 tokens. *)
Definition toy_loaded : LlamaContextWrapper toy :=
  snd (loadModel true toy_env "model.gguf" toy_config toy_new).

Definition toy_loaded_small : LlamaContextWrapper toy :=
  snd (loadModel true toy_env "model.gguf" (toy_config_sized 8 32) toy_new).

(** [toy_loaded] with a sampler chain that earlier draws advanced and
    an old error. *)
Definition toy_loaded_used : LlamaContextWrapper toy :=
  set_sampler_ (E := toy) (Some 1000) (set_lastError_ "Failed to decode token" toy_loaded).

(** ** Vocabulary of the properties *)

Section Vocabulary.

Context {E : Engine}.

(** The strings handed to the callback, in order. *)
Definition callback_pieces (evs : list (event E)) : list string :=
  omap (fun ev => match ev with ev_callback piece => Some piece | _ => None end) evs.

(** The writes of [isGenerating_], in order. *)
Definition generating_writes (evs : list (event E)) : list bool :=
  omap (fun ev => match ev with ev_isGenerating b => Some b | _ => None end) evs.

(** Engine objects created and not yet freed, by kind. *)
Definition delta_model (ev : event E) : Z :=
  match ev with
  | ev_model_load_from_file _ _ (Some _) => 1
  | ev_model_free _ => -1
  | _ => 0
  end.

Definition delta_context (ev : event E) : Z :=
  match ev with
  | ev_init_from_model _ _ (Some _) => 1
  | ev_free _ => -1
  | _ => 0
  end.

Definition delta_sampler (ev : event E) : Z :=
  match ev with
  | ev_sampler_chain_init => 1
  | ev_sampler_free _ => -1
  | _ => 0
  end.

Definition live (delta : event E -> Z) (evs : list (event E)) : Z :=
  foldr (fun ev n => delta ev + n) 0 evs.

Definition held {T} (h : option T) : Z :=
  match h with Some _ => 1 | None => 0 end.

(** No orphaned handle: every live engine object is one the session
    holds. *)
Definition no_orphans (s : LlamaContextWrapper E) : bool :=
  (live delta_model (events s) =? held (model_ s)) &&
  (live delta_context (events s) =? held (context_ s)) &&
  (live delta_sampler (events s) =? held (sampler_ s)).

(** The session is Unloaded (no handle) or Loaded (model, context and
    sampler chain). *)
Definition handles_paired (s : LlamaContextWrapper E) : bool :=
  match model_ s, context_ s, sampler_ s with
  | None, None, None => true
  | Some _, Some _, Some _ => true
  | _, _, _ => false
  end.

Definition unloaded (s : LlamaContextWrapper E) : bool :=
  match model_ s, context_ s, sampler_ s with
  | None, None, None => true
  | _, _, _ => false
  end.

(** The invariant of the session object: the constructor establishes
    it and every operation keeps it.  The stub build never creates a
    handle. *)
Definition wf (LLAMA_AVAILABLE : bool) (s : LlamaContextWrapper E) : bool :=
  handles_paired s && no_orphans s && (LLAMA_AVAILABLE || unloaded s).

(** The frees that tear a session down, in the order sampler chain,
    context, model. *)
Definition teardown (s : LlamaContextWrapper E) : list (event E) :=
  match sampler_ s with Some smp => [ev_sampler_free smp] | None => [] end ++
  match context_ s with Some c => [ev_free c] | None => [] end ++
  match model_ s with Some m => [ev_model_free m] | None => [] end.

(** The position of a stage kind in the documented order. *)
Definition stage_rank (st : sampler_stage) : nat :=
  match st with
  | llama_sampler_init_penalties _ _ _ _ => 0
  | llama_sampler_init_top_k _ => 1
  | llama_sampler_init_top_p _ _ => 2
  | llama_sampler_init_temp _ => 3
  | llama_sampler_init_dist _ => 4
  end%nat.

(** The callback that collects the pieces it is given. *)
Definition collect (piece : string) (pieces : list string) : list string :=
  pieces ++ [piece].

(** The caller's state after the callback has received [pieces], in
    order, starting from [a]. *)
Definition feed {A} (callback : string -> A -> A) (pieces : list string) (a : A) : A :=
  fold_left (fun a piece => callback piece a) pieces a.

(** The pieces joined in order. *)
Definition concatenation (pieces : list string) : string :=
  foldr String.append "" pieces.

(** Two sessions hold the same engine objects in the same state and
    the same cancellation flag; they may differ in configuration,
    error slot, [isGenerating_] and history. *)
Definition same_engine_state (s1 s2 : LlamaContextWrapper E) : Prop :=
  model_ s1 = model_ s2 /\ context_ s1 = context_ s2
  /\ sampler_ s1 = sampler_ s2 /\ shouldCancel_ s1 = shouldCancel_ s2.

(** What a generation call hands to its caller. *)
Definition stream_output {A} (o : outcome (LlamaContextWrapper E * A)) : outcome A :=
  match o with
  | Ok (_, a) => Ok a
  | Undefined f => Undefined f
  end.

Definition generate_output (o : outcome (string * LlamaContextWrapper E)) : outcome string :=
  match o with
  | Ok (result, _) => Ok result
  | Undefined f => Undefined f
  end.

(** Events that neither create nor free an engine object. *)
Definition quiet (evs : list (event E)) : Prop :=
  live delta_model evs = 0 /\ live delta_context evs = 0 /\ live delta_sampler evs = 0.

(** From [s] to [s']: the history grew by quiet events, and each
    handle is still present, or still absent. *)
Definition keeps_handles (s s' : LlamaContextWrapper E) : Prop :=
  (exists evs, events s' = events s ++ evs /\ quiet evs)
  /\ held (model_ s') = held (model_ s)
  /\ held (context_ s') = held (context_ s)
  /\ held (sampler_ s') = held (sampler_ s).

(** From [s] with [pieces] collected to [s'] with [pieces']: the
    pieces added are the callback events added to the history. *)
Definition records (s : LlamaContextWrapper E) (pieces : list string)
    (s' : LlamaContextWrapper E) (pieces' : list string) : Prop :=
  exists evs, events s' = events s ++ evs /\ pieces' = pieces ++ callback_pieces evs.

(** The error slot a generation call leaves. *)
Definition stream_error {A} (o : outcome (LlamaContextWrapper E * A)) : outcome string :=
  match o with
  | Ok (s, _) => Ok (lastError_ s)
  | Undefined f => Undefined f
  end.

(** The writes of [isGenerating_] in the history a generation call
    leaves. *)
Definition stream_writes {A} (o : outcome (LlamaContextWrapper E * A)) : outcome (list bool) :=
  match o with
  | Ok (s, _) => Ok (generating_writes (events s))
  | Undefined f => Undefined f
  end.

(** [generate] twice in a row on one session. *)
Definition generate_twice (LLAMA_AVAILABLE : bool) (env : Env) (prompt : string)
    (config : option LlamaConfig) (s : LlamaContextWrapper E) : outcome (string * string) :=
  do (first, s) <- generate LLAMA_AVAILABLE env prompt config s;
  do (second, _) <- generate LLAMA_AVAILABLE env prompt config s;
  Ok (first, second).

(** The error messages of [generateStream]. *)
Definition generation_errors : list string :=
  ["Model not loaded"; "Failed to tokenize prompt"; "Prompt too long for context size";
   "Failed to process prompt"; "Failed to decode token"].

(** Two runs of the loop body, or of a generation, end alike. *)
Definition agree_end {A} (r1 r2 : outcome (body_end E A)) : Prop :=
  match r1, r2 with
  | Ok (Break s1 a1), Ok (Break s2 a2) => same_engine_state s1 s2 /\ a1 = a2
  | Ok (Continue b1 s1 a1), Ok (Continue b2 s2 a2) =>
    b1 = b2 /\ same_engine_state s1 s2 /\ a1 = a2
  | Undefined f1, Undefined f2 => f1 = f2
  | _, _ => False
  end.

Definition agree_result {A} (r1 r2 : outcome (LlamaContextWrapper E * A)) : Prop :=
  match r1, r2 with
  | Ok (s1, a1), Ok (s2, a2) => same_engine_state s1 s2 /\ a1 = a2
  | Undefined f1, Undefined f2 => f1 = f2
  | _, _ => False
  end.

(** Every array of the batch has [cap] entries and every [seq_id] row
    has room for one sequence id. *)
Definition batch_shape (cap : nat) (batch : llama_batch) : Prop :=
  length (token batch) = cap /\ length (pos batch) = cap
  /\ length (n_seq_id batch) = cap /\ length (seq_id batch) = cap
  /\ length (logits batch) = cap
  /\ Forall (fun row => row <> []) (seq_id batch).

End Vocabulary.

Arguments agree_end {E A} r1 r2.
Arguments agree_result {E A} r1 r2.

Section Reachability.

Context {E : Engine}.

(** The sessions a program can build: from the constructor, by the
    public operations. *)
Inductive reachable (LLAMA_AVAILABLE : bool) : LlamaContextWrapper E -> Prop :=
| reachable_new defaults :
    reachable LLAMA_AVAILABLE (LlamaContextWrapper_new LLAMA_AVAILABLE E defaults)
| reachable_loadModel env path config s :
    reachable LLAMA_AVAILABLE s ->
    reachable LLAMA_AVAILABLE (loadModel LLAMA_AVAILABLE env path config s).2
| reachable_unloadModel s :
    reachable LLAMA_AVAILABLE s ->
    reachable LLAMA_AVAILABLE (unloadModel LLAMA_AVAILABLE s)
| reachable_generateStream (A : Type) env prompt (cb : string -> A -> A) config s a s' a' :
    reachable LLAMA_AVAILABLE s ->
    generateStream LLAMA_AVAILABLE env prompt cb config s a = Ok (s', a') ->
    reachable LLAMA_AVAILABLE s'
| reachable_cancelGeneration s :
    reachable LLAMA_AVAILABLE s ->
    reachable LLAMA_AVAILABLE (cancelGeneration s).

End Reachability.

(** ** Vocabulary of the further properties *)

Section FurtherVocabulary.

Context {E : Engine}.

(** The pieces of the stub's canned response for a prompt. *)
Definition canned_pieces (prompt : string) : list string :=
  map (fun word => word +:+ " ") (words (stubResponse prompt)).

(** No character of the string is white space. *)
Fixpoint no_space (text : string) : bool :=
  match text with
  | EmptyString => true
  | String c rest => negb (isspace c) && no_space rest
  end.

(** No byte of the string is NUL. *)
Fixpoint no_nul (text : string) : bool :=
  match text with
  | EmptyString => true
  | String c rest => negb (Ascii.eqb c Ascii.zero) && no_nul rest
  end.

(** At every point of the history at most one object of the kind is
    live, and never fewer than none. *)
Definition never_two (delta : event E -> Z) (evs : list (event E)) : Prop :=
  forall k : nat, 0 <= live delta (take k evs) <= 1.

(** At no point of the history are two models, two contexts or two
    sampler chains live. *)
Definition one_at_a_time (evs : list (event E)) : Prop :=
  never_two delta_model evs /\ never_two delta_context evs /\ never_two delta_sampler evs.

(** Batches allocated and not yet released. *)
Definition delta_batch (ev : event E) : Z :=
  match ev with
  | ev_batch_init _ _ _ => 1
  | ev_batch_free => -1
  | _ => 0
  end.

(** Initialisations of the backend not yet undone. *)
Definition delta_backend (ev : event E) : Z :=
  match ev with
  | ev_backend_init => 1
  | ev_backend_free => -1
  | _ => 0
  end.

(** Events that leave the backend as it is. *)
Definition keeps_backend (ev : event E) : bool := delta_backend ev =? 0.

(** The events that start or end the life of a model, a context or
    the backend. *)
Definition lifecycle_event (ev : event E) : bool :=
  match ev with
  | ev_backend_init | ev_backend_free
  | ev_model_load_from_file _ _ _ | ev_model_free _
  | ev_init_from_model _ _ _ | ev_free _ => true
  | _ => false
  end.

(** The engine calls and callbacks of the token loop. *)
Definition loop_event (ev : event E) : bool :=
  match ev with
  | ev_sampler_sample _ | ev_token_to_piece _ _ | ev_callback _ | ev_decode _ _ => true
  | _ => false
  end.

(** A stage added to the sampler chain. *)
Definition stage_event (ev : event E) : bool :=
  match ev with
  | ev_sampler_chain_add _ => true
  | _ => false
  end.

(** What a generation does once the sampler chain is in place. *)
Definition call_event (ev : event E) : bool :=
  match ev with
  | ev_tokenize _ _ _ | ev_batch_init _ _ _ | ev_batch_free | ev_isGenerating _ => true
  | _ => loop_event ev
  end.

(** From [s] to [s'] the history grew by events of the kind [P]. *)
Definition grows_by (P : event E -> bool) (s s' : LlamaContextWrapper E) : Prop :=
  exists evs, events s' = events s ++ evs /\ forallb P evs = true.

(** The positions handed to [llama_decode], in order. *)
Definition decoded_positions (evs : list (event E)) : list Z :=
  flat_map (fun ev => match ev with
                      | ev_decode b _ => take (Z.to_nat (n_tokens b)) (pos b)
                      | _ => []
                      end) evs.

(** The tokens handed to [llama_decode], in order. *)
Definition decoded_tokens (evs : list (event E)) : list llama_token :=
  flat_map (fun ev => match ev with
                      | ev_decode b _ => take (Z.to_nat (n_tokens b)) (token b)
                      | _ => []
                      end) evs.

(** The tokens the engine was asked to render, in order. *)
Definition piece_tokens (evs : list (event E)) : list llama_token :=
  omap (fun ev => match ev with ev_token_to_piece tok _ => Some tok | _ => None end) evs.

(** From [s] to [s'] the pieces given to the callback join to the
    text of the tokens rendered. *)
Definition streams_text (m : llama_model E) (s s' : LlamaContextWrapper E) : Prop :=
  exists evs calls,
    events s' = events s ++ evs
    /\ detokenize m (piece_tokens evs) = Ok (concatenation (callback_pieces evs), calls).

(** The prompt fails one of the two checks [generateStream] makes
    before it builds the batch: its tokenization is empty, or has more
    than [n_ctx - 4] tokens. *)
Definition rejects_prompt (c : llama_context E) (promptTokens : list llama_token) : bool :=
  match promptTokens with
  | [] => true
  | _ :: _ => to_int32 (llama_n_ctx E c) - 4 <? Z.of_nat (length promptTokens)
  end.

(** From [s] to [s'] the tokens decoded are the tokens rendered. *)
Definition feeds_back (s s' : LlamaContextWrapper E) : Prop :=
  exists evs, events s' = events s ++ evs /\ decoded_tokens evs = piece_tokens evs.

(** The engine never reports a piece longer than the 255 bytes it is
    offered. *)
Definition pieces_fit : Prop :=
  forall vocab tok, (llama_token_to_piece E vocab tok 255 0 true).1 <= 255.

(** The positions [first], [first + 1], ... of [n] consecutive tokens. *)
Definition positions (first : Z) (n : nat) : list Z :=
  map (fun i => first + Z.of_nat i) (seq 0 n).

(** The first sequence id of each row. *)
Definition first_seq_ids (rows : list (list Z)) : list (option Z) :=
  map (fun row => row !! 0%nat) rows.


(** The effective configuration of a generation call. *)
Definition effective_config (config : option LlamaConfig) (s : LlamaContextWrapper E)
    : LlamaConfig :=
  match config with Some c => c | None => currentConfig_ s end.

End FurtherVocabulary.

Arguments pieces_fit E : clear implicits.

(** ** Properties *)

Section Properties.

Context {E : Engine}.

Implicit Types (s : LlamaContextWrapper E) (evs : list (event E)).

Lemma live_app delta evs1 evs2 :
  live delta (evs1 ++ evs2) = live delta evs1 + live delta evs2.
Proof.
  unfold live. induction evs1 as [|ev evs1 IH]; simpl; [reflexivity|].
  rewrite IH. lia.
Qed.

Lemma live_snoc delta evs ev :
  live delta (evs ++ [ev]) = live delta evs + delta ev.
Proof. rewrite live_app. unfold live at 2. simpl. lia. Qed.

Lemma callback_pieces_app evs1 evs2 :
  callback_pieces (evs1 ++ evs2) = callback_pieces evs1 ++ callback_pieces evs2.
Proof. apply omap_app. Qed.

(** *** Teardown *)

Lemma wf_iff (LLAMA_AVAILABLE : bool) s :
  wf LLAMA_AVAILABLE s = true <->
  handles_paired s = true
  /\ live delta_model (events s) = held (model_ s)
  /\ live delta_context (events s) = held (context_ s)
  /\ live delta_sampler (events s) = held (sampler_ s)
  /\ (LLAMA_AVAILABLE = false -> unloaded s = true).
Proof.
  unfold wf, no_orphans.
  rewrite !andb_true_iff, orb_true_iff, !Z.eqb_eq.
  destruct LLAMA_AVAILABLE; intuition congruence.
Qed.

Lemma unloadModel_teardown (LLAMA_AVAILABLE : bool) s :
  wf LLAMA_AVAILABLE s = true ->
  events (unloadModel LLAMA_AVAILABLE s) = events s ++ teardown s
  /\ unloaded (unloadModel LLAMA_AVAILABLE s) = true
  /\ wf LLAMA_AVAILABLE (unloadModel LLAMA_AVAILABLE s) = true.
Proof.
  destruct s as [m c smp cfg g sc err evs].
  unfold wf, handles_paired, no_orphans, unloaded, unloadModel, teardown.
  destruct LLAMA_AVAILABLE, m, c, smp; simpl; intros Hwf;
    rewrite ?andb_false_r, ?andb_true_r in Hwf; try discriminate;
    rewrite ?app_nil_r, ?andb_true_r; repeat split; try reflexivity; try exact Hwf.
  - rewrite <- !app_assoc. reflexivity.
  - apply andb_prop in Hwf as [Hwf Hs]. apply andb_prop in Hwf as [Hm Hc].
    apply Z.eqb_eq in Hm, Hc, Hs.
    rewrite !live_snoc, Hm, Hc, Hs. reflexivity.
Qed.

Lemma unloadModel_unloaded (LLAMA_AVAILABLE : bool) s :
  unloaded s = true -> unloadModel LLAMA_AVAILABLE s = s.
Proof.
  destruct s as [[m|] [c|] [smp|] cfg g sc err evs]; unfold unloaded; simpl;
    try discriminate.
  intros _. unfold unloadModel. destruct LLAMA_AVAILABLE; reflexivity.
Qed.


(** *** Frame facts *)

Ltac break_if :=
  match goal with
  | |- context [if ?b then _ else _] => destruct b eqn:?
  end.

(* case analysis on an innermost scrutinee of the goal *)
Ltac break_match :=
  match goal with
  | |- context [match ?x with _ => _ end] =>
    lazymatch x with
    | context [match _ with _ => _ end] => fail
    | _ => destruct x eqn:?
    end
  end.

(* case analysis on the first computation of a sequence *)
Ltac step_bind :=
  match goal with
  | |- context [bind ?o _] =>
    let H := fresh "Hbind" in destruct o eqn:H; cbn [bind]
  end.

Lemma decode_Some batch s c :
  context_ s = Some c ->
  decode batch s =
  Ok ((llama_decode E c batch).1,
      set_context_ (Some (llama_decode E c batch).2)
        (emit (ev_decode batch (llama_decode E c batch).1) s)).
Proof. unfold decode. intros ->. reflexivity. Qed.

Lemma get_n_ctx_Some s c :
  context_ s = Some c -> get_n_ctx s = Ok (to_int32 (llama_n_ctx E c)).
Proof. unfold get_n_ctx. intros ->. reflexivity. Qed.

Lemma chain_add_frame st s :
  model_ (chain_add st s) = model_ s /\ context_ (chain_add st s) = context_ s
  /\ lastError_ (chain_add st s) = lastError_ s
  /\ shouldCancel_ (chain_add st s) = shouldCancel_ s
  /\ isGenerating_ (chain_add st s) = isGenerating_ s
  /\ currentConfig_ (chain_add st s) = currentConfig_ s.
Proof. unfold chain_add. destruct (sampler_ s); simpl; repeat split. Qed.

Lemma setupSampler_frame now config s :
  model_ (setupSampler now config s) = model_ s
  /\ context_ (setupSampler now config s) = context_ s
  /\ lastError_ (setupSampler now config s) = lastError_ s
  /\ shouldCancel_ (setupSampler now config s) = shouldCancel_ s
  /\ isGenerating_ (setupSampler now config s) = isGenerating_ s
  /\ currentConfig_ (setupSampler now config s) = currentConfig_ s.
Proof.
  unfold setupSampler.
  repeat match goal with
  | |- context [chain_add ?st ?x] =>
    let H := fresh in
    pose proof (chain_add_frame st x) as H; destruct H as (-> & -> & -> & -> & -> & ->)
  | |- context [if ?b then _ else _] => destruct b
  end; destruct (sampler_ s); simpl; repeat split.
Qed.

(** The error slot after the token loop: untouched, or the decode
    error. *)
Lemma generation_step_lastError {A} (cb : string -> A -> A) m batch n_cur s a r :
  generation_step cb m batch n_cur s a = Ok r ->
  match r with
  | Break s' _ => lastError_ s' = lastError_ s \/ lastError_ s' = "Failed to decode token"
  | Continue _ s' _ => lastError_ s' = lastError_ s
  end.
Proof.
  intros H. destruct r; revert H;
    unfold generation_step, sampler_sample, decode, bind;
    repeat (break_match; simpl; try discriminate);
    intros [= <- <-]; simpl; auto.
Qed.

Lemma generation_loop_lastError {A} env (cb : string -> A -> A) m remaining :
  forall batch n_cur k s a s' a',
  generation_loop env cb m remaining batch n_cur k s a = Ok (s', a') ->
  lastError_ s' = lastError_ s \/ lastError_ s' = "Failed to decode token".
Proof.
  induction remaining as [|remaining IH]; intros batch n_cur k s a s' a'; simpl.
  - intros [= <- <-]. auto.
  - assert (Hp : lastError_ (poll_cancel env k s) = lastError_ s)
      by (unfold poll_cancel; destruct (cancel_requested env k); reflexivity).
    destruct (shouldCancel_ (poll_cancel env k s)).
    + intros [= <- <-]. auto.
    + unfold bind at 1.
      destruct (generation_step cb m batch n_cur (poll_cancel env k s) a) as [r|] eqn:Hstep;
        [|discriminate].
      apply generation_step_lastError in Hstep.
      destruct r as [s1 a1|batch1 s1 a1].
      * intros [= <- <-]. rewrite <- Hp. exact Hstep.
      * intros Hloop. apply IH in Hloop. rewrite Hstep, Hp in Hloop. exact Hloop.
Qed.

Lemma stub_loop_lastError {A} env (cb : string -> A -> A) ws :
  forall k s a, lastError_ (stub_loop env cb ws k s a).1 = lastError_ s.
Proof.
  induction ws as [|w ws IH]; intros k s a; simpl; [reflexivity|].
  assert (Hp : lastError_ (poll_cancel env k s) = lastError_ s)
    by (unfold poll_cancel; destruct (cancel_requested env k); reflexivity).
  destruct (shouldCancel_ (poll_cancel env k s)); simpl; [exact Hp|].
  rewrite IH. exact Hp.
Qed.

Lemma generateStream_lastError {A} LLAMA_AVAILABLE env prompt (cb : string -> A -> A)
    config s a s' a' :
  generateStream LLAMA_AVAILABLE env prompt cb config s a = Ok (s', a') ->
  lastError_ s' = "" \/ In (lastError_ s') generation_errors.
Proof.
  unfold generateStream.
  destruct (isModelLoaded LLAMA_AVAILABLE (clearError s)); cbn [negb].
  2:{ intros [= <- <-]. right. simpl. auto. }
  destruct LLAMA_AVAILABLE.
  - set (s1 := match config with Some c => _ | None => _ end).
    assert (H1 : lastError_ s1 = "").
    { subst s1. destruct config as [c|]; [|reflexivity].
      destruct (setupSampler_frame (time_now env) c
                  (set_shouldCancel_ false (set_isGenerating_ true (clearError s))))
        as (_ & _ & -> & _). reflexivity. }
    destruct (model_ s1) as [m|]; [|discriminate].
    destruct (tokenize m prompt true) as [toks calls].
    destruct toks as [|tok toks].
    { intros [= <- <-]. right. simpl. auto. }
    cbn [bind]. destruct (context_ s1) as [c|] eqn:Hc;
      [|unfold get_n_ctx; simpl; rewrite Hc; discriminate].
    rewrite (get_n_ctx_Some _ c) by exact Hc. cbn [bind].
    break_if.
    { intros [= <- <-]. right. simpl. auto. }
    unfold decode_prompt_and_generate.
    step_bind; [|discriminate].
    rewrite (decode_Some _ _ c) by exact Hc. cbn [bind].
    break_if.
    { intros [= <- <-]. right. simpl. auto 6. }
    match goal with
    | |- context [generation_loop ?e ?f ?mm ?r ?b ?n ?k ?st ?aa] =>
      destruct (generation_loop e f mm r b n k st aa) as [[s2 a2]|] eqn:Hloop
    end; [|discriminate].
    cbn [bind].
    intros [= <- <-]. simpl.
    apply generation_loop_lastError in Hloop. simpl in Hloop. rewrite H1 in Hloop.
    destruct Hloop as [-> | ->]; [left; reflexivity | right; simpl; auto 6].
  - match goal with
    | |- context [stub_loop ?e ?f ?ws ?k ?st ?aa] =>
      pose proof (stub_loop_lastError e f ws k st aa) as Hstub;
      destruct (stub_loop e f ws k st aa) as [s2 a2]
    end.
    intros [= <- <-]. left. exact Hstub.
Qed.

(** *** The error slot *)

(** C10, as the code has it: [loadModel] and [generateStream] (and so
    [generate]) clear the error slot at their start, so their result
    does not depend on an earlier error; a failing [loadModel] leaves a
    message and a successful one leaves the slot empty;
    [generateStream] leaves the slot empty or holding one of its five
    messages; [unloadModel], [cancelGeneration] and the destructor do
    not touch the slot. *)
Theorem error_slot_discipline {A} (LLAMA_AVAILABLE : bool) env path prompt config override
    (cb : string -> A -> A) (a : A) (e : string) s :
  loadModel LLAMA_AVAILABLE env path config (set_lastError_ e s)
    = loadModel LLAMA_AVAILABLE env path config s
  /\ (if (loadModel LLAMA_AVAILABLE env path config s).1
      then lastError_ (loadModel LLAMA_AVAILABLE env path config s).2 = ""
      else lastError_ (loadModel LLAMA_AVAILABLE env path config s).2 <> "")
  /\ generateStream LLAMA_AVAILABLE env prompt cb override (set_lastError_ e s) a
       = generateStream LLAMA_AVAILABLE env prompt cb override s a
  /\ generate LLAMA_AVAILABLE env prompt override (set_lastError_ e s)
       = generate LLAMA_AVAILABLE env prompt override s
  /\ match generateStream LLAMA_AVAILABLE env prompt cb override s a with
     | Ok (s', _) => lastError_ s' = "" \/ In (lastError_ s') generation_errors
     | Undefined _ => True
     end
  /\ lastError_ (unloadModel LLAMA_AVAILABLE s) = lastError_ s
  /\ lastError_ (cancelGeneration s) = lastError_ s
  /\ lastError_ (LlamaContextWrapper_delete LLAMA_AVAILABLE s) = lastError_ s.
Proof.
  assert (Hunload : forall s0, lastError_ (unloadModel LLAMA_AVAILABLE s0) = lastError_ s0).
  { intros s0. unfold unloadModel.
    destruct LLAMA_AVAILABLE; [|reflexivity].
    destruct s0 as [[m|] [c|] [smp|] ? ? ? ? ?]; reflexivity. }
  repeat split.
  - unfold loadModel. destruct LLAMA_AVAILABLE; [|reflexivity].
    set (s1 := match model_ (clearError s) with Some _ => _ | None => _ end).
    assert (H1 : lastError_ s1 = "").
    { subst s1. destruct (model_ (clearError s)); [rewrite Hunload|]; reflexivity. }
    destruct (llama_model_load_from_file E path _) as [m|]; simpl.
    + destruct (llama_init_from_model E m _) as [c|]; simpl.
      * destruct (setupSampler_frame (time_now env) config
          (set_context_ (Some c) (emit (ev_init_from_model m
             {| n_ctx := to_uint32 (contextSize config);
                n_batch := to_uint32 (batchSize config);
                n_threads := threads config;
                n_threads_batch := threadsBatch config |} (Some c))
             (set_model_ (Some m) (emit (ev_model_load_from_file path
                {| n_gpu_layers := gpuLayers config; use_mmap := useMmap config;
                   use_mlock := useMlock config |} (Some m)) s1)))))
          as (_ & _ & -> & _). simpl. exact H1.
      * discriminate.
    + discriminate.
  - destruct (generateStream LLAMA_AVAILABLE env prompt cb override s a) as [[s' a']|] eqn:H;
      [|exact I].
    eapply generateStream_lastError; eassumption.
  - apply Hunload.
  - unfold LlamaContextWrapper_delete.
    destruct LLAMA_AVAILABLE; simpl; apply Hunload.
Qed.

(** *** The entry guard *)

(** C2, for the build with the llama.cpp backend: on a session that
    holds no model or no context (as before any successful
    [loadModel]), [generateStream] and [generate] fail with
    ["Model not loaded"], the callback is not invoked, [isGenerating_]
    is not written, and nothing but the error slot changes. *)
Theorem generate_not_loaded {A} env prompt (cb : string -> A -> A) config s (a : A) :
  model_ s = None \/ context_ s = None ->
  generateStream true env prompt cb config s a = Ok (set_lastError_ "Model not loaded" s, a)
  /\ generate true env prompt config s = Ok ("", set_lastError_ "Model not loaded" s)
  /\ lastError_ (set_lastError_ "Model not loaded" s) = "Model not loaded"
  /\ events (set_lastError_ "Model not loaded" s) = events s
  /\ isGenerating_ (set_lastError_ "Model not loaded" s) = isGenerating_ s.
Proof.
  intros Hnot.
  assert (Hguard : isModelLoaded true (clearError s) = false).
  { unfold isModelLoaded. simpl. destruct Hnot as [-> | ->]; [reflexivity|].
    destruct (model_ s); reflexivity. }
  assert (Hstream : forall B (f : string -> B -> B) (b : B),
    generateStream true env prompt f config s b = Ok (set_lastError_ "Model not loaded" s, b)).
  { intros B f b. unfold generateStream. rewrite Hguard. reflexivity. }
  repeat split.
  - apply Hstream.
  - unfold generate. rewrite Hstream. reflexivity.
Qed.


(** *** The sampler chain *)

Lemma to_uint32_small z : 0 <= z < 2 ^ 32 -> to_uint32 z = z.
Proof. intros H. unfold to_uint32. apply Z.mod_small. exact H. Qed.

(** C6: [setupSampler] frees the old chain if there is one, starts a
    new chain and appends, in this order: the repetition penalty over
    the last 64 tokens with zero frequency and presence penalties iff
    [repeatPenalty != 1.0]; top-K iff [topK > 0]; top-P iff
    [topP < 1.0]; the temperature iff [temperature > 0.0]; and always,
    last, the distribution stage, seeded with the configured seed when
    it is non-negative and with the wall clock otherwise. *)
Theorem setupSampler_chain now config s :
  exists front : list sampler_stage,
    let dist_seed := if 0 <=? seed config then to_uint32 (seed config) else to_uint32 now in
    let stages := front ++ [llama_sampler_init_dist dist_seed] in
    events (setupSampler now config s)
      = events s
        ++ match sampler_ s with Some old => [ev_sampler_free old] | None => [] end
        ++ ev_sampler_chain_init :: map ev_sampler_chain_add stages
    /\ sampler_ (setupSampler now config s)
       = Some (fold_left (llama_sampler_chain_add E) stages (llama_sampler_chain_init E))
    /\ StronglySorted (fun a b => (stage_rank a < stage_rank b)%nat) stages
    /\ (forall n r f p, In (llama_sampler_init_penalties n r f p) stages <->
          float_ne (repeatPenalty config) float_one = true
          /\ n = 64 /\ r = repeatPenalty config /\ f = float_zero /\ p = float_zero)
    /\ (forall k, In (llama_sampler_init_top_k k) stages <->
          0 < topK config /\ k = topK config)
    /\ (forall p min_keep, In (llama_sampler_init_top_p p min_keep) stages <->
          float_lt (topP config) float_one = true /\ p = topP config /\ min_keep = 1)
    /\ (forall t, In (llama_sampler_init_temp t) stages <->
          float_gt (temperature config) float_zero = true /\ t = temperature config)
    /\ (if (0 <=? seed config) && (seed config <? 2 ^ 32)
        then dist_seed = seed config else True).
Proof.
  exists ((if float_ne (repeatPenalty config) float_one
           then [llama_sampler_init_penalties 64 (repeatPenalty config) float_zero float_zero]
           else [])
          ++ (if 0 <? topK config then [llama_sampler_init_top_k (topK config)] else [])
          ++ (if float_lt (topP config) float_one
              then [llama_sampler_init_top_p (topP config) 1] else [])
          ++ (if float_gt (temperature config) float_zero
              then [llama_sampler_init_temp (temperature config)] else [])).
  cbv zeta. unfold setupSampler.
  destruct (float_ne (repeatPenalty config) float_one) eqn:Hrp;
  destruct (0 <? topK config) eqn:Hk;
  destruct (float_lt (topP config) float_one) eqn:Hp;
  destruct (float_gt (temperature config) float_zero) eqn:Ht;
  try apply Z.ltb_lt in Hk; try apply Z.ltb_ge in Hk;
  (split; [destruct (sampler_ s); simpl; rewrite <- ?app_assoc; reflexivity|]);
  (split; [destruct (sampler_ s); reflexivity|]);
  (split; [simpl; repeat constructor; simpl; lia|]);
  (split; [intros n r f p; simpl; intuition (try congruence; try discriminate)|]);
  (split; [intros k; simpl; intuition (try congruence; try discriminate; try lia)|]);
  (split; [intros p mk; simpl; intuition (try congruence; try discriminate)|]);
  (split; [intros t; simpl; intuition (try congruence; try discriminate)|]);
  destruct (0 <=? seed config) eqn:Hs; simpl; try exact I;
  destruct (seed config <? 2 ^ 32) eqn:Hs'; try exact I;
  apply to_uint32_small; apply Z.leb_le in Hs; apply Z.ltb_lt in Hs'; lia.
Qed.

(** *** The tokenizer adapter *)

(** C9: [tokenize] first calls the engine with a buffer of
    [text.length() / 4 + 16] entries; on a negative result it resizes
    the buffer once, to the capacity the engine reported, and calls
    again; if that call fails too the result is empty; otherwise the
    result has exactly as many ids as the engine reported, taken from
    the front of the buffer. *)
Theorem tokenize_resize_once m text addBos :
  let vocab := llama_model_get_vocab E m in
  let estimate := Z.of_nat (String.length text) / 4 + 16 in
  let buf1 := replicate (Z.to_nat estimate) 0 in
  let r1 := llama_tokenize E vocab text buf1 addBos true in
  let buf2 := resize (Z.to_nat (- r1.1)) 0 (resize (length buf1) 0 r1.2) in
  let r2 := llama_tokenize E vocab text buf2 addBos true in
  Z.of_nat (length buf1) = estimate
  /\ if r1.1 <? 0 then
       Z.of_nat (length buf2) = - r1.1
       /\ (tokenize m text addBos).2
          = [ev_tokenize text estimate r1.1; ev_tokenize text (- r1.1) r2.1]
       /\ if r2.1 <? 0 then (tokenize m text addBos).1 = []
          else Z.of_nat (length (tokenize m text addBos).1) = r2.1
               /\ (tokenize m text addBos).1
                  = resize (Z.to_nat r2.1) 0 (resize (length buf2) 0 r2.2)
     else
       (tokenize m text addBos).2 = [ev_tokenize text estimate r1.1]
       /\ Z.of_nat (length (tokenize m text addBos).1) = r1.1
       /\ (tokenize m text addBos).1
          = resize (Z.to_nat r1.1) 0 (resize (length buf1) 0 r1.2).
Proof.
  intros vocab estimate buf1 r1 buf2 r2.
  assert (Hest : 0 <= estimate).
  { subst estimate. pose proof (Z.div_pos (Z.of_nat (String.length text)) 4). lia. }
  assert (Hlen1 : Z.of_nat (length buf1) = estimate).
  { subst buf1. rewrite length_replicate. lia. }
  split; [exact Hlen1|].
  unfold tokenize, call_tokenize. fold vocab estimate buf1. fold r1.
  rewrite Hlen1.
  destruct (r1.1 <? 0) eqn:Hneg.
  - apply Z.ltb_lt in Hneg.
    assert (Hlen2 : Z.of_nat (length buf2) = - r1.1).
    { subst buf2. rewrite length_resize. lia. }
    fold buf2. fold r2. split; [exact Hlen2|]. rewrite Hlen2.
    split; [destruct (r2.1 <? 0); reflexivity|].
    destruct (r2.1 <? 0) eqn:Hneg2; [reflexivity|].
    apply Z.ltb_ge in Hneg2. cbn [fst snd].
    split; [rewrite length_resize; lia | reflexivity].
  - rewrite Hneg. apply Z.ltb_ge in Hneg. cbn [fst snd].
    split; [reflexivity|]. split; [rewrite length_resize; lia | reflexivity].
Qed.

(** *** The callback only observes *)

Lemma string_app_nil_r (x : string) : x +:+ "" = x.
Proof.
  induction x as [|c x IH]; [reflexivity|].
  change (String c (x +:+ "") = String c x). f_equal. exact IH.
Qed.

Lemma string_app_assoc (x y z : string) : (x +:+ y) +:+ z = x +:+ (y +:+ z).
Proof.
  induction x as [|c x IH]; [reflexivity|].
  change (String c ((x +:+ y) +:+ z) = String c (x +:+ (y +:+ z))). f_equal. exact IH.
Qed.

Lemma feed_snoc {A} (cb : string -> A -> A) pieces piece a :
  feed cb (pieces ++ [piece]) a = cb piece (feed cb pieces a).
Proof. unfold feed. rewrite fold_left_app. reflexivity. Qed.

Lemma feed_append pieces : forall acc,
  feed (fun token result => result +:+ token) pieces acc = acc +:+ concatenation pieces.
Proof.
  induction pieces as [|p pieces IH]; intros acc; simpl.
  - rewrite string_app_nil_r. reflexivity.
  - unfold feed in *. simpl. rewrite IH, string_app_assoc. reflexivity.
Qed.

(** Running with a callback [cb] from [feed cb pieces a] is running
    with the collecting callback from [pieces], then feeding [cb]. *)
Lemma generation_step_collect {A} (cb : string -> A -> A) m batch n_cur s a pieces :
  generation_step cb m batch n_cur s (feed cb pieces a) =
  match generation_step collect m batch n_cur s pieces with
  | Ok (Break s' l) => Ok (Break s' (feed cb l a))
  | Ok (Continue b s' l) => Ok (Continue b s' (feed cb l a))
  | Undefined f => Undefined f
  end.
Proof.
  unfold generation_step.
  destruct (sampler_sample s) as [[tok s1]|]; cbn [bind]; [|reflexivity].
  destruct (llama_vocab_is_eog E (llama_model_get_vocab E m) tok); [reflexivity|].
  destruct (detokenize m [tok]) as [[piece calls]|]; cbn [bind]; [|reflexivity].
  destruct (next_token_batch batch tok n_cur) as [b|]; cbn [bind]; [|reflexivity].
  destruct (decode b _) as [[ret s2]|]; cbn [bind]; [|reflexivity].
  destruct (negb (ret =? 0)); unfold collect; rewrite feed_snoc; reflexivity.
Qed.

Lemma generation_loop_collect {A} env (cb : string -> A -> A) m remaining :
  forall batch n_cur k s a pieces,
  generation_loop env cb m remaining batch n_cur k s (feed cb pieces a) =
  match generation_loop env collect m remaining batch n_cur k s pieces with
  | Ok (s', l) => Ok (s', feed cb l a)
  | Undefined f => Undefined f
  end.
Proof.
  induction remaining as [|remaining IH]; intros batch n_cur k s a pieces; simpl;
    [reflexivity|].
  destruct (shouldCancel_ (poll_cancel env k s)); [reflexivity|].
  rewrite generation_step_collect.
  destruct (generation_step collect m batch n_cur (poll_cancel env k s) pieces)
    as [[s1 l|b s1 l]|]; cbn [bind]; try reflexivity.
  apply IH.
Qed.

Lemma stub_loop_collect {A} env (cb : string -> A -> A) ws :
  forall k s a pieces,
  stub_loop env cb ws k s (feed cb pieces a) =
  ((stub_loop env collect ws k s pieces).1, feed cb (stub_loop env collect ws k s pieces).2 a).
Proof.
  induction ws as [|w ws IH]; intros k s a pieces; simpl; [reflexivity|].
  destruct (shouldCancel_ (poll_cancel env k s)); [reflexivity|].
  unfold collect at 1 3. rewrite <- feed_snoc. apply IH.
Qed.

Lemma generateStream_collect {A} LLAMA_AVAILABLE env prompt (cb : string -> A -> A)
    config s a :
  generateStream LLAMA_AVAILABLE env prompt cb config s a =
  match generateStream LLAMA_AVAILABLE env prompt collect config s [] with
  | Ok (s', pieces) => Ok (s', feed cb pieces a)
  | Undefined f => Undefined f
  end.
Proof.
  unfold generateStream.
  destruct (negb (isModelLoaded LLAMA_AVAILABLE (clearError s))); [reflexivity|].
  destruct LLAMA_AVAILABLE.
  - match goal with |- context [model_ ?x] => destruct (model_ x) as [m|] end;
      [|reflexivity].
    destruct (tokenize m prompt true) as [[|tok toks] calls]; [reflexivity|].
    match goal with |- context [get_n_ctx ?x] => destruct (get_n_ctx x) as [n|] end;
      cbn [bind]; [|reflexivity].
    break_if; [reflexivity|].
    unfold decode_prompt_and_generate.
    match goal with |- context [prompt_batch ?x ?y] =>
      destruct (prompt_batch x y) as [b|] end; cbn [bind]; [|reflexivity].
    match goal with |- context [decode ?x ?y] =>
      destruct (decode x y) as [[ret s1]|] end; cbn [bind]; [|reflexivity].
    destruct (negb (ret =? 0)); [reflexivity|].
    change a with (feed cb [] a) at 1.
    rewrite generation_loop_collect.
    match goal with |- context [generation_loop ?e collect ?mm ?r ?bb ?n ?k ?st ?l] =>
      destruct (generation_loop e collect mm r bb n k st l) as [[s2 l2]|] end;
      reflexivity.
  - change a with (feed cb [] a) at 1.
    rewrite stub_loop_collect.
    match goal with |- context [stub_loop ?e collect ?ws ?k ?st ?l] =>
      destruct (stub_loop e collect ws k st l) as [s2 l2] end.
    reflexivity.
Qed.

(** C5: from the same session state and in the same environment, the
    string [generate] returns is the concatenation, in order, of the
    strings [generateStream] passes to its callback, and both leave
    the same session. *)
Theorem generate_is_concatenation (LLAMA_AVAILABLE : bool) env prompt config s :
  generate LLAMA_AVAILABLE env prompt config s =
  match generateStream LLAMA_AVAILABLE env prompt collect config s [] with
  | Ok (s', pieces) => Ok (concatenation pieces, s')
  | Undefined f => Undefined f
  end.
Proof.
  unfold generate. rewrite generateStream_collect.
  destruct (generateStream LLAMA_AVAILABLE env prompt collect config s []) as [[s' l]|];
    cbn [bind]; [|reflexivity].
  rewrite feed_append. reflexivity.
Qed.

(** *** Reproducible sampling *)

Lemma agree_result_output {A} (r1 r2 : outcome (LlamaContextWrapper E * A)) :
  agree_result r1 r2 -> stream_output r1 = stream_output r2.
Proof.
  destruct r1 as [[s1 a1]|f1], r2 as [[s2 a2]|f2]; simpl; try tauto.
  - intros [_ ->]. reflexivity.
  - intros ->. reflexivity.
Qed.

Lemma generation_step_agree {A} (cb : string -> A -> A) m batch n_cur s1 s2 a :
  same_engine_state s1 s2 ->
  agree_end (generation_step cb m batch n_cur s1 a) (generation_step cb m batch n_cur s2 a).
Proof.
  destruct s1 as [m1 c1 smp1 cfg1 g1 sc1 err1 evs1], s2 as [m2 c2 smp2 cfg2 g2 sc2 err2 evs2].
  unfold same_engine_state. simpl. intros (-> & -> & -> & ->).
  unfold generation_step, sampler_sample, decode. simpl.
  destruct smp2 as [smp|]; [|reflexivity].
  destruct c2 as [c|]; [|reflexivity]. cbn [bind].
  destruct (llama_vocab_is_eog E _ _).
  { simpl. unfold same_engine_state. simpl. auto. }
  destruct (detokenize m _) as [[piece calls]|]; cbn [bind]; [|reflexivity].
  destruct (next_token_batch batch _ n_cur) as [b|]; cbn [bind]; [|reflexivity].
  simpl. destruct (negb (_ =? 0)); simpl; unfold same_engine_state; simpl;
    repeat split; reflexivity.
Qed.

Lemma poll_cancel_agree env1 env2 k s1 s2 :
  cancel_requested env1 k = cancel_requested env2 k ->
  same_engine_state s1 s2 ->
  same_engine_state (poll_cancel env1 k s1) (poll_cancel env2 k s2).
Proof.
  unfold poll_cancel. intros <- (Hm & Hc & Hs & Hf).
  destruct (cancel_requested env1 k); unfold same_engine_state; simpl; auto.
Qed.

Lemma generation_loop_agree {A} env1 env2 (cb : string -> A -> A) m remaining :
  (forall k, cancel_requested env1 k = cancel_requested env2 k) ->
  forall batch n_cur k s1 s2 a,
  same_engine_state s1 s2 ->
  agree_result (generation_loop env1 cb m remaining batch n_cur k s1 a)
               (generation_loop env2 cb m remaining batch n_cur k s2 a).
Proof.
  intros Hcancel.
  induction remaining as [|remaining IH]; intros batch n_cur k s1 s2 a Hsame; simpl.
  - auto.
  - pose proof (poll_cancel_agree env1 env2 k s1 s2 (Hcancel k) Hsame) as Hp.
    pose proof Hp as (_ & _ & _ & Hf). rewrite Hf.
    destruct (shouldCancel_ (poll_cancel env2 k s2)).
    + simpl. split; [exact Hp | reflexivity].
    + pose proof (generation_step_agree cb m batch n_cur _ _ a Hp) as Hstep.
      destruct (generation_step cb m batch n_cur (poll_cancel env1 k s1) a)
        as [[t1 a1|b1 t1 a1]|f1],
        (generation_step cb m batch n_cur (poll_cancel env2 k s2) a)
        as [[t2 a2|b2 t2 a2]|f2]; simpl in Hstep; try contradiction; cbn [bind].
      * exact Hstep.
      * destruct Hstep as (-> & Ht & ->). apply IH. exact Ht.
      * exact Hstep.
Qed.

Lemma stub_loop_agree {A} env1 env2 (cb : string -> A -> A) ws :
  (forall k, cancel_requested env1 k = cancel_requested env2 k) ->
  forall k s1 s2 a,
  shouldCancel_ s1 = shouldCancel_ s2 ->
  (stub_loop env1 cb ws k s1 a).2 = (stub_loop env2 cb ws k s2 a).2.
Proof.
  intros Hcancel.
  induction ws as [|w ws IH]; intros k s1 s2 a Hsame; simpl; [reflexivity|].
  assert (Hf : shouldCancel_ (poll_cancel env1 k s1) = shouldCancel_ (poll_cancel env2 k s2)).
  { unfold poll_cancel. rewrite (Hcancel k).
    destruct (cancel_requested env2 k); simpl; [reflexivity | exact Hsame]. }
  rewrite Hf.
  destruct (shouldCancel_ (poll_cancel env2 k s2)) eqn:Hf2; simpl; [reflexivity|].
  apply IH. simpl. congruence.
Qed.

(** With a non-negative seed the chain [setupSampler] builds depends
    on the configuration alone. *)
Lemma setupSampler_seeded now1 now2 config s1 s2 :
  0 <= seed config ->
  sampler_ (setupSampler now1 config s1) = sampler_ (setupSampler now2 config s2).
Proof.
  intros Hseed. apply Z.leb_le in Hseed.
  unfold setupSampler. rewrite Hseed.
  destruct (float_ne (repeatPenalty config) float_one), (0 <? topK config),
    (float_lt (topP config) float_one), (float_gt (temperature config) float_zero),
    (sampler_ s1), (sampler_ s2); reflexivity.
Qed.

Lemma generateStream_agree {A} LLAMA_AVAILABLE env1 env2 prompt (cb : string -> A -> A)
    config s1 s2 a :
  0 <= seed config ->
  (forall k, cancel_requested env1 k = cancel_requested env2 k) ->
  model_ s1 = model_ s2 ->
  context_ s1 = context_ s2 ->
  stream_output (generateStream LLAMA_AVAILABLE env1 prompt cb (Some config) s1 a)
  = stream_output (generateStream LLAMA_AVAILABLE env2 prompt cb (Some config) s2 a).
Proof.
  intros Hseed Hcancel Hm Hc.
  unfold generateStream.
  assert (Hloaded : isModelLoaded LLAMA_AVAILABLE (clearError s1)
                    = isModelLoaded LLAMA_AVAILABLE (clearError s2)).
  { unfold isModelLoaded. simpl. rewrite Hm, Hc. reflexivity. }
  rewrite Hloaded.
  destruct (isModelLoaded LLAMA_AVAILABLE (clearError s2)); cbn [negb]; [|reflexivity].
  destruct LLAMA_AVAILABLE.
  - (* after the chain is rebuilt the two sessions agree *)
    set (t1 := setupSampler (time_now env1) config _).
    set (t2 := setupSampler (time_now env2) config _).
    assert (Hsame : same_engine_state t1 t2).
    { subst t1 t2. unfold same_engine_state.
      repeat match goal with
      | |- context [setupSampler ?n ?c ?x] =>
        let H := fresh in
        pose proof (setupSampler_frame n c x) as H;
        destruct H as (-> & -> & _ & -> & _)
      end.
      simpl. repeat split; try assumption.
      apply setupSampler_seeded. exact Hseed. }
    clearbody t1 t2. apply agree_result_output.
    destruct t1 as [m1 c1 smp1 cfg1 g1 sc1 err1 evs1],
             t2 as [m2 c2 smp2 cfg2 g2 sc2 err2 evs2].
    unfold same_engine_state in Hsame. simpl in Hsame.
    destruct Hsame as (-> & -> & -> & ->). simpl.
    destruct m2 as [m|]; [|reflexivity].
    destruct (tokenize m prompt true) as [[|tok toks] calls].
    { simpl. unfold same_engine_state. simpl. auto. }
    unfold get_n_ctx. simpl. destruct c2 as [c|]; cbn [bind]; [|reflexivity].
    break_if.
    { simpl. unfold same_engine_state. simpl. auto. }
    unfold decode_prompt_and_generate.
    destruct (prompt_batch (batchSize config) (tok :: toks)) as [b|]; cbn [bind];
      [|reflexivity].
    unfold decode. simpl. destruct (negb (_ =? 0)).
    { simpl. unfold same_engine_state. simpl. auto. }
    match goal with
    | |- agree_result (bind (generation_loop ?e1 ?f ?mm ?r ?bb ?n ?k ?st1 ?aa) _)
                      (bind (generation_loop ?e2 _ _ _ _ _ _ ?st2 _) _) =>
      pose proof (generation_loop_agree e1 e2 f mm r Hcancel bb n k st1 st2 aa) as Hloop;
      destruct (generation_loop e1 f mm r bb n k st1 aa) as [[u1 a1]|f1],
               (generation_loop e2 f mm r bb n k st2 aa) as [[u2 a2]|f2]
    end; cbn [bind];
      (lapply Hloop; [clear Hloop; intros Hloop
                     | unfold same_engine_state; simpl; auto]);
      simpl in Hloop; try contradiction.
    + destruct Hloop as ((? & ? & ? & ?) & ->). simpl.
      unfold same_engine_state. simpl. auto.
    + exact Hloop.
  - match goal with
    | |- context [stub_loop env1 cb ?ws ?k ?st1 a] =>
      match goal with
      | |- context [stub_loop env2 cb ws k ?st2 a] =>
        pose proof (stub_loop_agree env1 env2 cb ws Hcancel k st1 st2 a) as Hstub;
        destruct (stub_loop env1 cb ws k st1 a) as [u1 a1],
                 (stub_loop env2 cb ws k st2 a) as [u2 a2]
      end
    end.
    simpl in Hstub. rewrite Hstub; reflexivity.
Qed.

(** C1, as the code has it: when the call carries a configuration
    override with a non-negative seed, the sampler chain is rebuilt
    from that configuration alone, so two generations on the same
    prompt that start from the same model and the same engine context
    state, under the same cancellation requests, hand the same output
    to the caller, whatever sampler state earlier calls left behind
    and whatever the wall clock reads. *)
Theorem seeded_override_reproducible {A} (LLAMA_AVAILABLE : bool) env1 env2 prompt
    (cb : string -> A -> A) config s1 s2 a :
  0 <= seed config ->
  (forall k, cancel_requested env1 k = cancel_requested env2 k) ->
  model_ s1 = model_ s2 ->
  context_ s1 = context_ s2 ->
  stream_output (generateStream LLAMA_AVAILABLE env1 prompt cb (Some config) s1 a)
  = stream_output (generateStream LLAMA_AVAILABLE env2 prompt cb (Some config) s2 a)
  /\ generate_output (generate LLAMA_AVAILABLE env1 prompt (Some config) s1)
     = generate_output (generate LLAMA_AVAILABLE env2 prompt (Some config) s2).
Proof.
  intros Hseed Hcancel Hm Hc. split.
  - apply generateStream_agree; assumption.
  - unfold generate.
    pose proof (generateStream_agree LLAMA_AVAILABLE env1 env2 prompt
                  (fun token result => result +:+ token) config s1 s2 ""
                  Hseed Hcancel Hm Hc) as H.
    destruct (generateStream LLAMA_AVAILABLE env1 prompt _ (Some config) s1 "")
      as [[u1 r1]|f1],
      (generateStream LLAMA_AVAILABLE env2 prompt _ (Some config) s2 "")
      as [[u2 r2]|f2]; simpl in H; try discriminate; cbn [bind]; simpl; congruence.
Qed.

(** *** The prompt batch *)

Lemma llama_batch_init_shape n_tokens_alloc :
  batch_shape (Z.to_nat n_tokens_alloc) (llama_batch_init n_tokens_alloc 0 1).
Proof.
  unfold batch_shape, llama_batch_init. simpl.
  rewrite !length_replicate. repeat split.
  apply Forall_replicate. discriminate.
Qed.

Lemma store_in {T} (a : list T) i v :
  0 <= i < Z.of_nat (length a) -> store a i v = Ok (<[Z.to_nat i := v]> a).
Proof.
  intros [H0 H1]. unfold store.
  apply Z.leb_le in H0. apply Z.ltb_lt in H1. rewrite H0, H1. reflexivity.
Qed.

Lemma store_out {T} (a : list T) i v :
  ~ (0 <= i < Z.of_nat (length a)) -> store a i v = Undefined batch_out_of_bounds.
Proof.
  intros H. unfold store.
  destruct (0 <=? i) eqn:H0; [|reflexivity].
  destruct (i <? Z.of_nat (length a)) eqn:H1; [|reflexivity].
  apply Z.leb_le in H0. apply Z.ltb_lt in H1. lia.
Qed.

Lemma fill_entry_in cap batch i tok p lg :
  batch_shape cap batch -> 0 <= i < Z.of_nat cap ->
  exists batch', fill_entry batch i tok p lg = Ok batch'
    /\ batch_shape cap batch' /\ n_tokens batch' = n_tokens batch.
Proof.
  intros (Ht & Hp & Hn & Hs & Hl & Hrows) Hi.
  unfold fill_entry.
  rewrite !store_in by lia. cbn [bind].
  unfold store_row0.
  assert (H0 : (0 <=? i) = true) by (apply Z.leb_le; lia).
  assert (H1 : (i <? Z.of_nat (length (seq_id batch))) = true) by (apply Z.ltb_lt; lia).
  rewrite H0, H1. simpl.
  destruct (seq_id batch !! Z.to_nat i) as [row|] eqn:Hrow.
  2:{ apply lookup_ge_None in Hrow. lia. }
  assert (Hne : row <> []).
  { eapply Forall_lookup_1 in Hrows; eauto. }
  destruct row as [|x row]; [contradiction|].
  unfold store at 1. simpl. cbn [bind].
  eexists. split; [reflexivity|]. split; [|reflexivity].
  unfold batch_shape. simpl. rewrite !length_insert. repeat split; try assumption.
  apply Forall_insert; [assumption | discriminate].
Qed.

Lemma fill_entry_out cap batch i tok p lg :
  batch_shape cap batch -> ~ (0 <= i < Z.of_nat cap) ->
  fill_entry batch i tok p lg = Undefined batch_out_of_bounds.
Proof.
  intros (Ht & Hp & Hn & Hs & Hl & Hrows) Hi.
  unfold fill_entry. rewrite store_out by lia. reflexivity.
Qed.

Lemma add_prompt_tokens_in cap toks : forall i batch,
  batch_shape cap batch -> 0 <= n_tokens batch ->
  n_tokens batch + Z.of_nat (length toks) <= Z.of_nat cap ->
  exists batch', add_prompt_tokens toks i batch = Ok batch'
    /\ batch_shape cap batch'
    /\ n_tokens batch' = n_tokens batch + Z.of_nat (length toks).
Proof.
  induction toks as [|tok toks IH]; intros i batch Hshape Hn Hfit; simpl.
  - exists batch. split; [reflexivity|]. split; [assumption | lia].
  - simpl in Hfit.
    destruct (fill_entry_in cap batch (n_tokens batch) tok i false Hshape)
      as (b1 & -> & Hshape1 & Hn1); [lia|]. cbn [bind].
    destruct (IH (i + 1) (set_n_tokens (n_tokens b1 + 1) b1)) as (b2 & Hb2 & Hshape2 & Hn2).
    + exact Hshape1.
    + simpl. lia.
    + simpl. lia.
    + exists b2. split; [exact Hb2|]. split; [exact Hshape2|]. simpl in Hn2. lia.
Qed.

Lemma add_prompt_tokens_out cap toks : forall i batch,
  batch_shape cap batch -> 0 <= n_tokens batch <= Z.of_nat cap ->
  Z.of_nat cap < n_tokens batch + Z.of_nat (length toks) ->
  add_prompt_tokens toks i batch = Undefined batch_out_of_bounds.
Proof.
  induction toks as [|tok toks IH]; intros i batch Hshape Hn Hfit; simpl.
  - simpl in Hfit. lia.
  - simpl in Hfit.
    destruct (Z.lt_ge_cases (n_tokens batch) (Z.of_nat cap)) as [Hlt|Hge].
    + destruct (fill_entry_in cap batch (n_tokens batch) tok i false Hshape)
        as (b1 & -> & Hshape1 & Hn1); [lia|]. cbn [bind].
      apply IH; [exact Hshape1 | simpl; lia | simpl; lia].
    + rewrite (fill_entry_out cap) by (assumption || lia). reflexivity.
Qed.

Lemma prompt_batch_in capacity toks :
  toks <> [] -> Z.of_nat (length toks) <= capacity ->
  exists batch, prompt_batch capacity toks = Ok batch
    /\ batch_shape (Z.to_nat capacity) batch
    /\ n_tokens batch = Z.of_nat (length toks).
Proof.
  intros Hne Hfit. unfold prompt_batch.
  destruct (add_prompt_tokens_in (Z.to_nat capacity) toks 0
              (set_n_tokens 0 (llama_batch_init capacity 0 1)))
    as (b & -> & Hshape & Hn).
  - apply llama_batch_init_shape.
  - simpl. lia.
  - simpl. lia.
  - cbn [bind]. simpl in Hn.
    assert (Hpos : 0 < n_tokens b) by (destruct toks; [contradiction | simpl in Hn; lia]).
    apply Z.ltb_lt in Hpos as Hpos'. rewrite Hpos'.
    pose proof Hshape as (Ht & Hp & Hq & Hs & Hl & Hrows).
    rewrite store_in by lia. cbn [bind].
    eexists. split; [reflexivity|]. split; [|exact Hn].
    unfold batch_shape. simpl. rewrite length_insert. repeat split; assumption.
Qed.

Lemma prompt_batch_out capacity toks :
  toks <> [] -> capacity < Z.of_nat (length toks) ->
  prompt_batch capacity toks = Undefined batch_out_of_bounds.
Proof.
  intros Hne Hfit. unfold prompt_batch.
  rewrite (add_prompt_tokens_out (Z.to_nat capacity)); [reflexivity | | |].
  - apply llama_batch_init_shape.
  - simpl. lia.
  - simpl. destruct toks; [contradiction|]. simpl in *. lia.
Qed.

Lemma next_token_batch_in cap batch tok n_cur :
  batch_shape cap batch -> (0 < cap)%nat ->
  exists batch', next_token_batch batch tok n_cur = Ok batch' /\ batch_shape cap batch'.
Proof.
  intros Hshape Hcap. unfold next_token_batch.
  destruct (fill_entry_in cap (set_n_tokens 0 batch) 0 tok n_cur true)
    as (b & -> & Hb & _); [exact Hshape | lia |].
  cbn [bind]. eexists. split; [reflexivity | exact Hb].
Qed.

(** Once the prompt batch exists, the token loop never writes outside
    it. *)
Lemma generation_step_batch {A} (cb : string -> A -> A) m cap batch n_cur s a :
  batch_shape cap batch -> (0 < cap)%nat ->
  match generation_step cb m batch n_cur s a with
  | Ok (Continue batch' _ _) => batch_shape cap batch'
  | Ok (Break _ _) => True
  | Undefined f => f <> batch_out_of_bounds
  end.
Proof.
  intros Hshape Hcap. unfold generation_step, sampler_sample.
  destruct (sampler_ s) as [smp|]; [|discriminate].
  destruct (context_ s) as [c|] eqn:Hc; [|discriminate]. cbn [bind].
  destruct (llama_vocab_is_eog E _ _); [exact I|].
  unfold detokenize. simpl.
  destruct (_ <? 0); cbn [bind].
  - destruct (next_token_batch_in cap batch
                (llama_sampler_sample E smp c (-1)).1 n_cur Hshape Hcap) as (b & -> & Hb).
    cbn [bind]. rewrite (decode_Some _ _ c) by exact Hc. cbn [bind].
    destruct (negb _); [exact I | exact Hb].
  - destruct (256 <=? _); cbn [bind]; [discriminate|].
    destruct (next_token_batch_in cap batch
                (llama_sampler_sample E smp c (-1)).1 n_cur Hshape Hcap) as (b & -> & Hb).
    cbn [bind]. rewrite (decode_Some _ _ c) by exact Hc. cbn [bind].
    destruct (negb _); [exact I | exact Hb].
Qed.

Lemma generation_loop_batch {A} env (cb : string -> A -> A) m cap remaining :
  (0 < cap)%nat ->
  forall batch n_cur k s a,
  batch_shape cap batch ->
  generation_loop env cb m remaining batch n_cur k s a <> Undefined batch_out_of_bounds.
Proof.
  intros Hcap.
  induction remaining as [|remaining IH]; intros batch n_cur k s a Hshape; simpl;
    [discriminate|].
  destruct (shouldCancel_ (poll_cancel env k s)); [discriminate|].
  pose proof (generation_step_batch cb m cap batch n_cur (poll_cancel env k s) a
                Hshape Hcap) as Hstep.
  destruct (generation_step cb m batch n_cur (poll_cancel env k s) a)
    as [[s1 a1|b1 s1 a1]|f]; cbn [bind].
  - discriminate.
  - apply IH. exact Hstep.
  - congruence.
Qed.

Lemma decode_prompt_and_generate_bounds {A} env (cb : string -> A -> A) cfg m toks s a :
  toks <> [] ->
  decode_prompt_and_generate env cb cfg m toks s a = Undefined batch_out_of_bounds
  <-> batchSize cfg < Z.of_nat (length toks).
Proof.
  intros Hne. unfold decode_prompt_and_generate.
  destruct (Z.lt_ge_cases (batchSize cfg) (Z.of_nat (length toks))) as [Hout|Hin].
  - rewrite prompt_batch_out by assumption. cbn [bind]. tauto.
  - destruct (prompt_batch_in (batchSize cfg) toks Hne) as (b & -> & Hshape & Hn); [lia|].
    cbn [bind]. split; [|lia]. intros H. exfalso. revert H.
    unfold decode. simpl. destruct (context_ s) as [c|]; cbn [bind]; [|discriminate].
    destruct (negb _); [discriminate|].
    match goal with
    | |- context [generation_loop ?e ?f ?mm ?r ?bb ?n ?k ?st ?aa] =>
      pose proof (generation_loop_batch e f mm (Z.to_nat (batchSize cfg)) r) as Hloop;
      specialize (fun H => Hloop H bb n k st aa Hshape);
      destruct (generation_loop e f mm r bb n k st aa) as [[s2 a2]|f2]
    end; cbn [bind]; [discriminate|].
    intros [= ->]. apply Hloop; [|reflexivity].
    destruct toks; [contradiction|]. simpl in Hin. lia.
Qed.

(** The first half of [generateStream] on a session that holds a
    model and a context. *)
Lemma generateStream_loaded {A} env prompt (cb : string -> A -> A) config s a m c :
  model_ s = Some m -> context_ s = Some c ->
  let cfg := match config with Some c0 => c0 | None => currentConfig_ s end in
  let s0 := set_shouldCancel_ false (set_isGenerating_ true (clearError s)) in
  let s1 := match config with
            | Some c0 => setupSampler (time_now env) c0 s0
            | None => s0
            end in
  let t := add_events (tokenize m prompt true).2 s1 in
  generateStream true env prompt cb config s a =
  match (tokenize m prompt true).1 with
  | [] => Ok (set_isGenerating_ false (setError "Failed to tokenize prompt" t), a)
  | _ :: _ =>
    if to_int32 (llama_n_ctx E c) - 4 <? Z.of_nat (length (tokenize m prompt true).1)
    then Ok (set_isGenerating_ false (setError "Prompt too long for context size" t), a)
    else decode_prompt_and_generate env cb cfg m (tokenize m prompt true).1 t a
  end.
Proof.
  intros Hm Hc cfg s0 s1 t.
  unfold generateStream.
  assert (Hloaded : isModelLoaded true (clearError s) = true).
  { unfold isModelLoaded. simpl. rewrite Hm, Hc. reflexivity. }
  rewrite Hloaded. cbn [negb]. fold s0. fold s1.
  assert (Hs1 : model_ s1 = Some m /\ context_ s1 = Some c).
  { subst s1. destruct config as [c0|].
    - destruct (setupSampler_frame (time_now env) c0 s0) as (-> & -> & _).
      subst s0. simpl. auto.
    - subst s0. simpl. auto. }
  destruct Hs1 as [Hm1 Hc1]. rewrite Hm1.
  subst t. destruct (tokenize m prompt true) as [toks calls]. cbn [fst snd].
  destruct toks as [|tok toks]; [reflexivity|].
  rewrite (get_n_ctx_Some _ c) by exact Hc1. cbn [bind]. reflexivity.
Qed.

Lemma setupSampler_events now config s :
  exists evs : list (event E), events (setupSampler now config s) = events s ++ evs
    /\ callback_pieces evs = [] /\ generating_writes evs = [].
Proof.
  unfold setupSampler.
  destruct (float_ne (repeatPenalty config) float_one), (0 <? topK config),
    (float_lt (topP config) float_one), (float_gt (temperature config) float_zero),
    (sampler_ s); simpl; eexists;
    (split; [rewrite <- ?app_assoc; reflexivity | split; reflexivity]).
Qed.

Lemma tokenize_calls_quiet (m : llama_model E) text addBos :
  callback_pieces (tokenize m text addBos).2 = []
  /\ generating_writes (tokenize m text addBos).2 = [].
Proof.
  unfold tokenize, call_tokenize.
  repeat (break_match; simpl); split; reflexivity.
Qed.

(** C3: the prompt batch is allocated for [batchSize] entries and
    one entry is written per prompt token; the only check before that
    is the one against [n_ctx - 4], with [n_ctx] the window as line
    189 holds it in an [int].  So for a prompt that passed the checks,
    the batch writes stay in bounds exactly when the prompt has at
    most [batchSize] tokens, and [generateStream] writes past the
    batch exactly when it has more. *)
Theorem prompt_batch_bounds {A} env prompt (cb : string -> A -> A) config s a m c :
  model_ s = Some m ->
  context_ s = Some c ->
  (tokenize m prompt true).1 <> [] ->
  Z.of_nat (length (tokenize m prompt true).1) <= to_int32 (llama_n_ctx E c) - 4 ->
  let cfg := match config with Some c0 => c0 | None => currentConfig_ s end in
  let promptTokens := (tokenize m prompt true).1 in
  length (token (llama_batch_init (batchSize cfg) 0 1)) = Z.to_nat (batchSize cfg)
  /\ ((exists batch, prompt_batch (batchSize cfg) promptTokens = Ok batch)
      <-> Z.of_nat (length promptTokens) <= batchSize cfg)
  /\ (prompt_batch (batchSize cfg) promptTokens = Undefined batch_out_of_bounds
      <-> batchSize cfg < Z.of_nat (length promptTokens))
  /\ (generateStream true env prompt cb config s a = Undefined batch_out_of_bounds
      <-> batchSize cfg < Z.of_nat (length promptTokens)).
Proof.
  intros Hm Hc Hne Hctx cfg promptTokens.
  assert (Hcases : forall P : Prop,
    (Z.of_nat (length promptTokens) <= batchSize cfg -> P) ->
    (batchSize cfg < Z.of_nat (length promptTokens) -> P) -> P).
  { intros P H1 H2.
    destruct (Z.lt_ge_cases (batchSize cfg) (Z.of_nat (length promptTokens))); auto with zarith. }
  split; [simpl; apply length_replicate|].
  split; [|split].
  - apply Hcases; intros H.
    + destruct (prompt_batch_in (batchSize cfg) promptTokens Hne H) as (b & Hb & _).
      split; [intros _; exact H | intros _; exists b; exact Hb].
    + rewrite (prompt_batch_out (batchSize cfg) promptTokens Hne H).
      split; [intros [b Hb]; discriminate | lia].
  - apply Hcases; intros H.
    + destruct (prompt_batch_in (batchSize cfg) promptTokens Hne H) as (b & Hb & _).
      rewrite Hb. split; [discriminate | lia].
    + rewrite (prompt_batch_out (batchSize cfg) promptTokens Hne H). tauto.
  - rewrite (generateStream_loaded env prompt cb config s a m c Hm Hc).
    cbv zeta. fold promptTokens. fold cfg.
    destruct promptTokens as [|tok toks] eqn:Htoks; [contradiction|].
    assert (Hpass : (to_int32 (llama_n_ctx E c) - 4 <? Z.of_nat (length (tok :: toks)))
                    = false).
    { apply Z.ltb_ge. subst promptTokens. rewrite Htoks in Hctx. exact Hctx. }
    rewrite Hpass. apply decode_prompt_and_generate_bounds. discriminate.
Qed.

(** *** The capacity check *)

(** C7: on a session that holds a model and a context, a prompt
    whose tokenization has more than [n_ctx - 4] tokens fails with
    ["Prompt too long for context size"]; the callback is not invoked,
    [generate] returns the empty string, and [isGenerating_] is set
    and then cleared.  [n_ctx] is the window as line 189 holds it in
    an [int].  The tokenization is checked for emptiness first: the
    statement holds for every window of at least 4 tokens, and for a
    smaller one when the tokenization is not empty. *)
Theorem prompt_too_long {A} env prompt (cb : string -> A -> A) config s a m c :
  model_ s = Some m ->
  context_ s = Some c ->
  (4 <= to_int32 (llama_n_ctx E c) \/ (tokenize m prompt true).1 <> []) ->
  to_int32 (llama_n_ctx E c) - 4 < Z.of_nat (length (tokenize m prompt true).1) ->
  exists s' (evs : list (event E)),
    generateStream true env prompt cb config s a = Ok (s', a)
    /\ generate true env prompt config s = Ok ("", s')
    /\ lastError_ s' = "Prompt too long for context size"
    /\ isGenerating_ s' = false
    /\ events s' = events s ++ evs
    /\ callback_pieces evs = []
    /\ generating_writes evs = [true; false].
Proof.
  intros Hm Hc Hwin Hlong.
  assert (Hne : (tokenize m prompt true).1 <> []).
  { destruct Hwin as [Hwin|Hne]; [|exact Hne].
    intros Hnil. rewrite Hnil in Hlong. simpl in Hlong. lia. }
  assert (Hstream : forall B (f : string -> B -> B) (b : B),
    generateStream true env prompt f config s b =
    Ok (set_isGenerating_ false (setError "Prompt too long for context size"
          (add_events (tokenize m prompt true).2
             match config with
             | Some c0 => setupSampler (time_now env) c0
                            (set_shouldCancel_ false (set_isGenerating_ true (clearError s)))
             | None => set_shouldCancel_ false (set_isGenerating_ true (clearError s))
             end)), b)).
  { intros B f b.
    rewrite (generateStream_loaded env prompt f config s b m c Hm Hc). cbv zeta.
    destruct (tokenize m prompt true).1 as [|tok toks] eqn:Htoks; [contradiction|].
    apply Z.ltb_lt in Hlong. rewrite Hlong. reflexivity. }
  destruct (tokenize_calls_quiet m prompt true) as [Hq1 Hq2].
  eexists. 
  assert (Hev : exists evs : list (event E),
    events match config with
           | Some c0 => setupSampler (time_now env) c0
                          (set_shouldCancel_ false (set_isGenerating_ true (clearError s)))
           | None => set_shouldCancel_ false (set_isGenerating_ true (clearError s))
           end = events s ++ ev_isGenerating true :: evs
    /\ callback_pieces evs = [] /\ generating_writes evs = []).
  { destruct config as [c0|].
    - destruct (setupSampler_events (time_now env) c0
                  (set_shouldCancel_ false (set_isGenerating_ true (clearError s))))
        as (evs & Hevs & Hp & Hw).
      exists evs. rewrite Hevs. simpl. rewrite <- app_assoc. auto.
    - exists []. simpl. auto. }
  destruct Hev as (evs & Hevs & Hp & Hw).
  exists (ev_isGenerating true :: evs ++ (tokenize m prompt true).2 ++ [ev_isGenerating false]).
  split; [apply Hstream|].
  split; [unfold generate; rewrite Hstream; reflexivity|].
  split; [reflexivity|]. split; [reflexivity|].
  split.
  - cbn [events set_isGenerating_ setError set_lastError_ add_events].
    rewrite Hevs, <- !app_assoc. reflexivity.
  - unfold callback_pieces, generating_writes in *.
    simpl. rewrite !omap_app, Hp, Hw, Hq1, Hq2. simpl. auto.
Qed.

(** *** The invariant is kept *)

Lemma wf_new (LLAMA_AVAILABLE : bool) defaults :
  wf LLAMA_AVAILABLE (LlamaContextWrapper_new LLAMA_AVAILABLE E defaults) = true.
Proof. destruct LLAMA_AVAILABLE; reflexivity. Qed.

Lemma quiet_snoc evs ev :
  quiet evs -> delta_model ev = 0 -> delta_context ev = 0 -> delta_sampler ev = 0 ->
  quiet (evs ++ [ev]).
Proof.
  unfold quiet. intros (Hm & Hc & Hs) Em Ec Es. rewrite !live_snoc. lia.
Qed.

Lemma quiet_app evs1 evs2 : quiet evs1 -> quiet evs2 -> quiet (evs1 ++ evs2).
Proof.
  unfold quiet. intros (Hm & Hc & Hs) (Hm' & Hc' & Hs'). rewrite !live_app. lia.
Qed.

Lemma quiet_nil : quiet ([] : list (event E)).
Proof. unfold quiet. repeat split. Qed.

Lemma keeps_refl s : keeps_handles s s.
Proof.
  unfold keeps_handles. split; [|repeat split].
  exists []. split; [rewrite app_nil_r; reflexivity | apply quiet_nil].
Qed.

Lemma keeps_trans s1 s2 s3 :
  keeps_handles s1 s2 -> keeps_handles s2 s3 -> keeps_handles s1 s3.
Proof.
  intros ((evs1 & He1 & Hq1) & Hm1 & Hc1 & Hs1) ((evs2 & He2 & Hq2) & Hm2 & Hc2 & Hs2).
  unfold keeps_handles. split; [|repeat split; congruence].
  exists (evs1 ++ evs2). split; [rewrite He2, He1, app_assoc; reflexivity|].
  apply quiet_app; assumption.
Qed.

Lemma keeps_wf (LLAMA_AVAILABLE : bool) s s' :
  keeps_handles s s' -> wf LLAMA_AVAILABLE s = true -> wf LLAMA_AVAILABLE s' = true.
Proof.
  intros ((evs & He & Hm & Hc & Hs) & Em & Ec & Es) Hwf.
  apply wf_iff in Hwf as (Hp & Lm & Lc & Ls & Hstub).
  apply wf_iff. rewrite He, !live_app, Hm, Hc, Hs, Em, Ec, Es, Lm, Lc, Ls.
  unfold handles_paired, unloaded, held in *.
  destruct (model_ s), (context_ s), (sampler_ s), (model_ s'), (context_ s'), (sampler_ s');
    try discriminate; repeat split; auto; lia.
Qed.

(* a step that only appends one event, none of them a creation or a free *)
Ltac keeps_by_one_event ev :=
  unfold keeps_handles; simpl; split; [|repeat split];
  exists [ev]; split; [reflexivity|]; unfold quiet, live; simpl; repeat split.

Lemma keeps_set_lastError e s : keeps_handles s (set_lastError_ e s).
Proof.
  unfold keeps_handles. simpl. split; [|repeat split].
  exists []. split; [rewrite app_nil_r; reflexivity | apply quiet_nil].
Qed.

Lemma keeps_set_shouldCancel v s : keeps_handles s (set_shouldCancel_ v s).
Proof.
  unfold keeps_handles. simpl. split; [|repeat split].
  exists []. split; [rewrite app_nil_r; reflexivity | apply quiet_nil].
Qed.

Lemma keeps_set_isGenerating v s : keeps_handles s (set_isGenerating_ v s).
Proof. keeps_by_one_event (@ev_isGenerating E v). Qed.

Lemma keeps_poll_cancel env k s : keeps_handles s (poll_cancel env k s).
Proof.
  unfold poll_cancel. destruct (cancel_requested env k);
    [apply keeps_set_shouldCancel | apply keeps_refl].
Qed.

Lemma keeps_add_events evs s : quiet evs -> keeps_handles s (add_events evs s).
Proof.
  intros Hq. unfold keeps_handles. simpl. split; [|repeat split].
  exists evs. split; [reflexivity | exact Hq].
Qed.

Lemma quiet_tokenize (m : llama_model E) text addBos : quiet (tokenize m text addBos).2.
Proof.
  unfold tokenize, call_tokenize.
  repeat (break_match; simpl); unfold quiet, live; simpl; repeat split.
Qed.

Lemma quiet_detokenize_loop vocab tokens : forall result calls r calls',
  quiet calls ->
  detokenize_loop (E:=E) vocab tokens result calls = Ok (r, calls') -> quiet calls'.
Proof.
  induction tokens as [|tok tokens IH]; intros result calls r calls' Hq; simpl.
  - intros [= <- <-]. exact Hq.
  - assert (Hq' : quiet (calls ++ [ev_token_to_piece tok
                           (llama_token_to_piece E vocab tok 255 0 true).1]))
      by (apply quiet_snoc; [exact Hq | reflexivity..]).
    destruct (_ <? 0); [apply IH; exact Hq'|].
    destruct (256 <=? _); [discriminate | apply IH; exact Hq'].
Qed.

Lemma keeps_generation_step {A} (cb : string -> A -> A) m batch n_cur s a r :
  generation_step cb m batch n_cur s a = Ok r ->
  match r with
  | Break s' _ => keeps_handles s s'
  | Continue _ s' _ => keeps_handles s s'
  end.
Proof.
  unfold generation_step, sampler_sample.
  destruct (sampler_ s) as [smp|] eqn:Hs; [|discriminate].
  destruct (context_ s) as [c|] eqn:Hc; [|discriminate]. cbn [bind].
  set (s1 := set_sampler_ _ _).
  assert (K1 : keeps_handles s s1).
  { subst s1. unfold keeps_handles. simpl. rewrite Hs. split; [|repeat split].
    eexists [_]. split; [reflexivity|]. unfold quiet, live. simpl. repeat split. }
  destruct (llama_vocab_is_eog E _ _).
  { intros [= <-]. exact K1. }
  destruct (detokenize m _) as [[piece calls]|] eqn:Hd; cbn [bind]; [|discriminate].
  assert (Hq : quiet calls).
  { unfold detokenize in Hd. eapply quiet_detokenize_loop; [apply quiet_nil | exact Hd]. }
  destruct (next_token_batch batch _ n_cur) as [b|]; cbn [bind]; [|discriminate].
  set (s2 := emit (ev_callback piece) (add_events calls s1)).
  assert (K2 : keeps_handles s s2).
  { eapply keeps_trans; [exact K1|]. eapply keeps_trans; [apply keeps_add_events, Hq|].
    subst s2. keeps_by_one_event (@ev_callback E piece). }
  assert (Hc2 : context_ s2 = Some c) by (subst s2 s1; simpl; exact Hc).
  rewrite (decode_Some _ _ c) by exact Hc2. cbn [bind].
  set (s3 := set_context_ _ _).
  assert (K3 : keeps_handles s s3).
  { eapply keeps_trans; [exact K2|]. subst s3.
    unfold keeps_handles. simpl. rewrite Hc. split; [|repeat split].
    eexists [_]. split; [reflexivity|]. unfold quiet, live. simpl. repeat split. }
  destruct (negb _); intros [= <-]; [|exact K3].
  eapply keeps_trans; [exact K3 | apply keeps_set_lastError].
Qed.

Lemma keeps_generation_loop {A} env (cb : string -> A -> A) m remaining :
  forall batch n_cur k s a s' a',
  generation_loop env cb m remaining batch n_cur k s a = Ok (s', a') ->
  keeps_handles s s'.
Proof.
  induction remaining as [|remaining IH]; intros batch n_cur k s a s' a'; simpl.
  - intros [= <- <-]. apply keeps_refl.
  - pose proof (keeps_poll_cancel env k s) as Kp.
    destruct (shouldCancel_ (poll_cancel env k s)).
    + intros [= <- <-]. exact Kp.
    + destruct (generation_step cb m batch n_cur (poll_cancel env k s) a) as [r|] eqn:Hstep;
        cbn [bind]; [|discriminate].
      apply keeps_generation_step in Hstep.
      destruct r as [s1 a1|b1 s1 a1].
      * intros [= <- <-]. eapply keeps_trans; eassumption.
      * intros Hloop. apply IH in Hloop.
        eapply keeps_trans; [exact Kp|]. eapply keeps_trans; eassumption.
Qed.

Lemma keeps_stub_loop {A} env (cb : string -> A -> A) ws :
  forall k s a, keeps_handles s (stub_loop env cb ws k s a).1.
Proof.
  induction ws as [|w ws IH]; intros k s a; simpl; [apply keeps_refl|].
  pose proof (keeps_poll_cancel env k s) as Kp.
  destruct (shouldCancel_ (poll_cancel env k s)); [exact Kp|].
  eapply keeps_trans; [exact Kp|]. eapply keeps_trans; [|apply IH].
  keeps_by_one_event (@ev_callback E (w +:+ " ")).
Qed.

Lemma keeps_setupSampler now config s old :
  sampler_ s = Some old -> keeps_handles s (setupSampler now config s).
Proof.
  intros Hs. unfold keeps_handles.
  destruct (setupSampler_frame now config s) as (-> & -> & _).
  split; [|split; [reflexivity|split; [reflexivity|]]].
  - unfold setupSampler. rewrite Hs.
    destruct (float_ne (repeatPenalty config) float_one), (0 <? topK config),
      (float_lt (topP config) float_one), (float_gt (temperature config) float_zero);
      simpl; eexists;
      (split; [rewrite <- ?app_assoc; reflexivity | unfold quiet, live; simpl; repeat split]).
  - rewrite Hs. unfold setupSampler.
    destruct (float_ne (repeatPenalty config) float_one), (0 <? topK config),
      (float_lt (topP config) float_one), (float_gt (temperature config) float_zero);
      reflexivity.
Qed.

Lemma keeps_decode_prompt_and_generate {A} env (cb : string -> A -> A) cfg m toks s a s' a' :
  decode_prompt_and_generate env cb cfg m toks s a = Ok (s', a') ->
  keeps_handles s s'.
Proof.
  unfold decode_prompt_and_generate.
  set (s1 := emit (ev_batch_init (batchSize cfg) 0 1) s).
  assert (K1 : keeps_handles s s1)
    by (subst s1; keeps_by_one_event (@ev_batch_init E (batchSize cfg) 0 1)).
  destruct (prompt_batch (batchSize cfg) toks) as [b|]; cbn [bind]; [|discriminate].
  destruct (context_ s1) as [c|] eqn:Hc; [|unfold decode; rewrite Hc; discriminate].
  rewrite (decode_Some _ _ c) by exact Hc. cbn [bind].
  set (s2 := set_context_ _ _).
  assert (K2 : keeps_handles s s2).
  { eapply keeps_trans; [exact K1|]. subst s2.
    unfold keeps_handles. simpl. simpl in Hc. rewrite Hc. split; [|repeat split].
    eexists [_]. split; [reflexivity|]. unfold quiet, live. simpl. repeat split. }
  destruct (negb _).
  - intros [= <- <-]. eapply keeps_trans; [exact K2|].
    eapply keeps_trans; [apply (keeps_set_lastError "Failed to process prompt")|].
    eapply keeps_trans; [|apply keeps_set_isGenerating].
    keeps_by_one_event (@ev_batch_free E).
  - match goal with
    | |- context [generation_loop ?e ?f ?mm ?r ?bb ?n ?k ?st ?aa] =>
      destruct (generation_loop e f mm r bb n k st aa) as [[s3 a3]|] eqn:Hloop
    end; cbn [bind]; [|discriminate].
    apply keeps_generation_loop in Hloop.
    intros [= <- <-]. eapply keeps_trans; [exact K2|]. eapply keeps_trans; [exact Hloop|].
    eapply keeps_trans; [|apply keeps_set_isGenerating].
    keeps_by_one_event (@ev_batch_free E).
Qed.

Lemma keeps_generateStream {A} LLAMA_AVAILABLE env prompt (cb : string -> A -> A)
    config s a s' a' :
  handles_paired s = true ->
  generateStream LLAMA_AVAILABLE env prompt cb config s a = Ok (s', a') ->
  keeps_handles s s'.
Proof.
  intros Hpaired. unfold generateStream.
  assert (K0 : keeps_handles s (clearError s)) by apply keeps_set_lastError.
  destruct (isModelLoaded LLAMA_AVAILABLE (clearError s)) eqn:Hloaded; cbn [negb].
  2:{ intros [= <- <-]. eapply keeps_trans; [exact K0 | apply keeps_set_lastError]. }
  set (s0 := set_shouldCancel_ false (set_isGenerating_ true (clearError s))).
  assert (K1 : keeps_handles s s0).
  { eapply keeps_trans; [exact K0|]. eapply keeps_trans; [apply keeps_set_isGenerating|].
    apply keeps_set_shouldCancel. }
  destruct LLAMA_AVAILABLE.
  - set (s1 := match config with Some c0 => _ | None => _ end).
    assert (K2 : keeps_handles s s1).
    { subst s1. destruct config as [c0|]; [|exact K1].
      eapply keeps_trans; [exact K1|].
      unfold isModelLoaded, handles_paired in *. simpl in Hloaded.
      destruct (sampler_ s) as [old|] eqn:Hs.
      - eapply keeps_setupSampler. subst s0. simpl. exact Hs.
      - destruct (model_ s), (context_ s); discriminate. }
    destruct (model_ s1) as [m|]; [|discriminate].
    pose proof (quiet_tokenize m prompt true) as Hq.
    destruct (tokenize m prompt true) as [toks calls]. simpl in Hq.
    assert (K3 : keeps_handles s (add_events calls s1))
      by (eapply keeps_trans; [exact K2 | apply keeps_add_events, Hq]).
    destruct toks as [|tok toks].
    { intros [= <- <-]. eapply keeps_trans; [exact K3|].
      eapply keeps_trans; [apply keeps_set_lastError | apply keeps_set_isGenerating]. }
    destruct (get_n_ctx (add_events calls s1)) as [n|]; cbn [bind]; [|discriminate].
    break_if.
    { intros [= <- <-]. eapply keeps_trans; [exact K3|].
      eapply keeps_trans; [apply keeps_set_lastError | apply keeps_set_isGenerating]. }
    intros H. apply keeps_decode_prompt_and_generate in H.
    eapply keeps_trans; eassumption.
  - match goal with
    | |- context [stub_loop ?e ?f ?ws ?k ?st ?aa] =>
      pose proof (keeps_stub_loop e f ws k st aa) as Kstub;
      destruct (stub_loop e f ws k st aa) as [s2 a2]
    end.
    simpl in Kstub. intros [= <- <-].
    eapply keeps_trans; [exact K1|]. eapply keeps_trans; [exact Kstub|].
    apply keeps_set_isGenerating.
Qed.

Lemma generateStream_wf {A} LLAMA_AVAILABLE env prompt (cb : string -> A -> A)
    config s a s' a' :
  wf LLAMA_AVAILABLE s = true ->
  generateStream LLAMA_AVAILABLE env prompt cb config s a = Ok (s', a') ->
  wf LLAMA_AVAILABLE s' = true.
Proof.
  intros Hwf H. eapply keeps_wf; [|exact Hwf].
  eapply keeps_generateStream; [|exact H].
  apply wf_iff in Hwf. tauto.
Qed.

Lemma setupSampler_fresh now config s :
  sampler_ s = None ->
  exists (evs : list (event E)) smp,
    events (setupSampler now config s) = events s ++ ev_sampler_chain_init :: evs
    /\ quiet evs /\ sampler_ (setupSampler now config s) = Some smp.
Proof.
  intros Hs. unfold setupSampler. rewrite Hs.
  destruct (float_ne (repeatPenalty config) float_one), (0 <? topK config),
    (float_lt (topP config) float_one), (float_gt (temperature config) float_zero);
    simpl; eexists; eexists;
    (split; [rewrite <- ?app_assoc; reflexivity
            | split; [unfold quiet, live; simpl; repeat split | reflexivity]]).
Qed.

Lemma loadModel_wf (LLAMA_AVAILABLE : bool) env path config s :
  wf LLAMA_AVAILABLE s = true ->
  wf LLAMA_AVAILABLE (loadModel LLAMA_AVAILABLE env path config s).2 = true.
Proof.
  intros Hwf. unfold loadModel.
  destruct LLAMA_AVAILABLE.
  2:{ simpl. eapply keeps_wf; [|exact Hwf].
      eapply keeps_trans; [apply (keeps_set_lastError "")|].
      unfold keeps_handles. simpl. split; [|repeat split].
      exists []. split; [rewrite app_nil_r; reflexivity | apply quiet_nil]. }
  destruct (unloadModel_teardown true (clearError s)) as (Hev & Hun & Hwf');
    [destruct s; exact Hwf|].
  assert (Hpre : match model_ (clearError s) with
                 | Some _ => unloadModel true (clearError s)
                 | None => clearError s
                 end = unloadModel true (clearError s)).
  { destruct (model_ (clearError s)) eqn:Hm; [reflexivity|].
    symmetry. apply unloadModel_unloaded.
    clear - Hwf Hm. destruct s as [[m|] [c|] [smp|] ? ? ? ? ?]; try discriminate;
      unfold wf, handles_paired in Hwf; simpl in Hwf; try discriminate. reflexivity. }
  rewrite Hpre. set (u := unloadModel true (clearError s)) in *.
  assert (Hh : model_ u = None /\ context_ u = None /\ sampler_ u = None).
  { unfold unloaded in Hun. destruct (model_ u), (context_ u), (sampler_ u);
      try discriminate. auto. }
  destruct Hh as (Hum & Huc & Hus).
  apply wf_iff in Hwf' as (_ & Hlm & Hlc & Hls & _).
  rewrite Hum in Hlm. rewrite Huc in Hlc. rewrite Hus in Hls. simpl in Hlm, Hlc, Hls.
  destruct (llama_model_load_from_file E path _) as [m|]; cbn [fst snd].
  - destruct (llama_init_from_model E m _) as [c|]; cbn [fst snd].
    + match goal with
      | |- context [setupSampler ?n ?cf ?x] =>
        destruct (setupSampler_fresh n cf x) as (evs & smp & He & (Qm & Qc & Qs) & Hsmp);
          [simpl; exact Hus|];
        destruct (setupSampler_frame n cf x) as (Fm & Fc & _)
      end.
      apply wf_iff. unfold handles_paired, unloaded. simpl.
      rewrite Fm, Fc, Hsmp, He. simpl.
      change (ev_sampler_chain_init :: evs) with ([@ev_sampler_chain_init E] ++ evs).
      rewrite !live_app, Qm, Qc, Qs, Hlm, Hlc, Hls. unfold live. simpl.
      repeat split; try reflexivity; discriminate.
    + apply wf_iff. unfold handles_paired, unloaded. simpl.
      rewrite Hus, !live_snoc, Hlm, Hlc, Hls. simpl. repeat split; discriminate.
  - apply wf_iff. unfold handles_paired, unloaded. simpl.
    rewrite Huc, Hus, !live_snoc, Hlm, Hlc, Hls. simpl. repeat split; discriminate.
Qed.

Lemma reachable_wf (LLAMA_AVAILABLE : bool) s :
  reachable LLAMA_AVAILABLE s -> wf LLAMA_AVAILABLE s = true.
Proof.
  induction 1 as [defaults|env path config s _ IH|s _ IH
                  |A env prompt cb config s a s' a' _ IH Hgen|s _ IH].
  - apply wf_new.
  - apply loadModel_wf. exact IH.
  - apply unloadModel_teardown. exact IH.
  - eapply generateStream_wf; eassumption.
  - eapply keeps_wf; [apply keeps_set_shouldCancel | exact IH].
Qed.

(** *** The history records the callback *)

Lemma records_refl s pieces : records s pieces s pieces.
Proof. exists []. rewrite !app_nil_r. auto. Qed.

Lemma records_trans s1 l1 s2 l2 s3 l3 :
  records s1 l1 s2 l2 -> records s2 l2 s3 l3 -> records s1 l1 s3 l3.
Proof.
  intros (evs1 & He1 & Hl1) (evs2 & He2 & Hl2).
  exists (evs1 ++ evs2). rewrite He2, He1, Hl2, Hl1, callback_pieces_app, !app_assoc. auto.
Qed.

Lemma records_silent s s' pieces (evs : list (event E)) :
  events s' = events s ++ evs -> callback_pieces evs = [] -> records s pieces s' pieces.
Proof. intros He Hp. exists evs. rewrite Hp, app_nil_r. auto. Qed.

Lemma detokenize_loop_silent vocab tokens : forall result calls r calls',
  callback_pieces calls = [] ->
  detokenize_loop (E:=E) vocab tokens result calls = Ok (r, calls') ->
  callback_pieces calls' = [].
Proof.
  induction tokens as [|tok tokens IH]; intros result calls r calls' Hq; simpl.
  - intros [= <- <-]. exact Hq.
  - assert (Hq' : callback_pieces (calls ++ [ev_token_to_piece tok
                    (llama_token_to_piece E vocab tok 255 0 true).1]) = [])
      by (rewrite callback_pieces_app, Hq; reflexivity).
    destruct (_ <? 0); [apply IH; exact Hq'|].
    destruct (256 <=? _); [discriminate | apply IH; exact Hq'].
Qed.

Lemma records_generation_step m batch n_cur s pieces r :
  generation_step collect m batch n_cur s pieces = Ok r ->
  match r with
  | Break s' pieces' => records s pieces s' pieces'
  | Continue _ s' pieces' => records s pieces s' pieces'
  end.
Proof.
  unfold generation_step, sampler_sample.
  destruct (sampler_ s) as [smp|]; [|discriminate].
  destruct (context_ s) as [c|] eqn:Hc; [|discriminate]. cbn [bind].
  destruct (llama_vocab_is_eog E _ _).
  { intros [= <-]. eapply records_silent; [simpl; reflexivity | reflexivity]. }
  destruct (detokenize m _) as [[piece calls]|] eqn:Hd; cbn [bind]; [|discriminate].
  assert (Hq : callback_pieces calls = []).
  { unfold detokenize in Hd. eapply detokenize_loop_silent; [|exact Hd]. reflexivity. }
  destruct (next_token_batch batch _ n_cur) as [b|]; cbn [bind]; [|discriminate].
  unfold decode. simpl. rewrite Hc. cbn [bind]. simpl.
  assert (Hrec : forall ev : event E,
    callback_pieces [ev] = [] ->
    exists evs, (((events s ++ [ev_sampler_sample (llama_sampler_sample E smp c (-1)).1])
                  ++ calls) ++ [ev_callback piece]) ++ [ev] = events s ++ evs
                /\ collect piece pieces = pieces ++ callback_pieces evs).
  { intros ev Hev. eexists. split; [rewrite <- !app_assoc; reflexivity|].
    rewrite !callback_pieces_app, Hq, Hev. reflexivity. }
  destruct (negb _); intros [= <-]; apply Hrec; reflexivity.
Qed.

Lemma records_poll_cancel env k s pieces : records s pieces (poll_cancel env k s) pieces.
Proof.
  unfold poll_cancel. destruct (cancel_requested env k); [|apply records_refl].
  eapply records_silent; [simpl; rewrite app_nil_r; reflexivity | reflexivity].
Qed.

Lemma records_generation_loop env m remaining :
  forall batch n_cur k s pieces s' pieces',
  generation_loop env collect m remaining batch n_cur k s pieces = Ok (s', pieces') ->
  records s pieces s' pieces'.
Proof.
  induction remaining as [|remaining IH]; intros batch n_cur k s pieces s' pieces'; simpl.
  - intros [= <- <-]. apply records_refl.
  - pose proof (records_poll_cancel env k s pieces) as Rp.
    destruct (shouldCancel_ (poll_cancel env k s)).
    + intros [= <- <-]. exact Rp.
    + destruct (generation_step collect m batch n_cur (poll_cancel env k s) pieces)
        as [r|] eqn:Hstep; cbn [bind]; [|discriminate].
      apply records_generation_step in Hstep.
      destruct r as [s1 l1|b1 s1 l1].
      * intros [= <- <-]. eapply records_trans; eassumption.
      * intros Hloop. apply IH in Hloop.
        eapply records_trans; [exact Rp|]. eapply records_trans; eassumption.
Qed.

Lemma records_stub_loop env ws :
  forall k s pieces,
  records s pieces (stub_loop env collect ws k s pieces).1 (stub_loop env collect ws k s pieces).2.
Proof.
  induction ws as [|w ws IH]; intros k s pieces; simpl; [apply records_refl|].
  pose proof (records_poll_cancel env k s pieces) as Rp.
  destruct (shouldCancel_ (poll_cancel env k s)); [exact Rp|].
  eapply records_trans; [exact Rp|]. eapply records_trans; [|apply IH].
  exists [ev_callback (w +:+ " ")]. split; reflexivity.
Qed.

(** The callback events that [generateStream] adds to the history are
    the pieces it hands to the callback, in order. *)
Lemma generateStream_records (LLAMA_AVAILABLE : bool) env prompt config s s' pieces :
  generateStream LLAMA_AVAILABLE env prompt collect config s [] = Ok (s', pieces) ->
  exists evs, events s' = events s ++ evs /\ pieces = callback_pieces evs.
Proof.
  intros H. change (records s [] s' pieces). revert H.
  unfold generateStream.
  destruct (negb (isModelLoaded LLAMA_AVAILABLE (clearError s))).
  { intros [= <- <-]. eapply records_silent; [simpl; rewrite app_nil_r|]; reflexivity. }
  set (s0 := set_shouldCancel_ false (set_isGenerating_ true (clearError s))).
  assert (R0 : records s [] s0 [])
    by (eapply records_silent; [subst s0; simpl; reflexivity | reflexivity]).
  destruct LLAMA_AVAILABLE.
  - set (s1 := match config with Some c0 => _ | None => _ end).
    assert (R1 : records s [] s1 []).
    { subst s1. destruct config as [c0|]; [|exact R0].
      eapply records_trans; [exact R0|].
      destruct (setupSampler_events (time_now env) c0 s0) as (evs & He & Hp & _).
      eapply records_silent; eassumption. }
    destruct (model_ s1) as [m|]; [|discriminate].
    destruct (tokenize_calls_quiet m prompt true) as [Hq _].
    destruct (tokenize m prompt true) as [toks calls]. simpl in Hq.
    assert (R2 : records s [] (add_events calls s1) []).
    { eapply records_trans; [exact R1|]. eapply records_silent; [reflexivity | exact Hq]. }
    assert (Rend : forall e (t : LlamaContextWrapper E),
              records (add_events calls s1) [] t [] ->
              records s [] (set_isGenerating_ false (setError e t)) []).
    { intros e t Rt. eapply records_trans; [exact R2|]. eapply records_trans; [exact Rt|].
      eapply records_silent; [simpl; reflexivity | reflexivity]. }
    destruct toks as [|tok toks].
    { intros [= <- <-]. apply Rend, records_refl. }
    destruct (get_n_ctx (add_events calls s1)) as [n|]; cbn [bind]; [|discriminate].
    break_if.
    { intros [= <- <-]. apply Rend, records_refl. }
    unfold decode_prompt_and_generate.
    destruct (prompt_batch _ _) as [b|]; cbn [bind]; [|discriminate].
    unfold decode. simpl.
    destruct (context_ s1) as [c|]; cbn [bind]; [|discriminate].
    destruct (negb _).
    { intros [= <- <-]. eapply records_trans; [exact R2|].
      eapply records_silent; [simpl; rewrite <- !app_assoc; reflexivity | reflexivity]. }
    match goal with
    | |- context [generation_loop ?e collect ?mm ?r ?bb ?n ?k ?st ?l] =>
      destruct (generation_loop e collect mm r bb n k st l) as [[s2 l2]|] eqn:Hloop
    end; cbn [bind]; [|discriminate].
    apply records_generation_loop in Hloop.
    intros [= <- <-]. eapply records_trans; [exact R2|].
    eapply records_trans; [|eapply records_trans; [exact Hloop|]].
    + eapply records_silent; [simpl; rewrite <- !app_assoc; reflexivity | reflexivity].
    + eapply records_silent; [simpl; rewrite <- !app_assoc; reflexivity | reflexivity].
  - match goal with
    | |- context [stub_loop ?e collect ?ws ?k ?st ?l] =>
      pose proof (records_stub_loop e ws k st l) as Rstub;
      destruct (stub_loop e collect ws k st l) as [s2 l2]
    end.
    simpl in Rstub. intros [= <- <-].
    eapply records_trans; [exact R0|]. eapply records_trans; [exact Rstub|].
    eapply records_silent; [simpl; reflexivity | reflexivity].
Qed.

(** *** Teardown and loading *)

(** C8: on every session a program can build, [unloadModel] is
    idempotent, also when no model was ever loaded; it frees the
    sampler chain, then the context, then the model, each only if
    present; it leaves no handle and it cannot fail: the error slot is
    untouched. *)
Theorem unloadModel_idempotent_ordered (LLAMA_AVAILABLE : bool) s :
  reachable LLAMA_AVAILABLE s ->
  unloadModel LLAMA_AVAILABLE (unloadModel LLAMA_AVAILABLE s) = unloadModel LLAMA_AVAILABLE s
  /\ events (unloadModel LLAMA_AVAILABLE s) = events s ++ teardown s
  /\ unloaded (unloadModel LLAMA_AVAILABLE s) = true
  /\ (if unloaded s then unloadModel LLAMA_AVAILABLE s = s else True)
  /\ lastError_ (unloadModel LLAMA_AVAILABLE s) = lastError_ s
  /\ wf LLAMA_AVAILABLE (unloadModel LLAMA_AVAILABLE s) = true.
Proof.
  intros Hreach. pose proof (reachable_wf LLAMA_AVAILABLE s Hreach) as Hwf.
  destruct (unloadModel_teardown LLAMA_AVAILABLE s Hwf) as (Hev & Hun & Hwf').
  repeat split; try assumption.
  - apply unloadModel_unloaded. exact Hun.
  - destruct (unloaded s) eqn:Hu; [|exact I]. apply unloadModel_unloaded. exact Hu.
  - unfold unloadModel. destruct LLAMA_AVAILABLE; [|reflexivity].
    destruct s as [[m|] [c|] [smp|] ? ? ? ? ?]; reflexivity.
Qed.

(** *** Loading *)

(** C4: on every session a program can build, a failing [loadModel]
    leaves the session Unloaded, with no live engine object and a
    message in the error slot; when the model
    loads and the context cannot be created, the call frees that
    model, records ["Failed to create llama context"] and returns
    failure.  The stub build cannot fail. *)
Theorem loadModel_failure_unwinds (LLAMA_AVAILABLE : bool) env path config s :
  reachable LLAMA_AVAILABLE s ->
  let r := loadModel LLAMA_AVAILABLE env path config s in
  let modelParams := {| n_gpu_layers := gpuLayers config; use_mmap := useMmap config;
                        use_mlock := useMlock config |} in
  let ctxParams := {| n_ctx := to_uint32 (contextSize config);
                      n_batch := to_uint32 (batchSize config);
                      n_threads := threads config;
                      n_threads_batch := threadsBatch config |} in
  (if r.1 then True
   else unloaded r.2 = true /\ isModelLoaded LLAMA_AVAILABLE r.2 = false
        /\ wf LLAMA_AVAILABLE r.2 = true /\ lastError_ r.2 <> ""
        /\ live delta_model (events r.2) = 0
        /\ live delta_context (events r.2) = 0
        /\ live delta_sampler (events r.2) = 0)
  /\ (if LLAMA_AVAILABLE then
        match llama_model_load_from_file E path modelParams with
        | None =>
          r.1 = false
          /\ events r.2 = events (unloadModel LLAMA_AVAILABLE s)
                          ++ [ev_model_load_from_file path modelParams None]
          /\ lastError_ r.2 = "Failed to load model from: " +:+ path
        | Some m =>
          match llama_init_from_model E m ctxParams with
          | None =>
            r.1 = false
            /\ events r.2 = events (unloadModel LLAMA_AVAILABLE s)
                            ++ [ev_model_load_from_file path modelParams (Some m);
                                ev_init_from_model m ctxParams None;
                                ev_model_free m]
            /\ lastError_ r.2 = "Failed to create llama context"
          | Some _ => r.1 = true
          end
        end
      else r.1 = true).
Proof.
  intros Hreach r modelParams ctxParams. subst r.
  pose proof (reachable_wf LLAMA_AVAILABLE s Hreach) as Hwf.
  destruct LLAMA_AVAILABLE; [|split; [exact I|reflexivity]].
  destruct (unloadModel_teardown true (clearError s)) as (Hev & Hun & Hwf');
    [destruct s; exact Hwf|].
  assert (Hpre : match model_ (clearError s) with
                 | Some _ => unloadModel true (clearError s)
                 | None => clearError s
                 end = unloadModel true (clearError s)).
  { destruct (model_ (clearError s)) eqn:Hm; [reflexivity|].
    symmetry. apply unloadModel_unloaded.
    clear - Hwf Hm. destruct s as [[m|] [c|] [smp|] ? ? ? ? ?]; try discriminate;
      unfold wf, handles_paired in Hwf; simpl in Hwf; try discriminate. reflexivity. }
  assert (Hevs : events (unloadModel true (clearError s)) = events (unloadModel true s)).
  { destruct s as [[m|] [c|] [smp|] ? ? ? ? ?]; reflexivity. }
  unfold loadModel. rewrite Hpre. fold modelParams. fold ctxParams.
  set (u := unloadModel true (clearError s)) in *.
  assert (Hh : model_ u = None /\ context_ u = None /\ sampler_ u = None).
  { unfold unloaded in Hun. destruct (model_ u), (context_ u), (sampler_ u);
      try discriminate. auto. }
  destruct Hh as (Hum & Huc & Hus).
  apply wf_iff in Hwf' as (_ & Hlm & Hlc & Hls & _).
  rewrite Hum in Hlm. rewrite Huc in Hlc. rewrite Hus in Hls. simpl in Hlm, Hlc, Hls.
  destruct (llama_model_load_from_file E path modelParams) as [m|]; cbn [fst snd].
  - destruct (llama_init_from_model E m ctxParams) as [c|]; cbn [fst snd].
    + split; [exact I|reflexivity].
    + split.
      * unfold unloaded, isModelLoaded, wf, handles_paired, no_orphans, unloaded.
        simpl. rewrite Hus, !live_snoc, Hlm, Hlc, Hls. simpl.
        repeat split; discriminate.
      * rewrite <- Hevs. simpl. rewrite <- !app_assoc. repeat split.
  - split.
    + unfold unloaded, isModelLoaded, wf, handles_paired, no_orphans, unloaded.
      simpl. rewrite Huc, Hus, !live_snoc, Hlm, Hlc, Hls. simpl.
      repeat split; discriminate.
    + rewrite <- Hevs. simpl. repeat split.
Qed.

End Properties.

(** ** Concrete runs *)

(** C8 at a loaded session. *)
Lemma unloadModel_idempotent_ordered_witness :
  reachable true toy_loaded
  /\ (unloadModel true (unloadModel true toy_loaded) = unloadModel true toy_loaded
      /\ events (unloadModel true toy_loaded) = events toy_loaded ++ teardown toy_loaded
      /\ unloaded (unloadModel true toy_loaded) = true
      /\ (if unloaded toy_loaded then unloadModel true toy_loaded = toy_loaded else True)
      /\ lastError_ (unloadModel true toy_loaded) = lastError_ toy_loaded
      /\ wf true (unloadModel true toy_loaded) = true).
Proof.
  assert (Hreach : reachable true toy_loaded)
    by (apply reachable_loadModel, reachable_new).
  split; [exact Hreach|].
  apply unloadModel_idempotent_ordered. exact Hreach.
Defined.

(** C2 at a fresh session of the build with the backend. *)
Lemma generate_not_loaded_witness :
  (model_ toy_new = None \/ context_ toy_new = None)
  /\ (generateStream true toy_env "hi" collect None toy_new []
        = Ok (set_lastError_ "Model not loaded" toy_new, [])
      /\ generate true toy_env "hi" None toy_new
           = Ok ("", set_lastError_ "Model not loaded" toy_new)
      /\ lastError_ (set_lastError_ "Model not loaded" toy_new) = "Model not loaded"
      /\ events (set_lastError_ "Model not loaded" toy_new) = events toy_new
      /\ isGenerating_ (set_lastError_ "Model not loaded" toy_new) = isGenerating_ toy_new).
Proof.
  split; [left; reflexivity|].
  apply generate_not_loaded. left. reflexivity.
Defined.

(** C2 as stated fails in the stub build: [isModelLoaded] is constantly
    true there, so a session that never loaded a model generates the
    canned response, with [isGenerating_] set in between and no
    error. *)
Lemma stub_generates_without_load :
  model_ toy_new_stub = None
  /\ events toy_new_stub = []
  /\ stream_output (generateStream false toy_env "hi" collect None toy_new_stub [])
     = Ok ["Hello! "; "This "; "is "; "a "; "test "; "response "; "from ";
           "llama-kotlin-android. "; "The "; "library "; "is "; "working "; "but ";
           "llama.cpp "; "is "; "not "; "compiled "; "in. "; "Your "; "prompt ";
           "was: "; "hi... "]
  /\ stream_error (generateStream false toy_env "hi" collect None toy_new_stub []) = Ok ""
  /\ stream_writes (generateStream false toy_env "hi" collect None toy_new_stub [])
     = Ok [true; false].
Proof.
  split; [reflexivity|]. split; [reflexivity|].
  split; [vm_compute; reflexivity|]. split; vm_compute; reflexivity.
Defined.

(** C4 at a loaded session and a configuration whose context the
    engine refuses: the reload frees the old session, loads the model,
    fails to create the context and frees the model again. *)
Lemma loadModel_failure_unwinds_witness :
  reachable true toy_loaded
  /\ (loadModel true toy_env "model.gguf" (toy_config_sized 8192 32) toy_loaded).1 = false
  /\ unloaded (loadModel true toy_env "model.gguf" (toy_config_sized 8192 32) toy_loaded).2 = true
  /\ wf true (loadModel true toy_env "model.gguf" (toy_config_sized 8192 32) toy_loaded).2 = true
  /\ live delta_model
       (events (loadModel true toy_env "model.gguf" (toy_config_sized 8192 32) toy_loaded).2)
     = 0
  /\ lastError_ (loadModel true toy_env "model.gguf" (toy_config_sized 8192 32) toy_loaded).2
     = "Failed to create llama context".
Proof.
  assert (Hreach : reachable true toy_loaded)
    by (apply reachable_loadModel, reachable_new).
  split; [exact Hreach|].
  pose proof (loadModel_failure_unwinds true toy_env "model.gguf"
                (toy_config_sized 8192 32) toy_loaded Hreach) as H.
  cbv zeta in H. destruct H as [Hfail Hpath].
  change (llama_model_load_from_file toy "model.gguf"
            {| n_gpu_layers := gpuLayers (toy_config_sized 8192 32);
               use_mmap := useMmap (toy_config_sized 8192 32);
               use_mlock := useMlock (toy_config_sized 8192 32) |})
    with (Some "model.gguf" : option (llama_model toy)) in Hpath.
  cbv iota in Hpath.
  change (llama_init_from_model toy "model.gguf"
            {| n_ctx := to_uint32 (contextSize (toy_config_sized 8192 32));
               n_batch := to_uint32 (batchSize (toy_config_sized 8192 32));
               n_threads := threads (toy_config_sized 8192 32);
               n_threads_batch := threadsBatch (toy_config_sized 8192 32) |})
    with (None : option (llama_context toy)) in Hpath.
  cbv iota in Hpath. destruct Hpath as (Hr & _ & Herr).
  rewrite Hr in Hfail. destruct Hfail as (Hun & _ & Hwf' & _ & Hlive & _).
  repeat split; assumption.
Defined.

(** C1 at two loaded sessions that share model and context state and
    differ in sampler state, error slot and wall clock. *)
Lemma seeded_override_reproducible_witness :
  0 <= seed toy_config
  /\ (forall k, cancel_requested toy_env k = cancel_requested toy_env_later k)
  /\ model_ toy_loaded = model_ toy_loaded_used
  /\ context_ toy_loaded = context_ toy_loaded_used
  /\ (stream_output (generateStream true toy_env "hi" collect (Some toy_config) toy_loaded [])
      = stream_output (generateStream true toy_env_later "hi" collect (Some toy_config)
                         toy_loaded_used [])
      /\ generate_output (generate true toy_env "hi" (Some toy_config) toy_loaded)
         = generate_output (generate true toy_env_later "hi" (Some toy_config) toy_loaded_used)).
Proof.
  split; [simpl; lia|]. split; [intros k; reflexivity|].
  split; [reflexivity|]. split; [reflexivity|].
  apply seeded_override_reproducible;
    [simpl; lia | intros k; reflexivity | reflexivity | reflexivity].
Defined.

(** C1 as stated fails: two successive calls on one loaded session,
    same prompt, same configuration, seed 42, give different outputs,
    without an override (the sampler chain and the context carry
    over) and with one (the context carries over). *)
Lemma successive_generations_differ :
  seed toy_config = 42
  /\ currentConfig_ toy_loaded = toy_config
  /\ isModelLoaded true toy_loaded = true
  /\ generate_twice true toy_env "hi" None toy_loaded = Ok ("tbjrz", "ksaiq")
  /\ generate_twice true toy_env "hi" (Some toy_config) toy_loaded = Ok ("tbjrz", "bjrzh").
Proof.
  split; [reflexivity|]. split; [reflexivity|]. split; [reflexivity|].
  split; vm_compute; reflexivity.
Defined.

(** C3 at a prompt of three tokens, a batch size of two and a window
    of 64: the prompt passes the checks and the third token is written
    past the batch. *)
Lemma prompt_batch_bounds_witness :
  model_ toy_loaded = Some "model.gguf"
  /\ context_ toy_loaded = Some (64, [])
  /\ (tokenize (E := toy) "model.gguf" "hi" true).1 <> []
  /\ Z.of_nat (length (tokenize (E := toy) "model.gguf" "hi" true).1)
     <= to_int32 (llama_n_ctx toy (64, [])) - 4
  /\ (generateStream true toy_env "hi" collect (Some (toy_config_sized 64 2)) toy_loaded []
        = Undefined batch_out_of_bounds
      <-> batchSize (toy_config_sized 64 2)
          < Z.of_nat (length (tokenize (E := toy) "model.gguf" "hi" true).1)).
Proof.
  assert (Hne : (tokenize (E := toy) "model.gguf" "hi" true).1 <> [])
    by (vm_compute; discriminate).
  assert (Hfit : Z.of_nat (length (tokenize (E := toy) "model.gguf" "hi" true).1)
                 <= to_int32 (llama_n_ctx toy (64, [])) - 4)
    by (vm_compute; discriminate).
  split; [reflexivity|]. split; [reflexivity|]. split; [exact Hne|]. split; [exact Hfit|].
  apply (prompt_batch_bounds toy_env "hi" collect (Some (toy_config_sized 64 2))
           toy_loaded [] "model.gguf" (64, []) eq_refl eq_refl Hne Hfit).
Defined.

(** C7 at a prompt of twelve tokens and a window of eight. *)
Lemma prompt_too_long_witness :
  model_ toy_loaded_small = Some "model.gguf"
  /\ context_ toy_loaded_small = Some (8, [])
  /\ 4 <= to_int32 (llama_n_ctx toy (8, []))
  /\ to_int32 (llama_n_ctx toy (8, [])) - 4
     < Z.of_nat (length (tokenize (E := toy) "model.gguf" "hello world" true).1)
  /\ exists s' (evs : list (event toy)),
       generateStream true toy_env "hello world" collect None toy_loaded_small [] = Ok (s', [])
       /\ generate true toy_env "hello world" None toy_loaded_small = Ok ("", s')
       /\ lastError_ s' = "Prompt too long for context size"
       /\ isGenerating_ s' = false
       /\ events s' = events toy_loaded_small ++ evs
       /\ callback_pieces evs = []
       /\ generating_writes evs = [true; false].
Proof.
  assert (Hwin : 4 <= to_int32 (llama_n_ctx toy (8, [])))
    by (vm_compute; discriminate).
  assert (Hlong : to_int32 (llama_n_ctx toy (8, [])) - 4
                  < Z.of_nat (length (tokenize (E := toy) "model.gguf" "hello world" true).1))
    by (vm_compute; reflexivity).
  split; [reflexivity|]. split; [reflexivity|]. split; [exact Hwin|]. split; [exact Hlong|].
  apply (prompt_too_long toy_env "hello world" collect None toy_loaded_small []
           "model.gguf" (8, []) eq_refl eq_refl (or_introl Hwin) Hlong).
Defined.

(** C10 as stated fails: [unloadModel] and [cancelGeneration] succeed
    and leave the message of an earlier failure in the error slot. *)
Lemma unloadModel_leaves_the_error :
  lastError_ (set_lastError_ "Model not loaded" toy_new) = "Model not loaded"
  /\ generate true toy_env "hi" None toy_new
     = Ok ("", set_lastError_ "Model not loaded" toy_new)
  /\ lastError_ (unloadModel true (set_lastError_ "Model not loaded" toy_new))
     = "Model not loaded"
  /\ lastError_ (cancelGeneration (set_lastError_ "Model not loaded" toy_new))
     = "Model not loaded"
  /\ lastError_ (unloadModel true (set_lastError_ "Model not loaded" toy_new)) <> "".
Proof.
  split; [reflexivity|]. split; [vm_compute; reflexivity|].
  split; [reflexivity|]. split; [reflexivity|]. discriminate.
Defined.

(** ** Further properties *)

Section FurtherProperties.

Context {E : Engine}.

Implicit Types (s : LlamaContextWrapper E) (evs : list (event E)).

(** *** Cancellation requests made before the call *)

(** X3: once past the entry guard, [generateStream] resets the
    cancellation flag, so a [cancelGeneration] made before the call
    has no effect on it. *)
Theorem cancel_before_generation_is_discarded {A} (LLAMA_AVAILABLE : bool) env prompt
    (cb : string -> A -> A) config s a :
  isModelLoaded LLAMA_AVAILABLE s = true ->
  generateStream LLAMA_AVAILABLE env prompt cb config (cancelGeneration s) a
  = generateStream LLAMA_AVAILABLE env prompt cb config s a.
Proof.
  intros Hloaded. unfold generateStream.
  assert (H1 : isModelLoaded LLAMA_AVAILABLE (clearError (cancelGeneration s)) = true)
    by (destruct s; exact Hloaded).
  assert (H2 : isModelLoaded LLAMA_AVAILABLE (clearError s) = true)
    by (destruct s; exact Hloaded).
  rewrite H1, H2. reflexivity.
Qed.

(** *** How many pieces a generation emits *)

Lemma generation_step_pieces m batch n_cur s pieces r :
  generation_step collect m batch n_cur s pieces = Ok r ->
  match r with
  | Break s' pieces' =>
    (pieces' = pieces /\ lastError_ s' = lastError_ s)
    \/ (exists piece, pieces' = pieces ++ [piece])
       /\ lastError_ s' = "Failed to decode token"
  | Continue _ s' pieces' =>
    (exists piece, pieces' = pieces ++ [piece]) /\ lastError_ s' = lastError_ s
  end.
Proof.
  unfold generation_step, sampler_sample.
  destruct (sampler_ s) as [smp|]; [|discriminate].
  destruct (context_ s) as [c|] eqn:Hc; [|discriminate]. cbn [bind].
  destruct (llama_vocab_is_eog E _ _).
  { intros [= <-]. left. split; reflexivity. }
  destruct (detokenize m _) as [[piece calls]|]; cbn [bind]; [|discriminate].
  destruct (next_token_batch batch _ n_cur) as [b|]; cbn [bind]; [|discriminate].
  unfold decode. simpl. rewrite Hc. cbn [bind]. simpl.
  destruct (negb _); intros [= <-].
  - right. split; [exists piece; reflexivity | reflexivity].
  - split; [exists piece; reflexivity | reflexivity].
Qed.

Lemma poll_cancel_lastError env k s : lastError_ (poll_cancel env k s) = lastError_ s.
Proof. unfold poll_cancel. destruct (cancel_requested env k); reflexivity. Qed.

(** The token loop adds at most [remaining] pieces; if it ends with
    the decode error it added at least one. *)
Lemma generation_loop_pieces env m remaining :
  forall batch n_cur k s pieces s' pieces',
  generation_loop env collect m remaining batch n_cur k s pieces = Ok (s', pieces') ->
  exists added, pieces' = pieces ++ added
    /\ (length added <= remaining)%nat
    /\ (lastError_ s' = lastError_ s
        \/ lastError_ s' = "Failed to decode token" /\ added <> []).
Proof.
  induction remaining as [|remaining IH]; intros batch n_cur k s pieces s' pieces'; simpl.
  - intros [= <- <-]. exists []. rewrite app_nil_r. auto.
  - destruct (shouldCancel_ (poll_cancel env k s)).
    + intros [= <- <-]. exists []. rewrite app_nil_r, poll_cancel_lastError.
      split; [reflexivity|]. split; [simpl; lia | auto].
    + destruct (generation_step collect m batch n_cur (poll_cancel env k s) pieces)
        as [r|] eqn:Hstep; cbn [bind]; [|discriminate].
      apply generation_step_pieces in Hstep. rewrite poll_cancel_lastError in Hstep.
      destruct r as [s1 l1|b1 s1 l1].
      * intros [= <- <-]. destruct Hstep as [[-> He]|[[piece ->] He]].
        -- exists []. rewrite app_nil_r. split; [reflexivity|]. split; [simpl; lia | auto].
        -- exists [piece]. split; [reflexivity|]. split; [simpl; lia|].
           right. split; [exact He | discriminate].
      * destruct Hstep as [[piece ->] He]. intros Hloop.
        apply IH in Hloop as (added & -> & Hlen & Herr).
        exists (piece :: added). split; [rewrite <- app_assoc; reflexivity|].
        split; [simpl; lia|]. rewrite He in Herr.
        destruct Herr as [Herr|[Herr _]]; [left; exact Herr | right].
        split; [exact Herr | discriminate].
Qed.

(** If another thread has asked for cancellation by check number [k],
    the loop that is at check [j] adds at most [k - j] pieces. *)
Lemma generation_loop_cancelled env m k remaining :
  cancel_requested env k = true ->
  forall batch n_cur j s pieces s' pieces',
  (j <= k)%nat ->
  generation_loop env collect m remaining batch n_cur j s pieces = Ok (s', pieces') ->
  exists added, pieces' = pieces ++ added /\ (length added <= k - j)%nat.
Proof.
  intros Hcancel.
  induction remaining as [|remaining IH]; intros batch n_cur j s pieces s' pieces' Hj; simpl.
  - intros [= <- <-]. exists []. rewrite app_nil_r. split; [reflexivity | simpl; lia].
  - destruct (shouldCancel_ (poll_cancel env j s)) eqn:Hflag.
    + intros [= <- <-]. exists []. rewrite app_nil_r. split; [reflexivity | simpl; lia].
    + assert (Hlt : (j < k)%nat).
      { destruct (Nat.eq_dec j k) as [->|Hne]; [|lia].
        unfold poll_cancel in Hflag. rewrite Hcancel in Hflag. discriminate. }
      destruct (generation_step collect m batch n_cur (poll_cancel env j s) pieces)
        as [r|] eqn:Hstep; cbn [bind]; [|discriminate].
      apply generation_step_pieces in Hstep.
      destruct r as [s1 l1|b1 s1 l1].
      * intros [= <- <-]. destruct Hstep as [[-> _]|[[piece ->] _]].
        -- exists []. rewrite app_nil_r. split; [reflexivity | simpl; lia].
        -- exists [piece]. split; [reflexivity | simpl; lia].
      * destruct Hstep as [[piece ->] _]. intros Hloop.
        apply IH in Hloop as (added & -> & Hlen); [|lia].
        exists (piece :: added). split; [rewrite <- app_assoc; reflexivity | simpl; lia].
Qed.

Lemma stub_loop_cancelled env k ws :
  cancel_requested env k = true ->
  forall j s pieces,
  (j <= k)%nat ->
  exists added, (stub_loop env collect ws j s pieces).2 = pieces ++ added
    /\ (length added <= k - j)%nat.
Proof.
  intros Hcancel.
  induction ws as [|w ws IH]; intros j s pieces Hj; simpl.
  - exists []. rewrite app_nil_r. split; [reflexivity | simpl; lia].
  - destruct (shouldCancel_ (poll_cancel env j s)) eqn:Hflag.
    + exists []. rewrite app_nil_r. split; [reflexivity | simpl; lia].
    + assert (Hlt : (j < k)%nat).
      { destruct (Nat.eq_dec j k) as [->|Hne]; [|lia].
        unfold poll_cancel in Hflag. rewrite Hcancel in Hflag. discriminate. }
      destruct (IH (S j) (emit (ev_callback (w +:+ " ")) (poll_cancel env j s))
                  (collect (w +:+ " ") pieces)) as (added & -> & Hlen); [lia|].
      exists ((w +:+ " ") :: added). unfold collect.
      split; [rewrite <- app_assoc; reflexivity | simpl; lia].
Qed.

(** A call of the build with the backend ends before the token loop,
    with no piece and one of four messages, or runs the loop from an
    empty error slot. *)
Lemma generateStream_shape env prompt config s s' pieces :
  generateStream true env prompt collect config s [] = Ok (s', pieces) ->
  (pieces = []
   /\ In (lastError_ s') ["Model not loaded"; "Failed to tokenize prompt";
                          "Prompt too long for context size"; "Failed to process prompt"])
  \/ (exists m batch n_cur s1 s2,
        generation_loop env collect m (Z.to_nat (maxTokens (effective_config config s)))
          batch n_cur 0 s1 [] = Ok (s2, pieces)
        /\ lastError_ s1 = "" /\ lastError_ s' = lastError_ s2).
Proof.
  unfold generateStream.
  destruct (isModelLoaded true (clearError s)); cbn [negb].
  2:{ intros [= <- <-]. left. simpl. auto. }
  set (s1 := match config with Some c => _ | None => _ end).
  assert (H1 : lastError_ s1 = "").
  { subst s1. destruct config as [c|]; [|reflexivity].
    destruct (setupSampler_frame (time_now env) c
                (set_shouldCancel_ false (set_isGenerating_ true (clearError s))))
      as (_ & _ & -> & _). reflexivity. }
  destruct (model_ s1) as [m|]; [|discriminate].
  destruct (tokenize m prompt true) as [toks calls].
  destruct toks as [|tok toks].
  { intros [= <- <-]. left. simpl. auto. }
  destruct (get_n_ctx (add_events calls s1)) as [n|]; cbn [bind]; [|discriminate].
  destruct (n - 4 <? _).
  { intros [= <- <-]. left. simpl. auto. }
  unfold decode_prompt_and_generate.
  destruct (prompt_batch _ _) as [b|]; cbn [bind]; [|discriminate].
  unfold decode. simpl. destruct (context_ s1) as [c|]; cbn [bind]; [|discriminate].
  destruct (negb _).
  { intros [= <- <-]. left. simpl. auto 6. }
  match goal with
  | |- context [generation_loop ?e collect ?mm ?r ?bb ?nn ?k ?st ?l] =>
    destruct (generation_loop e collect mm r bb nn k st l) as [[s2 l2]|] eqn:Hloop
  end; cbn [bind]; [|discriminate].
  intros [= <- <-]. right.
  eexists _, _, _, _, _. split; [exact Hloop|]. split; [simpl; exact H1 | reflexivity].
Qed.

(** X1: the build with the backend hands the callback at most
    [maxTokens] pieces (none when [maxTokens <= 0]). *)
Theorem generation_emits_at_most_maxTokens env prompt config s :
  match generateStream true env prompt collect config s [] with
  | Ok (_, pieces) =>
    (length pieces <= Z.to_nat (maxTokens (effective_config config s)))%nat
  | Undefined _ => True
  end.
Proof.
  destruct (generateStream true env prompt collect config s []) as [[s' pieces]|] eqn:H;
    [|exact I].
  apply generateStream_shape in H as [[-> _]|(m & b & n & s1 & s2 & Hloop & _)].
  - simpl. lia.
  - apply generation_loop_pieces in Hloop as (added & -> & Hlen & _). exact Hlen.
Qed.

(** X2: in both builds, if another thread has called
    [cancelGeneration] by the time the loop condition is checked for
    the [k]-th time (counting from 0), the callback receives at most
    [k] pieces. *)
Theorem cancellation_stops_the_stream (LLAMA_AVAILABLE : bool) env prompt config s k :
  cancel_requested env k = true ->
  match generateStream LLAMA_AVAILABLE env prompt collect config s [] with
  | Ok (_, pieces) => (length pieces <= k)%nat
  | Undefined _ => True
  end.
Proof.
  intros Hcancel.
  destruct LLAMA_AVAILABLE.
  - destruct (generateStream true env prompt collect config s []) as [[s' pieces]|] eqn:H;
      [|exact I].
    apply generateStream_shape in H as [[-> _]|(m & b & n & s1 & s2 & Hloop & _)].
    + simpl. lia.
    + eapply generation_loop_cancelled in Hloop as (added & -> & Hlen);
        [|exact Hcancel|lia]. simpl. lia.
  - unfold generateStream. unfold isModelLoaded. cbn [negb].
    match goal with
    | |- context [stub_loop ?e collect ?ws ?j ?st ?l] =>
      destruct (stub_loop_cancelled e k ws Hcancel j st l) as (added & Hadd & Hlen);
        [lia|];
      destruct (stub_loop e collect ws j st l) as [s2 l2]
    end.
    simpl in Hadd. subst l2. simpl. lia.
Qed.

(** X6: in the build with the backend, a call that ends with one of
    the messages of the entry guard, the tokenization, the capacity
    check or the prompt decode has handed the callback nothing; a
    call that ends with ["Failed to decode token"] has handed it at
    least one piece, which is kept. *)
Theorem errors_and_partial_output env prompt config s :
  match generateStream true env prompt collect config s [] with
  | Ok (s', pieces) =>
    if String.eqb (lastError_ s') "" then True
    else if String.eqb (lastError_ s') "Failed to decode token" then pieces <> []
    else pieces = []
  | Undefined _ => True
  end.
Proof.
  destruct (generateStream true env prompt collect config s []) as [[s' pieces]|] eqn:H;
    [|exact I].
  apply generateStream_shape in H as [[-> Hin]|(m & b & n & s1 & s2 & Hloop & H1 & ->)].
  - simpl in Hin.
    destruct Hin as [<-|[<-|[<-|[<-|[]]]]]; reflexivity.
  - apply generation_loop_pieces in Hloop as (added & -> & _ & [Herr|[Herr Hne]]).
    + rewrite Herr, H1. reflexivity.
    + rewrite Herr. simpl. destruct added; [contradiction | discriminate].
Qed.

(** *** What a generation leaves of the session *)












(** *** Freedom from undefined behaviour *)

Lemma generation_step_safe {A} (cb : string -> A -> A) m cap batch n_cur s a :
  pieces_fit E -> batch_shape cap batch -> (0 < cap)%nat ->
  is_Some (sampler_ s) -> is_Some (context_ s) ->
  exists r, generation_step cb m batch n_cur s a = Ok r
    /\ match r with
       | Break _ _ => True
       | Continue batch' s' _ =>
         batch_shape cap batch' /\ is_Some (sampler_ s') /\ is_Some (context_ s')
       end.
Proof.
  intros Hfit Hshape Hcap [smp Hs] [c Hc].
  unfold generation_step, sampler_sample. rewrite Hs, Hc. cbn [bind].
  destruct (llama_vocab_is_eog E _ _); [eexists; split; [reflexivity | exact I]|].
  destruct (next_token_batch_in cap batch (llama_sampler_sample E smp c (-1)).1 n_cur
              Hshape Hcap) as (b & Hb & Hshape').
  unfold detokenize. simpl.
  pose proof (Hfit (llama_model_get_vocab E m) (llama_sampler_sample E smp c (-1)).1) as Hn.
  destruct (_ <? 0); cbn [bind].
  - rewrite Hb. cbn [bind]. unfold decode. simpl. rewrite Hc. cbn [bind].
    destruct (negb _); eexists; (split; [reflexivity|]); [exact I|].
    simpl. split; [exact Hshape' | split; eexists; reflexivity].
  - assert (H256 : (256 <=? (llama_token_to_piece E (llama_model_get_vocab E m)
                               (llama_sampler_sample E smp c (-1)).1 255 0 true).1) = false)
      by (apply Z.leb_gt; lia).
    rewrite H256. cbn [bind]. rewrite Hb. cbn [bind].
    unfold decode. simpl. rewrite Hc. cbn [bind].
    destruct (negb _); eexists; (split; [reflexivity|]); [exact I|].
    simpl. split; [exact Hshape' | split; eexists; reflexivity].
Qed.

Lemma generation_loop_safe {A} env (cb : string -> A -> A) m cap remaining :
  pieces_fit E -> (0 < cap)%nat ->
  forall batch n_cur k s a,
  batch_shape cap batch -> is_Some (sampler_ s) -> is_Some (context_ s) ->
  exists s' a', generation_loop env cb m remaining batch n_cur k s a = Ok (s', a').
Proof.
  intros Hfit Hcap.
  induction remaining as [|remaining IH]; intros batch n_cur k s a Hshape Hs Hc; simpl.
  - eauto.
  - destruct (shouldCancel_ (poll_cancel env k s)); [eauto|].
    assert (Hs' : is_Some (sampler_ (poll_cancel env k s)))
      by (unfold poll_cancel; destruct (cancel_requested env k); exact Hs).
    assert (Hc' : is_Some (context_ (poll_cancel env k s)))
      by (unfold poll_cancel; destruct (cancel_requested env k); exact Hc).
    destruct (generation_step_safe cb m cap batch n_cur (poll_cancel env k s) a
                Hfit Hshape Hcap Hs' Hc') as (r & -> & Hr).
    cbn [bind]. destruct r as [s1 a1|b1 s1 a1]; [eauto|].
    destruct Hr as (Hshape1 & Hs1 & Hc1). apply IH; assumption.
Qed.

(** X7: on every session a program can build, with an engine that
    never reports a piece longer than the 255 bytes it is offered and
    a prompt of at most [batchSize] tokens, [generateStream] returns:
    it writes outside no batch array and no piece buffer and hands
    the engine no null handle. *)
Theorem generation_is_defined {A} (LLAMA_AVAILABLE : bool) env prompt
    (cb : string -> A -> A) config s a :
  reachable LLAMA_AVAILABLE s ->
  pieces_fit E ->
  (forall m, model_ s = Some m ->
     Z.of_nat (length (tokenize m prompt true).1) <= batchSize (effective_config config s)) ->
  exists s' a', generateStream LLAMA_AVAILABLE env prompt cb config s a = Ok (s', a').
Proof.
  intros Hreach Hfit Hbatch.
  pose proof (reachable_wf LLAMA_AVAILABLE s Hreach) as Hwf.
  apply wf_iff in Hwf as (Hpaired & _).
  destruct LLAMA_AVAILABLE.
  2:{ unfold generateStream, isModelLoaded. cbn [negb].
      match goal with
      | |- context [stub_loop ?e ?f ?ws ?k ?st ?aa] =>
        destruct (stub_loop e f ws k st aa) as [s2 a2]
      end. eauto. }
  destruct (isModelLoaded true s) eqn:Hloaded.
  2:{ unfold generateStream.
      assert (Hl : isModelLoaded true (clearError s) = false) by (destruct s; exact Hloaded).
      rewrite Hl. cbn [negb]. eauto. }
  unfold isModelLoaded in Hloaded. unfold handles_paired in Hpaired.
  destruct (model_ s) as [m|] eqn:Hm; [|discriminate].
  destruct (context_ s) as [c|] eqn:Hc; [|discriminate].
  destruct (sampler_ s) as [smp|] eqn:Hs; [|discriminate].
  rewrite (generateStream_loaded env prompt cb config s a m c Hm Hc). cbv zeta.
  specialize (Hbatch m eq_refl).
  destruct (tokenize m prompt true).1 as [|tok toks] eqn:Htoks; [eauto|].
  destruct (_ <? _); [eauto|].
  set (s1 := match config with Some c0 => setupSampler _ _ _ | None => _ end).
  assert (H1 : is_Some (sampler_ s1) /\ context_ s1 = Some c).
  { subst s1. destruct config as [c0|]; [|simpl; rewrite Hs, Hc; split; eauto].
    destruct (keeps_setupSampler (time_now env) c0
                (set_shouldCancel_ false (set_isGenerating_ true (clearError s))) smp)
      as (_ & _ & _ & Hheld); [simpl; exact Hs|].
    destruct (setupSampler_frame (time_now env) c0
                (set_shouldCancel_ false (set_isGenerating_ true (clearError s))))
      as (_ & -> & _).
    simpl in Hheld. rewrite Hs in Hheld. split; [|simpl; exact Hc].
    match type of Hheld with
    | held ?x = _ => destruct x; [eauto | discriminate]
    end. }
  destruct H1 as [Hs1 Hc1].
  unfold decode_prompt_and_generate, effective_config in *.
  destruct (prompt_batch_in (batchSize match config with Some c0 => c0 | None => currentConfig_ s end)
              (tok :: toks)) as (b & -> & Hshape & Hn); [discriminate | exact Hbatch |].
  cbn [bind]. unfold decode. simpl. rewrite Hc1. cbn [bind].
  destruct (negb _); [eauto|].
  match goal with
  | |- context [generation_loop ?e ?f ?mm ?r ?bb ?nn ?kk ?st ?aa] =>
    destruct (fun H0 => generation_loop_safe e f mm
                (Z.to_nat (batchSize match config with Some c0 => c0 | None => currentConfig_ s end))
                r Hfit H0 bb nn kk st aa Hshape)
      as (s2 & a2 & ->)
  end; cbn [bind]; eauto.
  simpl in Hbatch. lia.
Qed.

(** *** The layout of the prompt batch *)

Lemma take_S_insert {T} (l : list T) (n : nat) (x : T) :
  (n < length l)%nat -> take (S n) (<[n := x]> l) = take n l ++ [x].
Proof.
  intros Hn. rewrite (take_S_r _ _ x) by (apply list_lookup_insert_eq; exact Hn).
  rewrite take_insert_ge by lia. reflexivity.
Qed.

Lemma positions_S first n : positions first (S n) = first :: positions (first + 1) n.
Proof.
  unfold positions. simpl. rewrite Z.add_0_r. f_equal.
  rewrite <- seq_shift, map_map. apply map_ext. intros j. lia.
Qed.

(** The entry written by [fill_entry], array by array. *)
Lemma fill_entry_written cap batch (n : nat) tok p lg :
  batch_shape cap batch -> (n < cap)%nat ->
  exists batch', fill_entry batch (Z.of_nat n) tok p lg = Ok batch'
    /\ batch_shape cap batch' /\ n_tokens batch' = n_tokens batch
    /\ take (S n) (token batch') = take n (token batch) ++ [tok]
    /\ take (S n) (pos batch') = take n (pos batch) ++ [p]
    /\ take (S n) (n_seq_id batch') = take n (n_seq_id batch) ++ [1]
    /\ first_seq_ids (take (S n) (seq_id batch'))
       = first_seq_ids (take n (seq_id batch)) ++ [Some 0]
    /\ take (S n) (logits batch') = take n (logits batch) ++ [lg].
Proof.
  intros (Ht & Hp & Hn & Hs & Hl & Hrows) Hlt.
  unfold fill_entry.
  rewrite !store_in by lia. cbn [bind].
  unfold store_row0.
  assert (H0 : (0 <=? Z.of_nat n) = true) by (apply Z.leb_le; lia).
  assert (H1 : (Z.of_nat n <? Z.of_nat (length (seq_id batch))) = true)
    by (apply Z.ltb_lt; lia).
  rewrite H0, H1. cbn [andb]. rewrite Nat2Z.id.
  destruct (seq_id batch !! n) as [row|] eqn:Hrow.
  2:{ apply lookup_ge_None in Hrow. lia. }
  assert (Hne : row <> []) by (eapply Forall_lookup_1 in Hrows; eauto).
  destruct row as [|x row]; [contradiction|].
  unfold store at 1. simpl. cbn [bind].
  eexists. split; [reflexivity|]. simpl.
  split; [|split; [reflexivity|]].
  - unfold batch_shape. simpl. rewrite !length_insert. repeat split; try assumption.
    apply Forall_insert; [assumption | discriminate].
  - rewrite !take_S_insert by lia. repeat split. unfold first_seq_ids.
    rewrite map_app. reflexivity.
Qed.

Lemma add_prompt_tokens_layout cap toks : forall (n : nat) i batch batch',
  batch_shape cap batch -> n_tokens batch = Z.of_nat n -> (n <= cap)%nat ->
  add_prompt_tokens toks i batch = Ok batch' ->
  n_tokens batch' = Z.of_nat (n + length toks)
  /\ batch_shape cap batch' /\ (n + length toks <= cap)%nat
  /\ take (n + length toks) (token batch') = take n (token batch) ++ toks
  /\ take (n + length toks) (pos batch') = take n (pos batch) ++ positions i (length toks)
  /\ take (n + length toks) (n_seq_id batch')
     = take n (n_seq_id batch) ++ replicate (length toks) 1
  /\ first_seq_ids (take (n + length toks) (seq_id batch'))
     = first_seq_ids (take n (seq_id batch)) ++ replicate (length toks) (Some 0)
  /\ take (n + length toks) (logits batch')
     = take n (logits batch) ++ replicate (length toks) false.
Proof.
  induction toks as [|tok toks IH]; intros n i batch batch' Hshape Hn Hcap; simpl.
  - intros [= <-]. rewrite Nat.add_0_r, !app_nil_r. repeat split; try assumption.
    all: apply Hshape.
  - rewrite Hn.
    destruct (Nat.lt_ge_cases n cap) as [Hlt|Hge].
    2:{ rewrite (fill_entry_out cap) by (assumption || lia). discriminate. }
    destruct (fill_entry_written cap batch n tok i false Hshape Hlt)
      as (b1 & -> & Hshape1 & Hn1 & Ht & Hp & Hq & Hs & Hl).
    cbn [bind]. intros Hrest.
    apply (IH (S n)) in Hrest; [| exact Hshape1 | simpl; lia | lia].
    simpl in Hrest. rewrite positions_S.
    replace (n + S (length toks))%nat with (S (n + length toks)) by lia.
    destruct Hrest as (H1 & H2 & H3 & H4 & H5 & H6 & H7 & H8).
    split; [exact H1|]. split; [exact H2|]. split; [lia|].
    rewrite H4, H5, H6, H7, H8, Ht, Hp, Hq, Hs, Hl, <- !app_assoc. repeat split.
Qed.

Lemma prompt_batch_written capacity (toks : list llama_token) batch :
  prompt_batch capacity toks = Ok batch ->
  let n := length toks in
  n_tokens batch = Z.of_nat n
  /\ take n (token batch) = toks
  /\ take n (pos batch) = positions 0 n
  /\ take n (n_seq_id batch) = replicate n 1
  /\ first_seq_ids (take n (seq_id batch)) = replicate n (Some 0)
  /\ take n (logits batch)
     = match n with O => [] | S m => replicate m false ++ [true] end.
Proof.
  unfold prompt_batch.
  destruct (add_prompt_tokens toks 0 (set_n_tokens 0 (llama_batch_init capacity 0 1)))
    as [b|] eqn:Hadd; [|discriminate]. cbn [bind].
  apply (add_prompt_tokens_layout (Z.to_nat capacity) toks 0) in Hadd;
    [| apply llama_batch_init_shape | reflexivity | lia].
  rewrite !Nat.add_0_l in Hadd. rewrite !take_0 in Hadd.
  destruct Hadd as (Hn & Hshape & Hcap & Ht & Hp & Hq & Hs & Hl).
  change (first_seq_ids [] ++ ?l) with l in Hs. rewrite !app_nil_l in *.
  destruct toks as [|tok toks].
  - rewrite Hn. simpl. intros [= <-]. repeat split; assumption.
  - assert (Hpos : (0 <? n_tokens b) = true) by (apply Z.ltb_lt; simpl in Hn; lia).
    rewrite Hpos.
    pose proof Hshape as (_ & _ & _ & _ & Hlen & _).
    simpl length in *.
    rewrite store_in by lia. cbn [bind]. intros [= <-]. cbn zeta. simpl n_tokens.
    simpl token. simpl pos. simpl n_seq_id. simpl seq_id. simpl logits.
    split; [exact Hn|]. split; [exact Ht|]. split; [exact Hp|].
    split; [exact Hq|]. split; [exact Hs|].
    replace (Z.to_nat (n_tokens b - 1)) with (length toks) by lia.
    rewrite take_S_insert by lia. f_equal.
    apply (f_equal (take (length toks))) in Hl.
    rewrite take_take, Nat.min_l in Hl by lia. rewrite Hl.
    rewrite take_replicate. f_equal. lia.
Qed.

(** X8: when the prompt batch can be built, it holds exactly the
    prompt: the tokens in order, at positions 0, 1, 2, ..., each in
    the single sequence 0, and only the last entry asks for logits. *)
Theorem prompt_batch_layout capacity (toks : list llama_token) :
  match prompt_batch capacity toks with
  | Ok batch =>
    let n := length toks in
    n_tokens batch = Z.of_nat n
    /\ take n (token batch) = toks
    /\ take n (pos batch) = positions 0 n
    /\ take n (n_seq_id batch) = replicate n 1
    /\ first_seq_ids (take n (seq_id batch)) = replicate n (Some 0)
    /\ take n (logits batch)
       = match n with O => [] | S m => replicate m false ++ [true] end
  | Undefined _ => True
  end.
Proof.
  destruct (prompt_batch capacity toks) as [batch|] eqn:H; [|exact I].
  apply (prompt_batch_written capacity). exact H.
Qed.

(** *** The history of a generation *)

Lemma grows_by_refl P s : grows_by P s s.
Proof. exists []. rewrite app_nil_r. auto. Qed.

Lemma grows_by_trans P s1 s2 s3 : grows_by P s1 s2 -> grows_by P s2 s3 -> grows_by P s1 s3.
Proof.
  intros (evs1 & He1 & H1) (evs2 & He2 & H2). exists (evs1 ++ evs2).
  rewrite He2, He1, app_assoc, forallb_app, H1, H2. auto.
Qed.

Lemma positions_0 first : positions first 0 = [].
Proof. reflexivity. Qed.

Lemma positions_1 first : positions first 1 = [first].
Proof. rewrite positions_S, positions_0. reflexivity. Qed.

Lemma decoded_positions_app (evs1 evs2 : list (event E)) :
  decoded_positions (evs1 ++ evs2) = decoded_positions evs1 ++ decoded_positions evs2.
Proof. apply flat_map_app. Qed.

(** The batch of a generated token holds that one token, at the
    position it was given. *)
Lemma next_token_batch_pos batch tok n_cur b :
  next_token_batch batch tok n_cur = Ok b ->
  n_tokens b = 1 /\ take 1 (pos b) = [n_cur].
Proof.
  unfold next_token_batch, fill_entry. cbn [set_n_tokens token pos n_seq_id seq_id logits].
  destruct (store (token batch) 0 tok); cbn [bind]; [|discriminate].
  unfold store at 1.
  destruct ((0 <=? 0) && (0 <? Z.of_nat (length (pos batch)))) eqn:Hin; cbn [bind];
    [|discriminate].
  destruct (store (n_seq_id batch) 0 1); cbn [bind]; [|discriminate].
  destruct (store_row0 (seq_id batch) 0 0); cbn [bind]; [|discriminate].
  destruct (store (logits batch) 0 true); cbn [bind]; [|discriminate].
  intros [= <-]. simpl. split; [reflexivity|].
  destruct (pos batch); [discriminate | reflexivity].
Qed.

Lemma generation_step_history {A} (cb : string -> A -> A) m batch n_cur s a r :
  generation_step cb m batch n_cur s a = Ok r ->
  exists evs,
    events (match r with Break s' _ => s' | Continue _ s' _ => s' end) = events s ++ evs
    /\ forallb loop_event evs = true
    /\ decoded_positions evs = positions n_cur (length (callback_pieces evs))
    /\ match r with
       | Break _ _ => True
       | Continue _ _ _ => length (callback_pieces evs) = 1%nat
       end.
Proof.
  unfold generation_step, sampler_sample.
  destruct (sampler_ s) as [smp|]; [|discriminate].
  destruct (context_ s) as [c|] eqn:Hc; [|discriminate]. cbn [bind].
  destruct (llama_vocab_is_eog E _ _).
  { intros [= <-]. eexists [_]. simpl. repeat split. }
  unfold detokenize. simpl.
  assert (Hend : forall b, next_token_batch batch (llama_sampler_sample E smp c (-1)).1 n_cur
                           = Ok b ->
    take (Z.to_nat (n_tokens b)) (pos b) ++ [] = positions n_cur 1).
  { intros b Hb. apply next_token_batch_pos in Hb as [-> Hpos].
    change (Z.to_nat 1) with 1%nat. rewrite Hpos, positions_1. reflexivity. }
  destruct (_ <? 0); cbn [bind].
  - destruct (next_token_batch batch _ n_cur) as [b|]; cbn [bind]; [|discriminate].
    unfold decode. simpl. rewrite Hc. cbn [bind].
    destruct (negb _); intros [= <-]; eexists;
      (split; [simpl; rewrite <- !app_assoc; reflexivity|]);
      simpl; rewrite (Hend b eq_refl); repeat split.
  - destruct (256 <=? _); cbn [bind]; [discriminate|].
    destruct (next_token_batch batch _ n_cur) as [b|]; cbn [bind]; [|discriminate].
    unfold decode. simpl. rewrite Hc. cbn [bind].
    destruct (negb _); intros [= <-]; eexists;
      (split; [simpl; rewrite <- !app_assoc; reflexivity|]);
      simpl; rewrite (Hend b eq_refl); repeat split.
Qed.

Lemma positions_app first n k :
  positions first (n + k) = positions first n ++ positions (first + Z.of_nat n) k.
Proof.
  revert first. induction n as [|n IH]; intros first.
  - simpl. rewrite Z.add_0_r. reflexivity.
  - change (S n + k)%nat with (S (n + k)). rewrite !positions_S, IH. simpl.
    do 3 f_equal. lia.
Qed.

Lemma poll_cancel_events env k s : events (poll_cancel env k s) = events s.
Proof. unfold poll_cancel. destruct (cancel_requested env k); reflexivity. Qed.

Lemma generation_loop_history {A} env (cb : string -> A -> A) m remaining :
  forall batch n_cur k s a s' a',
  generation_loop env cb m remaining batch n_cur k s a = Ok (s', a') ->
  exists evs, events s' = events s ++ evs
    /\ forallb loop_event evs = true
    /\ decoded_positions evs = positions n_cur (length (callback_pieces evs)).
Proof.
  induction remaining as [|remaining IH]; intros batch n_cur k s a s' a'; simpl.
  - intros [= <- <-]. exists []. rewrite app_nil_r. auto.
  - destruct (shouldCancel_ (poll_cancel env k s)).
    + intros [= <- <-]. exists []. rewrite poll_cancel_events, app_nil_r. auto.
    + destruct (generation_step cb m batch n_cur (poll_cancel env k s) a) as [r|] eqn:Hstep;
        cbn [bind]; [|discriminate].
      apply generation_step_history in Hstep as (evs1 & He1 & Hl1 & Hd1 & Hn1).
      rewrite poll_cancel_events in He1.
      destruct r as [s1 a1|b1 s1 a1].
      * intros [= <- <-]. exists evs1. auto.
      * intros Hloop. apply IH in Hloop as (evs2 & He2 & Hl2 & Hd2).
        exists (evs1 ++ evs2).
        rewrite He2, He1, app_assoc, forallb_app, Hl1, Hl2, decoded_positions_app,
          callback_pieces_app, length_app, Hd1, Hd2, Hn1, positions_app.
        repeat split.
Qed.

Lemma stub_loop_history {A} env (cb : string -> A -> A) ws :
  forall k s a, exists evs,
    events (stub_loop env cb ws k s a).1 = events s ++ evs
    /\ forallb loop_event evs = true /\ decoded_positions evs = [].
Proof.
  induction ws as [|w ws IH]; intros k s a; simpl.
  - exists []. rewrite app_nil_r. auto.
  - destruct (shouldCancel_ (poll_cancel env k s)).
    + exists []. simpl. rewrite poll_cancel_events, app_nil_r. auto.
    + match goal with
      | |- context [stub_loop env cb ws ?kk ?st ?aa] =>
        destruct (IH kk st aa) as (evs & He & Hl & Hd)
      end.
      exists (ev_callback (w +:+ " ") :: evs). rewrite He. simpl.
      rewrite poll_cancel_events, <- app_assoc, Hl, Hd. auto.
Qed.

(** *** At most one at a time *)

Lemma never_two_nil (delta : event E -> Z) : never_two delta [].
Proof. intros k. rewrite take_nil. unfold live. simpl. lia. Qed.

Lemma never_two_last (delta : event E -> Z) evs :
  never_two delta evs -> 0 <= live delta evs <= 1.
Proof. intros H. specialize (H (length evs)). rewrite firstn_all in H. exact H. Qed.

Lemma never_two_app (delta : event E -> Z) evs1 evs2 :
  never_two delta evs1 ->
  (forall k, 0 <= live delta evs1 + live delta (take k evs2) <= 1) ->
  never_two delta (evs1 ++ evs2).
Proof.
  intros H1 H2 k. rewrite take_app, live_app.
  destruct (Nat.le_gt_cases k (length evs1)) as [Hle|Hgt].
  - replace (k - length evs1)%nat with 0%nat by lia.
    rewrite take_0. unfold live at 2. simpl. specialize (H1 k). lia.
  - rewrite take_ge by lia. apply H2.
Qed.

Lemma live_zero (delta : event E -> Z) evs :
  Forall (fun ev => delta ev = 0) evs -> live delta evs = 0.
Proof.
  induction 1 as [|ev evs Hev _ IH]; [reflexivity|].
  unfold live in *. simpl. lia.
Qed.

Lemma never_two_zero (delta : event E -> Z) evs1 evs2 :
  never_two delta evs1 -> Forall (fun ev => delta ev = 0) evs2 ->
  never_two delta (evs1 ++ evs2).
Proof.
  intros H1 H2. apply never_two_app; [exact H1|].
  intros k. rewrite (live_zero delta (take k evs2)) by (apply Forall_take; exact H2).
  apply never_two_last in H1. lia.
Qed.

Lemma forallb_Forall (P : event E -> bool) (Q : event E -> Prop) evs :
  (forall ev, P ev = true -> Q ev) -> forallb P evs = true -> Forall Q evs.
Proof.
  intros HPQ. induction evs as [|ev evs IH]; simpl; [constructor|].
  intros H. apply andb_prop in H as [Hev H]. constructor; auto.
Qed.

(** What the events of a generation have in common. *)
Lemma call_event_facts (ev : event E) :
  call_event ev = true ->
  delta_model ev = 0 /\ delta_context ev = 0 /\ delta_sampler ev = 0
  /\ lifecycle_event ev = false.
Proof. destruct ev; simpl; intros H; try discriminate; repeat split. Qed.

Lemma loop_event_facts (ev : event E) :
  loop_event ev = true -> call_event ev = true /\ delta_batch ev = 0.
Proof. destruct ev; simpl; intros H; try discriminate; repeat split. Qed.

(** [setupSampler] frees the chain it finds, starts a new one and adds
    stages to it. *)
Lemma setupSampler_history now config s :
  exists adds,
    events (setupSampler now config s)
    = events s ++ (match sampler_ s with Some smp => [ev_sampler_free smp] | None => [] end
                   ++ [ev_sampler_chain_init]) ++ adds
    /\ forallb stage_event adds = true.
Proof.
  unfold setupSampler.
  destruct (float_ne (repeatPenalty config) float_one), (0 <? topK config),
    (float_lt (topP config) float_one), (float_gt (temperature config) float_zero),
    (sampler_ s); simpl; eexists;
    (split; [rewrite <- ?app_assoc; simpl; reflexivity | reflexivity]).
Qed.

Lemma stage_event_facts (adds : list (event E)) :
  forallb stage_event adds = true ->
  Forall (fun ev => delta_model ev = 0 /\ delta_context ev = 0 /\ delta_sampler ev = 0
                    /\ delta_batch ev = 0 /\ lifecycle_event ev = false) adds
  /\ decoded_positions adds = [] /\ callback_pieces adds = [].
Proof.
  induction adds as [|ev adds IH]; simpl; [repeat split; constructor|].
  intros H. apply andb_prop in H as [Hev H].
  destruct (IH H) as (IH1 & IH2 & IH3).
  destruct ev; try discriminate. simpl. repeat split; try assumption.
  constructor; [repeat split | exact IH1].
Qed.

Lemma tokenize_history (m : llama_model E) text addBos :
  forallb call_event (tokenize m text addBos).2 = true
  /\ Forall (fun ev => delta_batch ev = 0) (tokenize m text addBos).2
  /\ decoded_positions (tokenize m text addBos).2 = [].
Proof.
  unfold tokenize, call_tokenize.
  destruct (llama_tokenize E _ _ _ _ _) as [n1 t1]; cbn [fst snd].
  destruct (n1 <? 0).
  - destruct (llama_tokenize E _ _ _ _ _) as [n2 t2]; cbn [fst snd].
    destruct (n2 <? 0); simpl; repeat split; repeat constructor.
  - destruct (n1 <? 0); simpl; repeat split; repeat constructor.
Qed.

(** The events of a generation after the sampler chain is in place:
    the tokenizer calls, then nothing more, or a batch, the prompt
    decode, the token loop and the release of the batch. *)
Lemma generation_body_facts (calls loop_evs : list (event E)) cap pb ret n :
  forallb call_event calls = true ->
  Forall (fun ev => delta_batch ev = 0) calls ->
  decoded_positions calls = [] ->
  forallb loop_event loop_evs = true ->
  n_tokens pb = Z.of_nat n ->
  take n (pos pb) = positions 0 n ->
  decoded_positions loop_evs
  = positions (Z.of_nat n) (length (callback_pieces loop_evs)) ->
  callback_pieces calls = [] ->
  let body := calls ++ [ev_batch_init cap 0 1; ev_decode pb ret] ++ loop_evs
                    ++ [ev_batch_free; ev_isGenerating false] in
  forallb call_event body = true
  /\ never_two delta_batch body
  /\ live delta_batch body = 0
  /\ decoded_positions body = positions 0 (n + length (callback_pieces body)).
Proof.
  intros Hc Hz Hd Hl Hn Hpos Hdl Hcp body. subst body.
  assert (Hlc : forallb call_event loop_evs = true).
  { apply forallb_forall. intros ev Hin. rewrite forallb_forall in Hl.
    apply loop_event_facts, Hl, Hin. }
  assert (Hlz : Forall (fun ev => delta_batch ev = 0) loop_evs).
  { eapply forallb_Forall; [|exact Hl]. intros ev Hev. apply loop_event_facts, Hev. }
  split; [|split; [|split]].
  - rewrite !forallb_app, Hc, Hlc. reflexivity.
  - rewrite !app_assoc.
    apply never_two_app.
    2:{ intros k. rewrite !live_app, (live_zero _ calls Hz), (live_zero _ loop_evs Hlz).
        destruct k as [|[|[|k]]]; unfold live; simpl; lia. }
    apply never_two_zero; [|exact Hlz].
    apply never_two_app.
    2:{ intros k. rewrite (live_zero _ calls Hz).
        destruct k as [|[|[|k]]]; unfold live; simpl; lia. }
    apply (never_two_zero _ []); [apply never_two_nil | exact Hz].
  - rewrite !live_app, (live_zero _ calls Hz), (live_zero _ loop_evs Hlz).
    unfold live. simpl. reflexivity.
  - rewrite !decoded_positions_app, !callback_pieces_app, Hd, Hcp, Hdl. simpl.
    rewrite Hn, Nat2Z.id, Hpos, !app_nil_r, positions_app. reflexivity.
Qed.

Lemma generateStream_history {A} (LLAMA_AVAILABLE : bool) env prompt (cb : string -> A -> A)
    config s a s' a' :
  generateStream LLAMA_AVAILABLE env prompt cb config s a = Ok (s', a') ->
  isModelLoaded LLAMA_AVAILABLE s = true ->
  exists setup body,
    events s' = events s ++ [ev_isGenerating true] ++ setup ++ body
    /\ (setup = []
        \/ exists adds,
             setup = (match sampler_ s with Some smp => [ev_sampler_free smp] | None => [] end
                      ++ [ev_sampler_chain_init]) ++ adds
             /\ forallb stage_event adds = true)
    /\ forallb call_event body = true
    /\ never_two delta_batch body
    /\ live delta_batch body = 0
    /\ (decoded_positions body = []
        \/ exists m, model_ s = Some m
             /\ decoded_positions body
                = positions 0 (length (tokenize m prompt true).1
                               + length (callback_pieces body))).
Proof.
  unfold generateStream.
  assert (Hl : isModelLoaded LLAMA_AVAILABLE (clearError s) = isModelLoaded LLAMA_AVAILABLE s)
    by (destruct s; reflexivity).
  rewrite Hl. intros H Hloaded. rewrite Hloaded in H. cbn [negb] in H. revert H.
  set (s0 := set_shouldCancel_ false (set_isGenerating_ true (clearError s))).
  (* the short bodies: calm events, then the last write of [isGenerating_] *)
  assert (Hshort : forall evs : list (event E),
    forallb call_event evs = true -> Forall (fun ev => delta_batch ev = 0) evs ->
    decoded_positions evs = [] ->
    forallb call_event (evs ++ [ev_isGenerating false]) = true
    /\ never_two delta_batch (evs ++ [ev_isGenerating false])
    /\ live delta_batch (evs ++ [ev_isGenerating false]) = 0
    /\ (decoded_positions (evs ++ [ev_isGenerating false]) = []
        \/ exists m, model_ s = Some m
             /\ decoded_positions (evs ++ [ev_isGenerating false])
                = positions 0 (length (tokenize m prompt true).1
                               + length (callback_pieces (evs ++ [ev_isGenerating false]))))).
  { intros evs Hc Hz Hd.
    assert (Hz' : Forall (fun ev => delta_batch ev = 0) (evs ++ [@ev_isGenerating E false]))
      by (apply Forall_app; split; [exact Hz | repeat constructor]).
    split; [rewrite forallb_app, Hc; reflexivity|].
    split; [apply (never_two_zero _ []); [apply never_two_nil | exact Hz']|].
    split; [apply live_zero; exact Hz'|].
    left. rewrite decoded_positions_app, Hd. reflexivity. }
  destruct LLAMA_AVAILABLE.
  - set (s1 := match config with Some c => setupSampler _ _ _ | None => _ end).
    assert (Hs1 : exists setup,
      events s1 = events s ++ [ev_isGenerating true] ++ setup
      /\ model_ s1 = model_ s
      /\ (setup = []
          \/ exists adds,
               setup = (match sampler_ s with
                        | Some smp => [ev_sampler_free smp] | None => [] end
                        ++ [ev_sampler_chain_init]) ++ adds
               /\ forallb stage_event adds = true)).
    { subst s1. destruct config as [c|].
      - destruct (setupSampler_history (time_now env) c s0) as (adds & He & Hadds).
        destruct (setupSampler_frame (time_now env) c s0) as (Hm & _).
        exists ((match sampler_ s with Some smp => [ev_sampler_free smp] | None => [] end
                 ++ [ev_sampler_chain_init]) ++ adds).
        split; [rewrite He; subst s0; simpl; rewrite <- !app_assoc; reflexivity|].
        split; [rewrite Hm; reflexivity|]. right. exists adds. auto.
      - exists []. subst s0. simpl. auto. }
    destruct Hs1 as (setup & He1 & Hm1 & Hsetup).
    destruct (model_ s1) as [m|] eqn:Hm; [|discriminate].
    destruct (tokenize_history m prompt true) as (Hcalls & Hcz & Hcd).
    destruct (tokenize_calls_quiet m prompt true) as [Hcp _].
    assert (Hms : model_ s = Some m) by congruence.
    remember (tokenize m prompt true) as tk eqn:Htk. destruct tk as [toks calls].
    cbn [fst snd] in *.
    assert (Hfail : forall e,
      exists setup0 body,
        events (set_isGenerating_ false (setError e (add_events calls s1)))
        = events s ++ [ev_isGenerating true] ++ setup0 ++ body
        /\ (setup0 = []
            \/ exists adds,
                 setup0 = (match sampler_ s with
                           | Some smp => [ev_sampler_free smp] | None => [] end
                           ++ [ev_sampler_chain_init]) ++ adds
                 /\ forallb stage_event adds = true)
        /\ forallb call_event body = true
        /\ never_two delta_batch body
        /\ live delta_batch body = 0
        /\ (decoded_positions body = []
            \/ exists m0, model_ s = Some m0
                 /\ decoded_positions body
                    = positions 0 (length (tokenize m0 prompt true).1
                                   + length (callback_pieces body)))).
    { intros e. exists setup, (calls ++ [ev_isGenerating false]).
      split; [simpl; rewrite He1, <- !app_assoc; reflexivity|]. split; [exact Hsetup|].
      apply Hshort; assumption. }
    destruct toks as [|tok toks].
    { intros [= <- <-]. apply Hfail. }
    destruct (get_n_ctx (add_events calls s1)) as [n|]; cbn [bind]; [|discriminate].
    destruct (n - 4 <? _).
    { intros [= <- <-]. apply Hfail. }
    clear Hfail. unfold decode_prompt_and_generate.
    destruct (prompt_batch _ _) as [pb|] eqn:Hpb; cbn [bind]; [|discriminate].
    apply prompt_batch_written in Hpb as (Hn & _ & Hpos & _). cbn zeta in Hn, Hpos.
    unfold decode. simpl context_. destruct (context_ s1) as [c|]; cbn [bind]; [|discriminate].
    cbn [fst snd].
    destruct (negb _).
    { intros [= <- <-].
      exists setup, (calls ++ [ev_batch_init
                                 (batchSize match config with
                                            | Some c0 => c0
                                            | None => currentConfig_ (clearError s)
                                            end) 0 1;
                               ev_decode pb (llama_decode E c pb).1] ++ []
                           ++ [ev_batch_free; ev_isGenerating false]).
      split; [simpl; rewrite He1, <- !app_assoc; reflexivity|]. split; [exact Hsetup|].
      edestruct (generation_body_facts calls []) as (F1 & F2 & F3 & F4);
        [exact Hcalls | exact Hcz | exact Hcd | reflexivity | exact Hn | exact Hpos
        | reflexivity | exact Hcp |].
      split; [exact F1|]. split; [exact F2|]. split; [exact F3|].
      right. exists m. split; [exact Hms|]. rewrite <- Htk. exact F4. }
    match goal with
    | |- context [generation_loop ?e ?f ?mm ?r ?bb ?nn ?k ?st ?aa] =>
      destruct (generation_loop e f mm r bb nn k st aa) as [[s4 a4]|] eqn:Hloop
    end; cbn [bind]; [|discriminate].
    apply generation_loop_history in Hloop as (levs & Hel & Hll & Hdl).
    rewrite Hn in Hdl.
    intros [= <- <-].
    exists setup, (calls ++ [ev_batch_init
                               (batchSize match config with
                                          | Some c0 => c0
                                          | None => currentConfig_ (clearError s)
                                          end) 0 1;
                             ev_decode pb (llama_decode E c pb).1] ++ levs
                         ++ [ev_batch_free; ev_isGenerating false]).
    split; [simpl; rewrite Hel; simpl; rewrite He1, <- !app_assoc; reflexivity|].
    split; [exact Hsetup|].
    edestruct (generation_body_facts calls levs) as (F1 & F2 & F3 & F4);
      [exact Hcalls | exact Hcz | exact Hcd | exact Hll | exact Hn | exact Hpos
      | exact Hdl | exact Hcp |].
    split; [exact F1|]. split; [exact F2|]. split; [exact F3|].
    right. exists m. split; [exact Hms|]. rewrite <- Htk. exact F4.
  - match goal with
    | |- context [stub_loop ?e ?f ?ws ?k ?st ?aa] =>
      destruct (stub_loop_history e f ws k st aa) as (evs & He & Hl' & Hd);
      destruct (stub_loop e f ws k st aa) as [s2 a2]
    end.
    simpl in He. intros [= <- <-].
    exists [], (evs ++ [ev_isGenerating false]).
    split; [simpl; rewrite He, <- !app_assoc; reflexivity|].
    split; [left; reflexivity|].
    apply Hshort; [| |exact Hd].
    + apply forallb_forall. intros ev Hin. rewrite forallb_forall in Hl'.
      apply loop_event_facts, Hl', Hin.
    + eapply forallb_Forall; [|exact Hl']. intros ev Hev. apply loop_event_facts, Hev.
Qed.

Lemma setup_facts (o : option (llama_sampler E)) (setup : list (event E)) :
  (setup = []
   \/ exists adds,
        setup = (match o with Some smp => [ev_sampler_free smp] | None => [] end
                 ++ [ev_sampler_chain_init]) ++ adds
        /\ forallb stage_event adds = true) ->
  Forall (fun ev => delta_model ev = 0 /\ delta_context ev = 0 /\ delta_batch ev = 0
                    /\ lifecycle_event ev = false) setup
  /\ decoded_positions setup = [] /\ callback_pieces setup = [].
Proof.
  intros [->|(adds & -> & Hadds)]; [split; [constructor | split; reflexivity]|].
  apply stage_event_facts in Hadds as (Hadds & Hd & Hcp).
  split; [|split].
  - apply Forall_app. split.
    + destruct o; repeat constructor.
    + eapply Forall_impl; [exact Hadds|]. simpl. tauto.
  - rewrite decoded_positions_app, Hd. destruct o; reflexivity.
  - rewrite callback_pieces_app, Hcp. destruct o; reflexivity.
Qed.

(** X9: a generation holds at most one batch at a time, releases
    no batch it does not hold, and holds none when it returns: the
    batch is released on the failure paths as well. *)
Theorem generation_releases_its_batch {A} (LLAMA_AVAILABLE : bool) env prompt
    (cb : string -> A -> A) config s a :
  match generateStream LLAMA_AVAILABLE env prompt cb config s a with
  | Ok (s', _) =>
    exists evs, events s' = events s ++ evs
      /\ never_two delta_batch evs /\ live delta_batch evs = 0
  | Undefined _ => True
  end.
Proof.
  destruct (generateStream LLAMA_AVAILABLE env prompt cb config s a) as [[s' a']|] eqn:H;
    [|exact I].
  destruct (isModelLoaded LLAMA_AVAILABLE s) eqn:Hloaded.
  - destruct (generateStream_history _ _ _ _ _ _ _ _ _ H Hloaded)
      as (setup & body & He & Hsetup & _ & Hnever & Hlive & _).
    apply (setup_facts (sampler_ s)) in Hsetup as (Hsetup & _).
    assert (Hz : Forall (fun ev => delta_batch ev = 0) ([@ev_isGenerating E true] ++ setup)).
    { apply Forall_app. split; [repeat constructor|].
      eapply Forall_impl; [exact Hsetup|]. simpl. tauto. }
    exists ([ev_isGenerating true] ++ setup ++ body). split; [exact He|].
    rewrite app_assoc. split.
    + apply never_two_app; [apply (never_two_zero _ []); [apply never_two_nil | exact Hz]|].
      intros k. rewrite (live_zero _ _ Hz). specialize (Hnever k). lia.
    + rewrite live_app, (live_zero _ _ Hz), Hlive. reflexivity.
  - revert H. unfold generateStream.
    replace (isModelLoaded LLAMA_AVAILABLE (clearError s)) with false
      by (rewrite <- Hloaded; destruct s; reflexivity).
    cbn [negb]. intros [= <- <-]. exists []. simpl. rewrite app_nil_r.
    split; [reflexivity|]. split; [apply never_two_nil | reflexivity].
Qed.

Lemma generateStream_no_lifecycle {A} (LLAMA_AVAILABLE : bool) env prompt
    (cb : string -> A -> A) config s a s' a' :
  generateStream LLAMA_AVAILABLE env prompt cb config s a = Ok (s', a') ->
  exists evs, events s' = events s ++ evs
    /\ Forall (fun ev => lifecycle_event ev = false) evs.
Proof.
  intros H.
  destruct (isModelLoaded LLAMA_AVAILABLE s) eqn:Hloaded.
  - destruct (generateStream_history _ _ _ _ _ _ _ _ _ H Hloaded)
      as (setup & body & He & Hsetup & Hbody & _).
    apply (setup_facts (sampler_ s)) in Hsetup as (Hsetup & _).
    exists ([ev_isGenerating true] ++ setup ++ body). split; [exact He|].
    apply Forall_app. split; [repeat constructor|].
    apply Forall_app. split.
    + eapply Forall_impl; [exact Hsetup|]. simpl. tauto.
    + eapply forallb_Forall; [|exact Hbody]. intros ev Hev. apply call_event_facts, Hev.
  - revert H. unfold generateStream.
    replace (isModelLoaded LLAMA_AVAILABLE (clearError s)) with false
      by (rewrite <- Hloaded; destruct s; reflexivity).
    cbn [negb]. intros [= <- <-]. exists []. simpl. rewrite app_nil_r.
    split; [reflexivity | constructor].
Qed.

(** X5: a generation neither loads nor frees a model or a context
    and does not touch the backend. *)
Theorem generation_leaves_lifetimes_alone {A} (LLAMA_AVAILABLE : bool) env prompt
    (cb : string -> A -> A) config s a :
  match generateStream LLAMA_AVAILABLE env prompt cb config s a with
  | Ok (s', _) =>
    exists evs, events s' = events s ++ evs
      /\ Forall (fun ev => lifecycle_event ev = false) evs
  | Undefined _ => True
  end.
Proof.
  destruct (generateStream LLAMA_AVAILABLE env prompt cb config s a) as [[s' a']|] eqn:H;
    [|exact I].
  eapply generateStream_no_lifecycle. exact H.
Qed.

(** *** One model, one context, one sampler chain *)

Lemma one_at_a_time_app (evs1 evs2 : list (event E)) :
  one_at_a_time evs1 ->
  (forall k, 0 <= live delta_model evs1 + live delta_model (take k evs2) <= 1
             /\ 0 <= live delta_context evs1 + live delta_context (take k evs2) <= 1
             /\ 0 <= live delta_sampler evs1 + live delta_sampler (take k evs2) <= 1) ->
  one_at_a_time (evs1 ++ evs2).
Proof.
  intros (Hm & Hc & Hs) H.
  split; [|split]; apply never_two_app; try assumption; intros k; apply H.
Qed.

Lemma one_at_a_time_zero (evs1 evs2 : list (event E)) :
  one_at_a_time evs1 ->
  Forall (fun ev => delta_model ev = 0 /\ delta_context ev = 0 /\ delta_sampler ev = 0) evs2 ->
  one_at_a_time (evs1 ++ evs2).
Proof.
  intros (Hm & Hc & Hs) H.
  split; [|split]; apply never_two_zero; try assumption;
    (eapply Forall_impl; [exact H|]; simpl; tauto).
Qed.

Lemma one_at_a_time_unloadModel (LLAMA_AVAILABLE : bool) s :
  wf LLAMA_AVAILABLE s = true -> one_at_a_time (events s) ->
  one_at_a_time (events (unloadModel LLAMA_AVAILABLE s)).
Proof.
  intros Hwf H.
  destruct (unloadModel_teardown LLAMA_AVAILABLE s Hwf) as (-> & _).
  apply wf_iff in Hwf as (_ & Hm & Hc & Hs & _).
  apply one_at_a_time_app; [exact H|].
  rewrite Hm, Hc, Hs. unfold teardown.
  destruct (model_ s), (context_ s), (sampler_ s); simpl; intros k;
    destruct k as [|[|[|[|k']]]]; unfold live; simpl; lia.
Qed.

Lemma one_at_a_time_loadModel (LLAMA_AVAILABLE : bool) env path config s :
  wf LLAMA_AVAILABLE s = true -> one_at_a_time (events s) ->
  one_at_a_time (events (loadModel LLAMA_AVAILABLE env path config s).2).
Proof.
  intros Hwf H. unfold loadModel.
  destruct LLAMA_AVAILABLE; [|exact H].
  assert (Hwfc : wf true (clearError s) = true) by (destruct s; exact Hwf).
  assert (Hc : one_at_a_time (events (clearError s))) by exact H.
  destruct (unloadModel_teardown true (clearError s) Hwfc) as (_ & Hun & Hwf').
  pose proof (one_at_a_time_unloadModel true (clearError s) Hwfc Hc) as Hu.
  assert (Hpre : match model_ (clearError s) with
                 | Some _ => unloadModel true (clearError s)
                 | None => clearError s
                 end = unloadModel true (clearError s)).
  { destruct (model_ (clearError s)) eqn:Hm; [reflexivity|].
    symmetry. apply unloadModel_unloaded.
    clear - Hwf Hm. destruct s as [[m|] [c|] [smp|] ? ? ? ? ?]; try discriminate;
      unfold wf, handles_paired in Hwf; simpl in Hwf; try discriminate. reflexivity. }
  rewrite Hpre. set (u := unloadModel true (clearError s)) in *.
  assert (Hh : model_ u = None /\ context_ u = None /\ sampler_ u = None).
  { unfold unloaded in Hun. destruct (model_ u), (context_ u), (sampler_ u);
      try discriminate. auto. }
  destruct Hh as (Hum & Huc & Hus).
  apply wf_iff in Hwf' as (_ & Hlm & Hlc & Hls & _).
  rewrite Hum in Hlm. rewrite Huc in Hlc. rewrite Hus in Hls. simpl in Hlm, Hlc, Hls.
  destruct (llama_model_load_from_file E path _) as [m|]; cbn [fst snd].
  - destruct (llama_init_from_model E m _) as [c|]; cbn [fst snd].
    + match goal with
      | |- context [setupSampler ?n ?cf ?x] =>
        destruct (setupSampler_history n cf x) as (adds & He & Hadds)
      end.
      simpl in He. rewrite Hus in He. simpl. rewrite He.
      apply stage_event_facts in Hadds as (Hadds & _).
      rewrite app_assoc. apply one_at_a_time_zero.
      2:{ eapply Forall_impl; [exact Hadds|]. simpl. tauto. }
      rewrite <- !app_assoc. apply one_at_a_time_app; [exact Hu|].
      rewrite Hlm, Hlc, Hls. simpl.
      intros k; destruct k as [|[|[|[|k']]]]; unfold live; simpl; lia.
    + simpl. rewrite <- !app_assoc. apply one_at_a_time_app; [exact Hu|].
      rewrite Hlm, Hlc, Hls. simpl.
      intros k; destruct k as [|[|[|[|k']]]]; unfold live; simpl; lia.
  - simpl. apply one_at_a_time_app; [exact Hu|].
    rewrite Hlm, Hlc, Hls.
    intros k; destruct k as [|[|k']]; unfold live; simpl; lia.
Qed.

Lemma one_at_a_time_generateStream {A} (LLAMA_AVAILABLE : bool) env prompt
    (cb : string -> A -> A) config s a s' a' :
  wf LLAMA_AVAILABLE s = true -> one_at_a_time (events s) ->
  generateStream LLAMA_AVAILABLE env prompt cb config s a = Ok (s', a') ->
  one_at_a_time (events s').
Proof.
  intros Hwf H Hgen.
  destruct (isModelLoaded LLAMA_AVAILABLE s) eqn:Hloaded.
  - destruct (generateStream_history _ _ _ _ _ _ _ _ _ Hgen Hloaded)
      as (setup & body & -> & Hsetup & Hbody & _).
    apply wf_iff in Hwf as (_ & _ & _ & Hs & _).
    rewrite !app_assoc. apply one_at_a_time_zero.
    2:{ eapply forallb_Forall; [|exact Hbody]. intros ev Hev.
        apply call_event_facts in Hev. tauto. }
    assert (H1 : one_at_a_time (events s ++ [ev_isGenerating true]))
      by (apply one_at_a_time_zero; [exact H | repeat constructor]).
    destruct Hsetup as [->|(adds & -> & Hadds)]; [rewrite app_nil_r; exact H1|].
    apply stage_event_facts in Hadds as (Hadds & _).
    rewrite app_assoc. apply one_at_a_time_zero.
    2:{ eapply Forall_impl; [exact Hadds|]. simpl. tauto. }
    apply one_at_a_time_app; [exact H1|].
    destruct H as (Hm & Hc & _).
    apply never_two_last in Hm, Hc.
    rewrite !live_snoc, Hs. simpl.
    set (lm := live delta_model (events s)) in *.
    set (lc := live delta_context (events s)) in *.
    destruct (sampler_ s); simpl; intros k;
      destruct k as [|[|[|k']]]; unfold live; simpl; lia.
  - revert Hgen. unfold generateStream.
    replace (isModelLoaded LLAMA_AVAILABLE (clearError s)) with false
      by (rewrite <- Hloaded; destruct s; reflexivity).
    cbn [negb]. intros [= <- <-]. exact H.
Qed.

(** X11: at no point in the life of a session are two models, two
    contexts or two sampler chains live, and nothing is freed that is
    not live: an old model is torn down before the next one is loaded,
    and an old sampler chain is freed before its replacement is
    built. *)
Theorem one_model_at_a_time (LLAMA_AVAILABLE : bool) s :
  reachable LLAMA_AVAILABLE s -> one_at_a_time (events s).
Proof.
  induction 1 as [defaults|env path config s Hr IH|s Hr IH
                  |A env prompt cb config s a s' a' Hr IH Hgen|s Hr IH].
  - apply (one_at_a_time_zero []).
    + split; [|split]; apply never_two_nil.
    + simpl. destruct LLAMA_AVAILABLE; repeat constructor.
  - apply one_at_a_time_loadModel; [apply reachable_wf; exact Hr | exact IH].
  - apply one_at_a_time_unloadModel; [apply reachable_wf; exact Hr | exact IH].
  - eapply one_at_a_time_generateStream; [apply reachable_wf; exact Hr | exact IH | exact Hgen].
  - exact IH.
Qed.

(** *** The destructor *)

Lemma grows_by_events P (s s' : LlamaContextWrapper E) evs :
  events s' = events s ++ evs -> forallb P evs = true -> grows_by P s s'.
Proof. intros He H. exists evs. auto. Qed.

Lemma grows_by_same P (s s' : LlamaContextWrapper E) :
  events s' = events s -> grows_by P s s'.
Proof. intros He. exists []. rewrite app_nil_r. auto. Qed.

Lemma grows_by_live s s' :
  grows_by keeps_backend s s' ->
  live delta_backend (events s') = live delta_backend (events s).
Proof.
  intros (evs & -> & H). rewrite live_app, (live_zero _ evs); [lia|].
  eapply forallb_Forall; [|exact H]. intros ev Hev. apply Z.eqb_eq. exact Hev.
Qed.

Lemma unloadModel_backend (LLAMA_AVAILABLE : bool) s :
  grows_by keeps_backend s (unloadModel LLAMA_AVAILABLE s).
Proof.
  unfold unloadModel. destruct LLAMA_AVAILABLE; [|apply grows_by_refl].
  destruct s as [[m|] [c|] [smp|] cfg g sc err evs]; simpl;
    first [ apply grows_by_refl
          | eapply grows_by_events; [simpl; rewrite <- ?app_assoc; reflexivity | reflexivity] ].
Qed.

Lemma setupSampler_backend now config s :
  grows_by keeps_backend s (setupSampler now config s).
Proof.
  destruct (setupSampler_history now config s) as (adds & He & Hadds).
  eapply grows_by_events; [exact He|].
  rewrite !forallb_app.
  replace (forallb keeps_backend adds) with true.
  - destruct (sampler_ s); reflexivity.
  - symmetry. clear - Hadds. induction adds as [|ev adds IH]; [reflexivity|].
    simpl in *. apply andb_prop in Hadds as [Hev Hadds].
    rewrite (IH Hadds). destruct ev; try discriminate. reflexivity.
Qed.

Lemma loadModel_backend (LLAMA_AVAILABLE : bool) env path config s :
  grows_by keeps_backend s (loadModel LLAMA_AVAILABLE env path config s).2.
Proof.
  unfold loadModel. destruct LLAMA_AVAILABLE; [|apply grows_by_same; reflexivity].
  set (u := match model_ (clearError s) with
            | Some _ => unloadModel true (clearError s)
            | None => clearError s
            end).
  assert (Hu : grows_by keeps_backend s u).
  { subst u. destruct (model_ (clearError s)); [|apply grows_by_same; reflexivity].
    apply (grows_by_trans _ s (clearError s)); [apply grows_by_same; reflexivity|].
    apply unloadModel_backend. }
  destruct (llama_model_load_from_file E path _) as [m|]; cbn [fst snd].
  - destruct (llama_init_from_model E m _) as [c|]; cbn [fst snd].
    + eapply grows_by_trans; [exact Hu|].
      match goal with
      | |- grows_by _ _ (set_currentConfig_ _ (setupSampler ?n ?cf ?x)) =>
        apply (grows_by_trans _ u x);
          [|apply (grows_by_trans _ x (setupSampler n cf x));
            [apply setupSampler_backend | apply grows_by_same; reflexivity]]
      end.
      eapply grows_by_events; [simpl; rewrite <- ?app_assoc; reflexivity | reflexivity].
    + eapply grows_by_trans; [exact Hu|].
      eapply grows_by_events; [simpl; rewrite <- !app_assoc; reflexivity | reflexivity].
  - eapply grows_by_trans; [exact Hu|].
    eapply grows_by_events; [simpl; reflexivity | reflexivity].
Qed.

Lemma reachable_backend (LLAMA_AVAILABLE : bool) s :
  reachable LLAMA_AVAILABLE s ->
  live delta_backend (events s) = if LLAMA_AVAILABLE then 1 else 0.
Proof.
  induction 1 as [defaults|env path config s Hr IH|s Hr IH
                  |A env prompt cb config s a s' a' Hr IH Hgen|s Hr IH].
  - destruct LLAMA_AVAILABLE; reflexivity.
  - rewrite (grows_by_live s); [exact IH | apply loadModel_backend].
  - rewrite (grows_by_live s); [exact IH | apply unloadModel_backend].
  - apply generateStream_no_lifecycle in Hgen as (evs & -> & Hevs).
    rewrite live_app, (live_zero _ evs); [lia|].
    eapply Forall_impl; [exact Hevs|]. intros ev. destruct ev; simpl; congruence.
  - exact IH.
Qed.

(** X12: destroying a session, in whatever state a program has
    brought it to, leaves nothing behind: no model, no context, no
    sampler chain, and the backend released as often as it was
    initialised. *)
Theorem destructor_releases_everything (LLAMA_AVAILABLE : bool) s :
  reachable LLAMA_AVAILABLE s ->
  let s' := LlamaContextWrapper_delete LLAMA_AVAILABLE s in
  unloaded s' = true
  /\ live delta_model (events s') = 0
  /\ live delta_context (events s') = 0
  /\ live delta_sampler (events s') = 0
  /\ live delta_backend (events s') = 0.
Proof.
  intros Hr. pose proof (reachable_wf _ _ Hr) as Hwf.
  pose proof (reachable_backend _ _ Hr) as Hb.
  destruct (unloadModel_teardown LLAMA_AVAILABLE s Hwf) as (_ & Hun & Hwf').
  pose proof (grows_by_live _ _ (unloadModel_backend LLAMA_AVAILABLE s)) as Hbu.
  cbn zeta. unfold LlamaContextWrapper_delete.
  set (u := unloadModel LLAMA_AVAILABLE s) in *.
  apply wf_iff in Hwf' as (_ & Hm & Hc & Hs & _).
  assert (Hh : held (model_ u) = 0 /\ held (context_ u) = 0 /\ held (sampler_ u) = 0).
  { unfold unloaded in Hun. destruct (model_ u), (context_ u), (sampler_ u);
      try discriminate. auto. }
  destruct Hh as (Hhm & Hhc & Hhs).
  destruct LLAMA_AVAILABLE.
  - simpl. rewrite !live_snoc, Hm, Hc, Hs, Hbu, Hb, Hhm, Hhc, Hhs. simpl.
    repeat split. exact Hun.
  - rewrite Hm, Hc, Hs, Hbu, Hb, Hhm, Hhc, Hhs. repeat split. exact Hun.
Qed.

(** *** The detokenizer *)

Lemma detokenize_loop_app vocab (xs ys : list llama_token) : forall result calls,
  detokenize_loop (E:=E) vocab (xs ++ ys) result calls
  = do (r, c) <- detokenize_loop vocab xs result calls; detokenize_loop vocab ys r c.
Proof.
  induction xs as [|x xs IH]; intros result calls; simpl; [reflexivity|].
  destruct (_ <? 0); [apply IH|].
  destruct (256 <=? _); [reflexivity | apply IH].
Qed.

Lemma detokenize_loop_acc vocab (tokens : list llama_token) : forall result calls,
  detokenize_loop (E:=E) vocab tokens result calls
  = do (r, c) <- detokenize_loop vocab tokens "" []; Ok (result +:+ r, calls ++ c).
Proof.
  induction tokens as [|tok tokens IH]; intros result calls; simpl.
  - rewrite string_app_nil_r, app_nil_r. reflexivity.
  - destruct (_ <? 0).
    + rewrite IH. rewrite (IH "" [_]).
      destruct (detokenize_loop vocab tokens "" []) as [[r c]|]; cbn [bind]; [|reflexivity].
      rewrite <- app_assoc. reflexivity.
    + destruct (256 <=? _); [reflexivity|].
      rewrite IH. rewrite (IH (_ +:+ _) [_]).
      destruct (detokenize_loop vocab tokens "" []) as [[r c]|]; cbn [bind]; [|reflexivity].
      rewrite <- app_assoc, string_app_assoc. reflexivity.
Qed.

Lemma detokenize_app m (xs ys : list llama_token) :
  detokenize (E:=E) m (xs ++ ys)
  = do (a, calls_a) <- detokenize m xs;
    do (b, calls_b) <- detokenize m ys;
    Ok (a +:+ b, calls_a ++ calls_b).
Proof.
  unfold detokenize. rewrite detokenize_loop_app.
  destruct (detokenize_loop _ xs "" []) as [[a ca]|]; cbn [bind]; [|reflexivity].
  apply detokenize_loop_acc.
Qed.

(** X13: detokenizing a sequence gives the text of its first part
    followed by the text of the rest, with the same engine calls in
    the same order. *)
Theorem detokenize_append m (xs ys : list llama_token) :
  detokenize (E:=E) m (xs ++ ys)
  = do (a, calls_a) <- detokenize m xs;
    do (b, calls_b) <- detokenize m ys;
    Ok (a +:+ b, calls_a ++ calls_b).
Proof. apply detokenize_app. Qed.

Lemma no_nul_app (x y : string) : no_nul (x +:+ y) = no_nul x && no_nul y.
Proof.
  induction x as [|c x IH]; [reflexivity|].
  change (no_nul (String c (x +:+ y)) = no_nul (String c x) && no_nul y).
  simpl. rewrite IH, andb_assoc. reflexivity.
Qed.

Lemma c_str_no_nul buf : no_nul (c_str buf) = true.
Proof.
  induction buf as [|c buf IH]; [reflexivity|]. simpl.
  destruct (Ascii.eqb c Ascii.zero) eqn:Hc; [reflexivity|]. simpl. rewrite Hc, IH. reflexivity.
Qed.

Lemma c_str_length buf : (String.length (c_str buf) <= String.length buf)%nat.
Proof.
  induction buf as [|c buf IH]; [reflexivity|]. simpl.
  destruct (Ascii.eqb c Ascii.zero); simpl; lia.
Qed.

Lemma substring_length_le n : forall text, (String.length (substring 0 n text) <= n)%nat.
Proof.
  induction n as [|n IH]; intros text; destruct text as [|c text]; simpl; try lia.
  specialize (IH text). lia.
Qed.

Lemma string_length_app (x : string) : forall y,
  String.length (x +:+ y) = (String.length x + String.length y)%nat.
Proof.
  induction x as [|c x IH]; intros y; [reflexivity|].
  change (String.length (String c (x +:+ y)) = (S (String.length x) + String.length y)%nat).
  simpl. rewrite IH. reflexivity.
Qed.

Lemma detokenize_loop_text vocab (tokens : list llama_token) : forall result calls r c,
  detokenize_loop (E:=E) vocab tokens result calls = Ok (r, c) ->
  no_nul r = no_nul result
  /\ (String.length r <= String.length result + 255 * length tokens)%nat
  /\ length c = (length calls + length tokens)%nat.
Proof.
  induction tokens as [|tok tokens IH]; intros result calls r c; simpl.
  - intros [= <- <-]. repeat split; lia.
  - destruct (_ <? 0).
    + intros H. apply IH in H as (H1 & H2 & H3). rewrite length_app in H3. simpl in H3.
      repeat split; [exact H1 | lia | lia].
    + destruct (256 <=? _) eqn:Hn; [discriminate|].
      intros H. apply IH in H as (H1 & H2 & H3). rewrite length_app in H3. simpl in H3.
      rewrite no_nul_app, c_str_no_nul, andb_true_r in H1.
      rewrite string_length_app in H2.
      match type of H2 with
      | context [c_str (substring 0 ?n ?buf)] =>
        pose proof (c_str_length (substring 0 n buf));
        pose proof (substring_length_le n buf);
        assert (n <= 255)%nat by (apply Z.leb_gt in Hn; lia)
      end.
      repeat split; [exact H1 | lia | lia].
Qed.

(** X14: the text [detokenize] returns holds no NUL byte (a piece
    ends at its first NUL) and at most 255 bytes for each token, and
    the engine was asked once for each token, failing tokens
    included. *)
Theorem detokenize_text m (tokens : list llama_token) :
  match detokenize (E:=E) m tokens with
  | Ok (text, calls) =>
    no_nul text = true
    /\ (String.length text <= 255 * length tokens)%nat
    /\ length calls = length tokens
  | Undefined _ => True
  end.
Proof.
  destruct (detokenize m tokens) as [[text calls]|] eqn:H; [|exact I].
  unfold detokenize in H. apply detokenize_loop_text in H. simpl in H. exact H.
Qed.

(** *** The stub *)

Lemma stub_loop_prefix env ws : forall k (s : LlamaContextWrapper E) pieces,
  shouldCancel_ s = false ->
  exists j,
    (stub_loop env collect ws k s pieces).2
    = pieces ++ take j (map (fun w => w +:+ " ") ws)
    /\ (j <= length ws)%nat
    /\ ((j < length ws)%nat -> cancel_requested env (k + j) = true)
    /\ (forall i, (i < j)%nat -> cancel_requested env (k + i) = false).
Proof.
  induction ws as [|w ws IH]; intros k s pieces Hflag; simpl.
  - exists 0%nat. rewrite app_nil_r. repeat split; [lia | lia | intros i Hi; lia].
  - unfold poll_cancel at 1. destruct (cancel_requested env k) eqn:Hk; simpl.
    + exists 0%nat. simpl. rewrite app_nil_r, Nat.add_0_r.
      repeat split; [lia | auto | intros i Hi; lia].
    + rewrite Hflag.
      destruct (IH (S k) (emit (ev_callback (w +:+ " ")) (poll_cancel env k s))
                  (collect (w +:+ " ") pieces)) as (j & He & Hj & Hstop & Hrun).
      { unfold poll_cancel. rewrite Hk. exact Hflag. }
      exists (S j). rewrite He. unfold collect. simpl.
      rewrite <- app_assoc. simpl.
      split; [reflexivity|]. split; [lia|]. split.
      * intros Hlt. rewrite Nat.add_succ_r. apply Hstop. lia.
      * intros [|i] Hi; [rewrite Nat.add_0_r; exact Hk|].
        rewrite Nat.add_succ_r. apply Hrun. lia.
Qed.

Lemma stub_generateStream_pieces env prompt config (s s' : LlamaContextWrapper E) pieces :
  generateStream false env prompt collect config s [] = Ok (s', pieces) ->
  exists j,
    pieces = take j (canned_pieces prompt)
    /\ (j <= length (canned_pieces prompt))%nat
    /\ ((j < length (canned_pieces prompt))%nat -> cancel_requested env j = true)
    /\ (forall i, (i < j)%nat -> cancel_requested env i = false).
Proof.
  unfold generateStream, isModelLoaded. cbn [negb].
  match goal with
  | |- context [stub_loop ?e ?f ?ws ?k ?st ?aa] =>
    destruct (stub_loop_prefix e ws k st aa) as (j & He & Hj & Hstop & Hrun);
      [reflexivity|];
    destruct (stub_loop e f ws k st aa) as [s2 a2]
  end.
  simpl in He. intros [= <- <-]. exists j. unfold canned_pieces.
  rewrite length_map. rewrite He. auto.
Qed.

(** X15: the stub streams the words of its canned response in order,
    each followed by one space, up to the first word before which a
    cancellation is found, and all of them when none is. *)
Theorem stub_streams_the_canned_words env prompt config (s : LlamaContextWrapper E) :
  match generateStream false env prompt collect config s [] with
  | Ok (_, pieces) =>
    exists j,
      pieces = take j (canned_pieces prompt)
      /\ (j <= length (canned_pieces prompt))%nat
      /\ ((j < length (canned_pieces prompt))%nat -> cancel_requested env j = true)
      /\ (forall i, (i < j)%nat -> cancel_requested env i = false)
  | Undefined _ => False
  end.
Proof.
  destruct (generateStream false env prompt collect config s []) as [[s' pieces]|] eqn:H.
  - eapply stub_generateStream_pieces. exact H.
  - revert H. unfold generateStream, isModelLoaded. cbn [negb].
    destruct (stub_loop _ _ _ _ _ _). discriminate.
Qed.

Lemma no_space_app (x y : string) : no_space (x +:+ y) = no_space x && no_space y.
Proof.
  induction x as [|c x IH]; [reflexivity|].
  change (no_space (String c (x +:+ y)) = no_space (String c x) && no_space y).
  simpl. rewrite IH, andb_assoc. reflexivity.
Qed.

(** The words read from a stream are not empty and hold no white
    space. *)
Lemma words_from_good text : forall cur,
  no_space cur = true ->
  Forall (fun w => w <> "" /\ no_space w = true) (words_from cur text).
Proof.
  induction text as [|c text IH]; intros cur Hcur; simpl.
  - destruct (String.eqb cur "") eqn:He; [constructor|].
    apply String.eqb_neq in He. repeat constructor; assumption.
  - destruct (isspace c) eqn:Hc.
    + destruct (String.eqb cur "") eqn:He; [apply IH; reflexivity|].
      apply String.eqb_neq in He. constructor; [auto | apply IH; reflexivity].
    + apply IH. rewrite no_space_app, Hcur. simpl. rewrite Hc. reflexivity.
Qed.

Lemma words_from_word (w : string) : forall cur rest,
  no_space w = true ->
  words_from cur (w +:+ String " " rest)
  = if String.eqb (cur +:+ w) "" then words_from "" rest
    else (cur +:+ w) :: words_from "" rest.
Proof.
  induction w as [|c w IH]; intros cur rest Hw.
  - rewrite string_app_nil_r. reflexivity.
  - simpl in Hw. apply andb_prop in Hw as [Hc Hw]. apply negb_true_iff in Hc.
    change (String c w +:+ String " " rest) with (String c (w +:+ String " " rest)).
    simpl. rewrite Hc, IH by exact Hw.
    rewrite string_app_assoc. reflexivity.
Qed.

Lemma words_join (ws : list string) :
  Forall (fun w => w <> "" /\ no_space w = true) ws ->
  words (concatenation (map (fun w => w +:+ " ") ws)) = ws.
Proof.
  unfold words. induction 1 as [|w ws [Hne Hw] _ IH]; [reflexivity|].
  simpl. rewrite string_app_assoc.
  change (" " +:+ ?x) with (String " " x).
  rewrite words_from_word by exact Hw.
  change ("" +:+ w) with w.
  destruct (String.eqb w "") eqn:He; [apply String.eqb_eq in He; contradiction|].
  rewrite IH. reflexivity.
Qed.

(** X16: when no cancellation is requested, the blocking [generate]
    of the stub returns its canned response word for word, with each
    run of white space replaced by one space and one space at the
    end: reading the returned text back gives the same words. *)
Theorem stub_generate_round_trip env prompt config (s : LlamaContextWrapper E) :
  (forall k, cancel_requested env k = false) ->
  match generate false env prompt config s with
  | Ok (text, _) =>
    text = concatenation (canned_pieces prompt)
    /\ words text = words (stubResponse prompt)
  | Undefined _ => False
  end.
Proof.
  intros Hquiet. unfold generate. rewrite generateStream_collect.
  destruct (generateStream false env prompt collect config s []) as [[s' pieces]|] eqn:H.
  - cbn [bind]. apply stub_generateStream_pieces in H as (j & -> & Hj & Hstop & _).
    assert (Hall : j = length (canned_pieces prompt)).
    { destruct (Nat.eq_dec j (length (canned_pieces prompt))) as [Heq|Hne]; [exact Heq|].
      rewrite Hquiet in Hstop. assert (false = true) by (apply Hstop; lia). discriminate. }
    rewrite Hall, firstn_all, feed_append.
    change ("" +:+ concatenation (canned_pieces prompt))
      with (concatenation (canned_pieces prompt)).
    split; [reflexivity|].
    unfold canned_pieces. apply words_join, words_from_good. reflexivity.
  - revert H. unfold generateStream, isModelLoaded. cbn [negb].
    destruct (stub_loop _ _ _ _ _ _). discriminate.
Qed.

(** *** What [loadModel] reports *)

(** X17: the flag [loadModel] returns tells the state it leaves: it
    is true exactly when the session is loaded afterwards and exactly
    when the error slot is empty, and the configuration is stored on
    success only. *)
Theorem loadModel_reports_the_state (LLAMA_AVAILABLE : bool) env path config
    (s : LlamaContextWrapper E) :
  let r := loadModel LLAMA_AVAILABLE env path config s in
  r.1 = isModelLoaded LLAMA_AVAILABLE r.2
  /\ r.1 = String.eqb (lastError_ r.2) ""
  /\ currentConfig_ r.2 = (if r.1 then config else currentConfig_ s).
Proof.
  cbn zeta. unfold loadModel, isModelLoaded.
  destruct LLAMA_AVAILABLE; [|repeat split].
  set (u := match model_ (clearError s) with
            | Some _ => unloadModel true (clearError s)
            | None => clearError s
            end).
  assert (Hu : lastError_ u = "" /\ currentConfig_ u = currentConfig_ s).
  { subst u. destruct s as [[?|] [?|] [?|] ? ? ? ? ?]; split; reflexivity. }
  destruct Hu as [Hue Huc]. clearbody u.
  destruct (llama_model_load_from_file E path _) as [m|]; cbn [fst snd].
  - destruct (llama_init_from_model E m _) as [c|]; cbn [fst snd].
    + match goal with
      | |- context [setupSampler ?n ?cf ?x] =>
        destruct (setupSampler_frame n cf x) as (Hm & Hc & He & _)
      end.
      cbn [set_currentConfig_ model_ context_ lastError_ currentConfig_].
      rewrite Hm, Hc, He. simpl. rewrite Hue. repeat split.
    + simpl. rewrite Huc. repeat split.
  - simpl. rewrite Huc. repeat split.
Qed.

(** *** Streaming and detokenizing *)

Lemma piece_tokens_app (evs1 evs2 : list (event E)) :
  piece_tokens (evs1 ++ evs2) = piece_tokens evs1 ++ piece_tokens evs2.
Proof. apply omap_app. Qed.

Lemma concatenation_app (xs ys : list string) :
  concatenation (xs ++ ys) = concatenation xs +:+ concatenation ys.
Proof.
  induction xs as [|x xs IH]; [reflexivity|].
  simpl. rewrite IH, string_app_assoc. reflexivity.
Qed.

Lemma streams_text_silent m (s s' : LlamaContextWrapper E) evs :
  events s' = events s ++ evs -> piece_tokens evs = [] -> callback_pieces evs = [] ->
  streams_text m s s'.
Proof. intros He Hp Hc. exists evs, []. rewrite Hp, Hc. auto. Qed.

Lemma streams_text_same m (s s' : LlamaContextWrapper E) :
  events s' = events s -> streams_text m s s'.
Proof.
  intros He. apply (streams_text_silent m s s' []); [rewrite app_nil_r; exact He | |];
    reflexivity.
Qed.

Lemma streams_text_trans m (s1 s2 s3 : LlamaContextWrapper E) :
  streams_text m s1 s2 -> streams_text m s2 s3 -> streams_text m s1 s3.
Proof.
  intros (evs1 & c1 & He1 & H1) (evs2 & c2 & He2 & H2).
  exists (evs1 ++ evs2), (c1 ++ c2). split; [rewrite He2, He1, app_assoc; reflexivity|].
  rewrite piece_tokens_app, callback_pieces_app, concatenation_app, detokenize_app, H1.
  cbn [bind]. rewrite H2. reflexivity.
Qed.

Lemma streams_text_generation_step {A} (cb : string -> A -> A) m batch n_cur s a r :
  generation_step cb m batch n_cur s a = Ok r ->
  streams_text m s (match r with Break s' _ => s' | Continue _ s' _ => s' end).
Proof.
  unfold generation_step, sampler_sample.
  destruct (sampler_ s) as [smp|]; [|discriminate].
  destruct (context_ s) as [c|] eqn:Hc; [|discriminate]. cbn [bind].
  destruct (llama_vocab_is_eog E _ _).
  { intros [= <-]. eapply streams_text_silent; [simpl; reflexivity | |]; reflexivity. }
  destruct (detokenize m [(llama_sampler_sample E smp c (-1)).1]) as [[piece calls]|] eqn:Hd;
    cbn [bind]; [|discriminate].
  assert (Hcalls : calls = [ev_token_to_piece (llama_sampler_sample E smp c (-1)).1
                              (llama_token_to_piece E (llama_model_get_vocab E m)
                                 (llama_sampler_sample E smp c (-1)).1 255 0 true).1]).
  { revert Hd. unfold detokenize. simpl.
    destruct (_ <? 0); [intros [= _ <-]; reflexivity|].
    destruct (256 <=? _); [discriminate | intros [= _ <-]; reflexivity]. }
  destruct (next_token_batch batch _ n_cur) as [b|]; cbn [bind]; [|discriminate].
  unfold decode. simpl context_. rewrite Hc. cbn [bind fst snd].
  assert (Hend : forall t : LlamaContextWrapper E,
    events t = (((events s ++ [ev_sampler_sample (llama_sampler_sample E smp c (-1)).1])
                 ++ calls) ++ [ev_callback piece])
               ++ [ev_decode b (llama_decode E c b).1] ->
    streams_text m s t).
  { intros t Ht. eexists _, calls. split; [rewrite Ht, <- !app_assoc; reflexivity|].
    rewrite !piece_tokens_app, !callback_pieces_app. subst calls.
    cbn [piece_tokens callback_pieces omap app]. simpl concatenation.
    rewrite string_app_nil_r. exact Hd. }
  destruct (negb _); intros [= <-]; apply Hend; reflexivity.
Qed.

Lemma streams_text_generation_loop {A} env (cb : string -> A -> A) m remaining :
  forall batch n_cur k s a s' a',
  generation_loop env cb m remaining batch n_cur k s a = Ok (s', a') ->
  streams_text m s s'.
Proof.
  induction remaining as [|remaining IH]; intros batch n_cur k s a s' a'; simpl.
  - intros [= <- <-]. apply streams_text_same. reflexivity.
  - assert (Sp : streams_text m s (poll_cancel env k s))
      by (apply streams_text_same, poll_cancel_events).
    destruct (shouldCancel_ (poll_cancel env k s)).
    + intros [= <- <-]. exact Sp.
    + destruct (generation_step cb m batch n_cur (poll_cancel env k s) a) as [r|] eqn:Hstep;
        cbn [bind]; [|discriminate].
      apply streams_text_generation_step in Hstep.
      destruct r as [s1 a1|b1 s1 a1].
      * intros [= <- <-]. eapply streams_text_trans; eassumption.
      * intros Hloop. apply IH in Hloop.
        eapply streams_text_trans; [exact Sp|]. eapply streams_text_trans; eassumption.
Qed.

Lemma streams_text_setupSampler m now config (s : LlamaContextWrapper E) :
  streams_text m s (setupSampler now config s).
Proof.
  destruct (setupSampler_history now config s) as (adds & He & Hadds).
  eapply streams_text_silent; [exact He | |].
  - rewrite !piece_tokens_app.
    replace (piece_tokens adds) with (@nil llama_token).
    + destruct (sampler_ s); reflexivity.
    + symmetry. clear - Hadds. induction adds as [|ev adds IH]; [reflexivity|].
      simpl in Hadds. apply andb_prop in Hadds as [Hev Hadds].
      destruct ev; try discriminate. simpl. apply IH, Hadds.
  - apply stage_event_facts in Hadds as (_ & _ & Hcp).
    rewrite !callback_pieces_app, Hcp. destruct (sampler_ s); reflexivity.
Qed.

Lemma tokenize_piece_tokens (m : llama_model E) text addBos :
  piece_tokens (tokenize m text addBos).2 = [].
Proof.
  unfold tokenize, call_tokenize.
  destruct (llama_tokenize E _ _ _ _ _) as [n1 t1]; cbn [fst snd].
  destruct (n1 <? 0).
  - destruct (llama_tokenize E _ _ _ _ _) as [n2 t2]; cbn [fst snd].
    destruct (n2 <? 0); reflexivity.
  - destruct (n1 <? 0); reflexivity.
Qed.

Lemma streams_text_generateStream {A} env prompt (cb : string -> A -> A) config s a s' a' m :
  generateStream true env prompt cb config s a = Ok (s', a') ->
  model_ s = Some m ->
  streams_text m s s'.
Proof.
  unfold generateStream. intros H Hms. revert H.
  destruct (negb _).
  { intros [= <- <-]. apply streams_text_same. reflexivity. }
  set (s0 := set_shouldCancel_ false (set_isGenerating_ true (clearError s))).
  assert (S0 : streams_text m s s0)
    by (apply (streams_text_silent m s s0 [ev_isGenerating true]); reflexivity).
  set (s1 := match config with Some c => setupSampler _ _ _ | None => _ end).
  assert (S1 : streams_text m s s1).
  { eapply streams_text_trans; [exact S0|]. subst s1.
    destruct config; [apply streams_text_setupSampler | apply streams_text_same; reflexivity]. }
  assert (Hm1 : model_ s1 = Some m).
  { subst s1. destruct config as [c|]; [|exact Hms].
    destruct (setupSampler_frame (time_now env) c s0) as (-> & _). exact Hms. }
  rewrite Hm1.
  pose proof (tokenize_piece_tokens m prompt true) as Hpt.
  destruct (tokenize_calls_quiet m prompt true) as [Hcp _].
  destruct (tokenize m prompt true) as [toks calls]. cbn [fst snd] in Hpt, Hcp.
  assert (S2 : streams_text m s (add_events calls s1)).
  { eapply streams_text_trans; [exact S1|].
    apply (streams_text_silent m _ _ calls); [reflexivity | exact Hpt | exact Hcp]. }
  assert (Hfail : forall e t, streams_text m s t ->
            streams_text m s (set_isGenerating_ false (setError e t))).
  { intros e t St. eapply streams_text_trans; [exact St|].
    apply (streams_text_silent m _ _ [ev_isGenerating false]); reflexivity. }
  destruct toks as [|tok toks].
  { intros [= <- <-]. apply Hfail, S2. }
  destruct (get_n_ctx (add_events calls s1)) as [n|]; cbn [bind]; [|discriminate].
  destruct (n - 4 <? _).
  { intros [= <- <-]. apply Hfail, S2. }
  unfold decode_prompt_and_generate.
  destruct (prompt_batch _ _) as [pb|]; cbn [bind]; [|discriminate].
  unfold decode. simpl context_. destruct (context_ s1) as [c|]; cbn [bind]; [|discriminate].
  cbn [fst snd].
  set (s3 := set_context_ _ _).
  assert (S3 : streams_text m s s3).
  { eapply streams_text_trans; [exact S2|]. subst s3.
    eapply (streams_text_silent m _ _ [_; _]);
      [simpl; rewrite <- app_assoc; reflexivity | |]; reflexivity. }
  assert (Hfree : forall t, streams_text m s t -> streams_text m s (emit ev_batch_free t)).
  { intros t St. eapply streams_text_trans; [exact St|].
    apply (streams_text_silent m _ _ [ev_batch_free]); reflexivity. }
  destruct (negb _).
  { intros [= <- <-].
    apply (Hfail (lastError_ (emit ev_batch_free (setError "Failed to process prompt" s3)))
                 (emit ev_batch_free (setError "Failed to process prompt" s3))).
    apply Hfree. eapply streams_text_trans; [exact S3|].
    apply streams_text_same. reflexivity. }
  match goal with
  | |- context [generation_loop ?e ?f ?mm ?r ?bb ?nn ?k ?st ?aa] =>
    destruct (generation_loop e f mm r bb nn k st aa) as [[s4 a4]|] eqn:Hloop
  end; cbn [bind]; [|discriminate].
  apply streams_text_generation_loop in Hloop.
  intros [= <- <-].
  apply (Hfail (lastError_ (emit ev_batch_free s4)) (emit ev_batch_free s4)).
  apply Hfree. eapply streams_text_trans; eassumption.
Qed.

(** X18: the text [generate] returns is the text [detokenize] gives
    for the tokens the call rendered, taken together: streaming piece
    by piece loses and adds nothing. *)
Theorem generated_text_is_the_detokenized_tokens env prompt config s :
  match generate true env prompt config s with
  | Ok (text, s') =>
    exists evs, events s' = events s ++ evs
      /\ forall m, model_ s = Some m ->
           exists calls, detokenize m (piece_tokens evs) = Ok (text, calls)
  | Undefined _ => True
  end.
Proof.
  unfold generate. rewrite generateStream_collect.
  destruct (generateStream true env prompt collect config s []) as [[s' pieces]|] eqn:H;
    cbn [bind]; [|exact I].
  rewrite feed_append. change ("" +:+ concatenation pieces) with (concatenation pieces).
  destruct (generateStream_records true env prompt config s s' pieces H) as (evs & He & ->).
  exists evs. split; [exact He|]. intros m Hm.
  destruct (streams_text_generateStream _ _ _ _ _ _ _ _ m H Hm) as (evs' & calls & He' & Hd).
  rewrite He in He'. apply app_inv_head in He'. subst evs'.
  exists calls. exact Hd.
Qed.

(** *** What the context is fed *)

Lemma decoded_tokens_app (evs1 evs2 : list (event E)) :
  decoded_tokens (evs1 ++ evs2) = decoded_tokens evs1 ++ decoded_tokens evs2.
Proof. apply flat_map_app. Qed.

Lemma feeds_back_silent (s s' : LlamaContextWrapper E) evs :
  events s' = events s ++ evs -> decoded_tokens evs = [] -> piece_tokens evs = [] ->
  feeds_back s s'.
Proof. intros He Hd Hp. exists evs. rewrite Hd, Hp. auto. Qed.

Lemma feeds_back_same (s s' : LlamaContextWrapper E) :
  events s' = events s -> feeds_back s s'.
Proof.
  intros He. apply (feeds_back_silent s s' []); [rewrite app_nil_r; exact He | |];
    reflexivity.
Qed.

Lemma feeds_back_trans (s1 s2 s3 : LlamaContextWrapper E) :
  feeds_back s1 s2 -> feeds_back s2 s3 -> feeds_back s1 s3.
Proof.
  intros (evs1 & He1 & H1) (evs2 & He2 & H2).
  exists (evs1 ++ evs2). split; [rewrite He2, He1, app_assoc; reflexivity|].
  rewrite decoded_tokens_app, piece_tokens_app, H1, H2. reflexivity.
Qed.

Lemma next_token_batch_token batch tok n_cur b :
  next_token_batch batch tok n_cur = Ok b ->
  n_tokens b = 1 /\ take 1 (token b) = [tok].
Proof.
  unfold next_token_batch, fill_entry. cbn [set_n_tokens token pos n_seq_id seq_id logits].
  unfold store at 1.
  destruct ((0 <=? 0) && (0 <? Z.of_nat (length (token batch)))) eqn:Hin; cbn [bind];
    [|discriminate].
  destruct (store (pos batch) 0 n_cur); cbn [bind]; [|discriminate].
  destruct (store (n_seq_id batch) 0 1); cbn [bind]; [|discriminate].
  destruct (store_row0 (seq_id batch) 0 0); cbn [bind]; [|discriminate].
  destruct (store (logits batch) 0 true); cbn [bind]; [|discriminate].
  intros [= <-]. simpl. split; [reflexivity|].
  destruct (token batch); [discriminate | reflexivity].
Qed.

Lemma feeds_back_generation_step {A} (cb : string -> A -> A) m batch n_cur s a r :
  generation_step cb m batch n_cur s a = Ok r ->
  feeds_back s (match r with Break s' _ => s' | Continue _ s' _ => s' end).
Proof.
  unfold generation_step, sampler_sample.
  destruct (sampler_ s) as [smp|]; [|discriminate].
  destruct (context_ s) as [c|] eqn:Hc; [|discriminate]. cbn [bind].
  destruct (llama_vocab_is_eog E _ _).
  { intros [= <-]. eapply feeds_back_silent; [simpl; reflexivity | |]; reflexivity. }
  unfold detokenize. simpl.
  assert (Hend : forall b, next_token_batch batch (llama_sampler_sample E smp c (-1)).1 n_cur
                           = Ok b ->
    take (Z.to_nat (n_tokens b)) (token b) ++ [] = [(llama_sampler_sample E smp c (-1)).1]).
  { intros b Hb. apply next_token_batch_token in Hb as [-> Htok].
    change (Z.to_nat 1) with 1%nat. rewrite Htok. reflexivity. }
  destruct (_ <? 0); cbn [bind].
  - destruct (next_token_batch batch _ n_cur) as [b|]; cbn [bind]; [|discriminate].
    unfold decode. simpl. rewrite Hc. cbn [bind].
    destruct (negb _); intros [= <-]; eexists;
      (split; [simpl; rewrite <- !app_assoc; reflexivity|]);
      simpl; rewrite (Hend b eq_refl); reflexivity.
  - destruct (256 <=? _); cbn [bind]; [discriminate|].
    destruct (next_token_batch batch _ n_cur) as [b|]; cbn [bind]; [|discriminate].
    unfold decode. simpl. rewrite Hc. cbn [bind].
    destruct (negb _); intros [= <-]; eexists;
      (split; [simpl; rewrite <- !app_assoc; reflexivity|]);
      simpl; rewrite (Hend b eq_refl); reflexivity.
Qed.

Lemma feeds_back_generation_loop {A} env (cb : string -> A -> A) m remaining :
  forall batch n_cur k s a s' a',
  generation_loop env cb m remaining batch n_cur k s a = Ok (s', a') ->
  feeds_back s s'.
Proof.
  induction remaining as [|remaining IH]; intros batch n_cur k s a s' a'; simpl.
  - intros [= <- <-]. apply feeds_back_same. reflexivity.
  - assert (Sp : feeds_back s (poll_cancel env k s))
      by (apply feeds_back_same, poll_cancel_events).
    destruct (shouldCancel_ (poll_cancel env k s)).
    + intros [= <- <-]. exact Sp.
    + destruct (generation_step cb m batch n_cur (poll_cancel env k s) a) as [r|] eqn:Hstep;
        cbn [bind]; [|discriminate].
      apply feeds_back_generation_step in Hstep.
      destruct r as [s1 a1|b1 s1 a1].
      * intros [= <- <-]. eapply feeds_back_trans; eassumption.
      * intros Hloop. apply IH in Hloop.
        eapply feeds_back_trans; [exact Sp|]. eapply feeds_back_trans; eassumption.
Qed.

Lemma stage_event_silent (adds : list (event E)) :
  forallb stage_event adds = true -> decoded_tokens adds = [] /\ piece_tokens adds = [].
Proof.
  induction adds as [|ev adds IH]; [auto|]. simpl.
  intros H. apply andb_prop in H as [Hev H]. destruct ev; try discriminate.
  simpl. apply IH, H.
Qed.

Lemma tokenize_decoded_tokens (m : llama_model E) text addBos :
  decoded_tokens (tokenize m text addBos).2 = [].
Proof.
  unfold tokenize, call_tokenize.
  destruct (llama_tokenize E _ _ _ _ _) as [n1 t1]; cbn [fst snd].
  destruct (n1 <? 0).
  - destruct (llama_tokenize E _ _ _ _ _) as [n2 t2]; cbn [fst snd].
    destruct (n2 <? 0); reflexivity.
  - destruct (n1 <? 0); reflexivity.
Qed.

(** The window as the capacity check sees it. *)
Lemma to_int32_small z : 0 <= z < 2 ^ 31 -> to_int32 z = z.
Proof. intros H. unfold to_int32. rewrite Z.mod_small; lia. Qed.

Lemma to_int32_wide z : 2 ^ 31 <= z < 2 ^ 32 -> to_int32 z = z - 2 ^ 32.
Proof.
  intros H. unfold to_int32.
  replace (z + 2 ^ 31) with (z - 2 ^ 31 + 1 * 2 ^ 32) by lia.
  rewrite Z_mod_plus_full, Z.mod_small; lia.
Qed.

(** A window of [2^31] tokens or more is negative in the [int] of
    line 189, and every prompt is rejected. *)
Lemma wide_window_rejects (c : llama_context E) (promptTokens : list llama_token) :
  2 ^ 31 <= llama_n_ctx E c < 2 ^ 32 -> rejects_prompt c promptTokens = true.
Proof.
  intros H. destruct promptTokens as [|tok toks]; [reflexivity|].
  unfold rejects_prompt. rewrite to_int32_wide by exact H. apply Z.ltb_lt. lia.
Qed.

(** What one call hands to [llama_decode], by the outcome of the two
    checks on the prompt. *)
Lemma generateStream_decoded {A} env prompt (cb : string -> A -> A) config s a s' a' :
  generateStream true env prompt cb config s a = Ok (s', a') ->
  exists evs, events s' = events s ++ evs
    /\ match model_ s, context_ s with
       | Some m, Some c =>
         if rejects_prompt c (tokenize m prompt true).1
         then decoded_positions evs = [] /\ decoded_tokens evs = []
              /\ piece_tokens evs = [] /\ callback_pieces evs = []
         else decoded_positions evs
              = positions 0 (length (tokenize m prompt true).1
                             + length (callback_pieces evs))
              /\ decoded_tokens evs = (tokenize m prompt true).1 ++ piece_tokens evs
       | _, _ => evs = []
       end.
Proof.
  intros H.
  assert (Hguard : isModelLoaded true s = false ->
            exists evs : list (event E), events s' = events s ++ evs /\ evs = []).
  { intros Hl. revert H. unfold generateStream.
    replace (isModelLoaded true (clearError s)) with false
      by (rewrite <- Hl; destruct s; reflexivity).
    cbn [negb]. intros [= <- <-]. exists []. rewrite app_nil_r. auto. }
  destruct (model_ s) as [m|] eqn:Hm.
  2:{ apply Hguard. unfold isModelLoaded. rewrite Hm. reflexivity. }
  destruct (context_ s) as [c|] eqn:Hc.
  2:{ apply Hguard. unfold isModelLoaded. rewrite Hm, Hc. reflexivity. }
  clear Hguard.
  rewrite (generateStream_loaded env prompt cb config s a m c Hm Hc) in H.
  cbv zeta in H. revert H.
  set (s0 := set_shouldCancel_ false (set_isGenerating_ true (clearError s))).
  set (s1 := match config with Some c0 => setupSampler _ _ _ | None => _ end).
  assert (S1 : context_ s1 = Some c
               /\ exists evs1, events s1 = events s ++ evs1
                    /\ decoded_positions evs1 = [] /\ decoded_tokens evs1 = []
                    /\ piece_tokens evs1 = [] /\ callback_pieces evs1 = []).
  { subst s1. destruct config as [c0|].
    - destruct (setupSampler_frame (time_now env) c0 s0) as (_ & -> & _).
      split; [exact Hc|].
      destruct (setupSampler_history (time_now env) c0 s0) as (adds & He & Hadds).
      destruct (stage_event_facts adds Hadds) as (_ & Hdp & Hcp).
      destruct (stage_event_silent adds Hadds) as (Hdt & Hpt).
      exists ([ev_isGenerating true]
              ++ (match sampler_ s0 with Some smp => [ev_sampler_free smp] | None => [] end
                  ++ [ev_sampler_chain_init]) ++ adds).
      split; [rewrite He; subst s0; simpl; rewrite <- !app_assoc; reflexivity|].
      rewrite !decoded_positions_app, !decoded_tokens_app, !piece_tokens_app,
        !callback_pieces_app, Hdp, Hcp, Hdt, Hpt.
      destruct (sampler_ s0); repeat split.
    - split; [exact Hc|]. exists [ev_isGenerating true]. subst s0. simpl. repeat split. }
  destruct S1 as (Hc1 & evs1 & He1 & Hdp1 & Hdt1 & Hpt1 & Hcp1). clearbody s1. clear s0.
  destruct (tokenize_history m prompt true) as (_ & _ & Hdpc).
  pose proof (tokenize_decoded_tokens m prompt true) as Hdtc.
  pose proof (tokenize_piece_tokens m prompt true) as Hptc.
  destruct (tokenize_calls_quiet m prompt true) as [Hcpc _].
  destruct (tokenize m prompt true) as [toks calls]. cbn [fst snd] in *.
  assert (Hearly : forall e, exists evs,
    events (set_isGenerating_ false (setError e (add_events calls s1))) = events s ++ evs
    /\ decoded_positions evs = [] /\ decoded_tokens evs = []
    /\ piece_tokens evs = [] /\ callback_pieces evs = []).
  { intros e. exists (evs1 ++ calls ++ [ev_isGenerating false]).
    split; [simpl; rewrite He1, <- !app_assoc; reflexivity|].
    rewrite !decoded_positions_app, !decoded_tokens_app, !piece_tokens_app,
      !callback_pieces_app, Hdp1, Hdt1, Hpt1, Hcp1, Hdpc, Hdtc, Hptc, Hcpc.
    repeat split. }
  destruct toks as [|tok toks].
  { intros [= <- <-]. apply Hearly. }
  change (rejects_prompt c (tok :: toks))
    with (to_int32 (llama_n_ctx E c) - 4 <? Z.of_nat (length (tok :: toks))).
  destruct (to_int32 (llama_n_ctx E c) - 4 <? Z.of_nat (length (tok :: toks))).
  { intros [= <- <-]. apply Hearly. }
  clear Hearly. unfold decode_prompt_and_generate.
  destruct (prompt_batch _ _) as [pb|] eqn:Hpb; cbn [bind]; [|discriminate].
  apply prompt_batch_written in Hpb as (Hn & Htoks & Hpos & _). cbn zeta in Hn, Htoks, Hpos.
  unfold decode. simpl context_. rewrite Hc1. cbn [bind fst snd].
  set (s3 := set_context_ _ _).
  assert (He3 : exists ev, events s3 = events s ++ evs1 ++ calls
                                       ++ [ev; ev_decode pb (llama_decode E c pb).1]
                           /\ decoded_positions [ev] = [] /\ decoded_tokens [ev] = []
                           /\ piece_tokens [ev] = [] /\ callback_pieces [ev] = []).
  { eexists. subst s3. simpl. rewrite He1, <- !app_assoc. simpl. repeat split. }
  destruct He3 as (ev & He3 & Hevdp & Hevdt & Hevpt & Hevcp). clearbody s3.
  assert (Hend : forall t evs_l,
    events t = events s3 ++ evs_l ->
    decoded_positions evs_l
    = positions (Z.of_nat (length (tok :: toks))) (length (callback_pieces evs_l)) ->
    decoded_tokens evs_l = piece_tokens evs_l ->
    exists evs, events (set_isGenerating_ false (emit ev_batch_free t)) = events s ++ evs
      /\ decoded_positions evs
         = positions 0 (length (tok :: toks) + length (callback_pieces evs))
      /\ decoded_tokens evs = (tok :: toks) ++ piece_tokens evs).
  { intros t evs_l Ht Hp Hl.
    exists (evs1 ++ calls ++ ([ev] ++ [ev_decode pb (llama_decode E c pb).1]) ++ evs_l
                 ++ [ev_batch_free; ev_isGenerating false]).
    split; [simpl; rewrite Ht, He3, <- !app_assoc; reflexivity|].
    rewrite !decoded_positions_app, !decoded_tokens_app, !piece_tokens_app,
      !callback_pieces_app, Hdp1, Hdt1, Hpt1, Hcp1, Hdpc, Hdtc, Hptc, Hcpc,
      Hevdp, Hevdt, Hevpt, Hevcp, Hp, Hl.
    cbn [decoded_positions decoded_tokens piece_tokens callback_pieces flat_map omap app].
    rewrite Hn, Nat2Z.id, Htoks, Hpos, !app_nil_r, positions_app.
    split; reflexivity. }
  destruct (negb _).
  { intros [= <- <-].
    apply (Hend (setError "Failed to process prompt" s3) []);
      [simpl; rewrite app_nil_r; reflexivity | reflexivity | reflexivity]. }
  match goal with
  | |- context [generation_loop ?e ?f ?mm ?r ?bb ?nn ?k ?st ?aa] =>
    destruct (generation_loop e f mm r bb nn k st aa) as [[s4 a4]|] eqn:Hloop
  end; cbn [bind]; [|discriminate].
  destruct (generation_loop_history _ _ _ _ _ _ _ _ _ _ _ Hloop) as (evs_l & Hel & _ & Hdl).
  destruct (feeds_back_generation_loop _ _ _ _ _ _ _ _ _ _ _ Hloop) as (evs_l' & Hel' & Hl).
  rewrite Hel in Hel'. apply app_inv_head in Hel'. subst evs_l'.
  rewrite Hn in Hdl.
  intros [= <- <-]. apply (Hend s4 evs_l Hel Hdl Hl).
Qed.

(** X10: in the build with the backend, when the prompt passes the
    tokenization and capacity checks, the positions a generation
    hands to [llama_decode] are 0, 1, 2, ... without gap or repeat:
    one for each prompt token, then one for each piece given to the
    callback.  When the prompt fails a check nothing is decoded and
    nothing is given to the callback, and a session that is not
    loaded records no event at all.  Every call starts again at
    position 0, whatever the context has decoded before. *)
Theorem decode_positions_are_consecutive {A} env prompt (cb : string -> A -> A) config
    s a :
  match generateStream true env prompt cb config s a with
  | Ok (s', _) =>
    exists evs, events s' = events s ++ evs
      /\ match model_ s, context_ s with
         | Some m, Some c =>
           if rejects_prompt c (tokenize m prompt true).1
           then decoded_positions evs = [] /\ callback_pieces evs = []
           else decoded_positions evs
                = positions 0 (length (tokenize m prompt true).1
                               + length (callback_pieces evs))
         | _, _ => evs = []
         end
  | Undefined _ => True
  end.
Proof.
  destruct (generateStream true env prompt cb config s a) as [[s' a']|] eqn:H; [|exact I].
  destruct (generateStream_decoded _ _ _ _ _ _ _ _ H) as (evs & He & Hd).
  exists evs. split; [exact He|].
  destruct (model_ s) as [m|]; [|exact Hd].
  destruct (context_ s) as [c|]; [|exact Hd].
  destruct (rejects_prompt c (tokenize m prompt true).1); tauto.
Qed.


(** *** Why a generation stops *)

Lemma generation_step_stops m batch n_cur s pieces r :
  generation_step collect m batch n_cur s pieces = Ok r ->
  match r with
  | Break s' _ =>
    lastError_ s' = "Failed to decode token"
    \/ exists tok, events s' = events s ++ [ev_sampler_sample tok]
         /\ llama_vocab_is_eog E (llama_model_get_vocab E m) tok = true
  | Continue _ s' pieces' =>
    length pieces' = S (length pieces) /\ lastError_ s' = lastError_ s
    /\ exists evs, events s' = events s ++ evs
  end.
Proof.
  unfold generation_step, sampler_sample.
  destruct (sampler_ s) as [smp|]; [|discriminate].
  destruct (context_ s) as [c|] eqn:Hc; [|discriminate]. cbn [bind].
  destruct (llama_vocab_is_eog E _ _) eqn:Heog.
  { intros [= <-]. right. eexists. split; [reflexivity | exact Heog]. }
  destruct (detokenize m _) as [[piece calls]|]; cbn [bind]; [|discriminate].
  destruct (next_token_batch batch _ n_cur) as [b|]; cbn [bind]; [|discriminate].
  unfold decode. simpl context_. rewrite Hc. cbn [bind fst snd].
  destruct (negb _); intros [= <-].
  - left. reflexivity.
  - split; [unfold collect; rewrite length_app; simpl; lia|].
    split; [reflexivity|].
    eexists. simpl. rewrite <- !app_assoc. reflexivity.
Qed.

Lemma generation_loop_stops env m remaining :
  forall batch n_cur k s pieces s' pieces',
  generation_loop env collect m remaining batch n_cur k s pieces = Ok (s', pieces') ->
  lastError_ s = "" ->
  lastError_ s' <> ""
  \/ length pieces' = (length pieces + remaining)%nat
  \/ shouldCancel_ s' = true
  \/ exists evs tok, events s' = events s ++ evs ++ [ev_sampler_sample tok]
       /\ llama_vocab_is_eog E (llama_model_get_vocab E m) tok = true.
Proof.
  induction remaining as [|remaining IH]; intros batch n_cur k s pieces s' pieces'; simpl.
  - intros [= <- <-] _. right. left. lia.
  - destruct (shouldCancel_ (poll_cancel env k s)) eqn:Hflag.
    + intros [= <- <-] _. right. right. left. exact Hflag.
    + destruct (generation_step collect m batch n_cur (poll_cancel env k s) pieces)
        as [r|] eqn:Hstep; cbn [bind]; [|discriminate].
      apply generation_step_stops in Hstep.
      rewrite poll_cancel_events in Hstep.
      destruct r as [s1 p1|b1 s1 p1].
      * intros [= <- <-] _. destruct Hstep as [Herr|(tok & He & Heog)].
        -- left. rewrite Herr. discriminate.
        -- right. right. right. exists [], tok. auto.
      * destruct Hstep as (Hlen & Herr & evs1 & He1).
        rewrite poll_cancel_lastError in Herr.
        intros Hloop Hs. apply IH in Hloop; [|congruence].
        destruct Hloop as [H|[H|[H|(evs & tok & He & Heog)]]].
        -- left. exact H.
        -- right. left. lia.
        -- right. right. left. exact H.
        -- right. right. right. exists (evs1 ++ evs), tok.
           split; [rewrite He, He1, <- !app_assoc; reflexivity | exact Heog].
Qed.

(** X20: a generation does not stop without a reason.  When
    [generateStream] returns, it has recorded an error, or delivered
    [maxTokens] pieces, or found a cancellation request, or the last
    token it sampled was an end-of-generation token. *)
Theorem generation_stops_for_a_reason env prompt config s :
  match generateStream true env prompt collect config s [] with
  | Ok (s', pieces) =>
    lastError_ s' <> ""
    \/ length pieces = Z.to_nat (maxTokens (effective_config config s))
    \/ shouldCancel_ s' = true
    \/ exists m evs tok,
         model_ s = Some m
         /\ events s' = events s ++ evs
                        ++ [ev_sampler_sample tok; ev_batch_free; ev_isGenerating false]
         /\ llama_vocab_is_eog E (llama_model_get_vocab E m) tok = true
  | Undefined _ => True
  end.
Proof.
  destruct (generateStream true env prompt collect config s []) as [[s' pieces]|] eqn:H;
    [|exact I].
  revert H. unfold generateStream.
  destruct (negb _).
  { intros [= <- <-]. left. discriminate. }
  set (s0 := set_shouldCancel_ false (set_isGenerating_ true (clearError s))).
  set (s1 := match config with Some c => setupSampler _ _ _ | None => _ end).
  assert (S1 : model_ s1 = model_ s /\ lastError_ s1 = ""
               /\ exists evs1, events s1 = events s ++ evs1).
  { subst s1. destruct config as [c|].
    - destruct (setupSampler_frame (time_now env) c s0) as (-> & _ & -> & _).
      destruct (setupSampler_events (time_now env) c s0) as (evs & -> & _).
      repeat split. exists ([ev_isGenerating true] ++ evs). subst s0. simpl.
      rewrite <- app_assoc. reflexivity.
    - repeat split. exists [ev_isGenerating true]. reflexivity. }
  destruct S1 as (Hm1 & Herr1 & evs1 & He1). clearbody s1. clear s0.
  destruct (model_ s1) as [m|] eqn:Hm; [|discriminate].
  destruct (tokenize m prompt true) as [toks calls].
  destruct toks as [|tok toks].
  { intros [= <- <-]. left. discriminate. }
  destruct (get_n_ctx (add_events calls s1)) as [n|]; cbn [bind]; [|discriminate].
  destruct (n - 4 <? _).
  { intros [= <- <-]. left. discriminate. }
  unfold decode_prompt_and_generate.
  destruct (prompt_batch _ _) as [pb|]; cbn [bind]; [|discriminate].
  unfold decode. simpl context_. destruct (context_ s1) as [c|]; cbn [bind]; [|discriminate].
  cbn [fst snd].
  destruct (negb _).
  { intros [= <- <-]. left. discriminate. }
  match goal with
  | |- context [generation_loop ?e ?f ?mm ?r ?bb ?nn ?k ?st ?aa] =>
    destruct (generation_loop e f mm r bb nn k st aa) as [[s4 a4]|] eqn:Hloop
  end; cbn [bind]; [|discriminate].
  apply generation_loop_stops in Hloop; [|exact Herr1].
  intros [= <- <-]. simpl.
  destruct Hloop as [H|[H|[H|(evs & tk & He & Heog)]]].
  - left. exact H.
  - right. left. simpl in H. unfold effective_config.
    destruct config; exact H.
  - right. right. left. exact H.
  - right. right. right. exists m.
    cbn [events set_context_ emit add_events] in He. rewrite He1 in He.
    match type of He with
    | _ = ((((_ ++ _) ++ _) ++ ?x) ++ ?y) ++ _ => exists (evs1 ++ calls ++ x ++ y ++ evs), tk
    end.
    split; [symmetry; exact Hm1|]. split; [|exact Heog].
    rewrite He, <- !app_assoc. reflexivity.
Qed.

End FurtherProperties.

(** ** Further concrete runs *)

(** A cancellation asked for before the call is forgotten when the
    call starts. *)
Lemma cancel_before_generation_is_discarded_witness :
  isModelLoaded true toy_loaded = true
  /\ generateStream true toy_env "hi" collect None (cancelGeneration toy_loaded) []
     = generateStream true toy_env "hi" collect None toy_loaded [].
Proof.
  split; [reflexivity|].
  apply (cancel_before_generation_is_discarded true toy_env "hi" collect None toy_loaded []).
  reflexivity.
Defined.

(** A cancellation found at the third evaluation of the loop
    condition leaves two pieces. *)
Lemma cancellation_stops_the_stream_witness :
  cancel_requested toy_env_cancel 2 = true
  /\ match generateStream true toy_env_cancel "hi" collect None toy_loaded [] with
     | Ok (_, pieces) => (length pieces <= 2)%nat
     | Undefined _ => True
     end.
Proof.
  split; [reflexivity|].
  apply (cancellation_stops_the_stream true toy_env_cancel "hi" None toy_loaded 2).
  reflexivity.
Defined.

Lemma toy_pieces_fit : pieces_fit toy.
Proof.
  intros vocab tok. unfold toy, toy_token_to_piece. simpl.
  destruct (_ : bool); simpl; lia.
Qed.

Lemma generation_is_defined_witness :
  exists s' pieces, generateStream true toy_env "hi" collect None toy_loaded [] = Ok (s', pieces).
Proof.
  apply (generation_is_defined true toy_env "hi" collect None toy_loaded []).
  - apply reachable_loadModel, reachable_new.
  - exact toy_pieces_fit.
  - intros m Hm. vm_compute in Hm. injection Hm as <-.
    apply Z.leb_le. vm_compute. reflexivity.
Defined.

(** Loading a second model over the first. *)
Lemma one_model_at_a_time_witness :
  one_at_a_time (events (loadModel true toy_env "plain.gguf" toy_config toy_loaded).2).
Proof.
  apply (one_model_at_a_time true).
  apply reachable_loadModel, reachable_loadModel, reachable_new.
Defined.

Lemma destructor_releases_everything_witness :
  let s' := LlamaContextWrapper_delete true toy_loaded in
  unloaded s' = true
  /\ live delta_model (events s') = 0
  /\ live delta_context (events s') = 0
  /\ live delta_sampler (events s') = 0
  /\ live delta_backend (events s') = 0.
Proof.
  apply (destructor_releases_everything true toy_loaded).
  apply reachable_loadModel, reachable_new.
Defined.

(** A prompt with two spaces in a row comes back with one. *)
Lemma stub_generate_round_trip_witness :
  (forall k, cancel_requested toy_env k = false)
  /\ match generate false toy_env "hi  there" None toy_new_stub with
     | Ok (text, _) =>
       text = concatenation (canned_pieces "hi  there")
       /\ words text = words (stubResponse "hi  there")
     | Undefined _ => False
     end.
Proof.
  split; [intros k; reflexivity|].
  apply (stub_generate_round_trip toy_env "hi  there" None toy_new_stub).
  intros k. reflexivity.
Defined.
